(** * Connect-four game server: board engine, bot heuristic, sessions, matchmaker

    A shallow embedding of [backend/main.go] and the properties of it that
    its specification states.  Go values are modelled as follows.

    - [int] is [Z].  On a 6x7 board every arithmetic expression of the
      modelled code has operands that a slice access or a range test has
      already bounded, so the 64-bit wrap-around of Go never comes into play.
    - [Color] is a Go [string]; it stays a [string] here.
    - A slice access [s[i]] panics when [i] is out of range, and so does the
      dereference of a nil pointer; the model returns [None] for a panic.
    - [*Player] and [*GameState] are locations in two heaps, [nil] is
      [None]; two pointers are the same object when the locations are equal.
    - [time.Now()], [generateID()] and the order in which [range] visits a
      map are inputs of the step that uses them.
    - What a step sends, saves or starts is appended to a trace.
    - Every function body that runs under a mutex is one atomic step. *)

From Stdlib Require Import ZArith String List Lia Bool.
From stdpp Require Import base option list gmap strings.

Open Scope Z_scope.

(** ** Constants and data model *)

Definition ROWS : Z := 6.
Definition COLS : Z := 7.

Abbreviation Color := string (only parsing).

Definition Red : Color := "red"%string.
Definition Yellow : Color := "yellow"%string.
Definition Empty : Color := ""%string.

(** [[][]Color] *)
Abbreviation Grid := (list (list string)) (only parsing).

Abbreviation loc := nat (only parsing).

Record Player := mkPlayer {
  Username : string;
  PlayerColor : Color;
  Conn : option nat;
  LastSeen : Z;
  Disconnected : bool
}.

Record GameState := mkGameState {
  ID : string;
  Board : Grid;
  Player1 : option loc;
  Player2 : option loc;
  CurrentPlayer : Color;
  Winner : string;
  StartTime : Z;
  EndTime : option Z;
  IsBot : bool
}.

Definition set_PlayerColor (p : Player) (c : Color) : Player :=
  mkPlayer (Username p) c (Conn p) (LastSeen p) (Disconnected p).

Definition set_Conn (p : Player) (c : option nat) : Player :=
  mkPlayer (Username p) (PlayerColor p) c (LastSeen p) (Disconnected p).

Definition set_Disconnected (p : Player) (d : bool) : Player :=
  mkPlayer (Username p) (PlayerColor p) (Conn p) (LastSeen p) d.

Definition set_Board (g : GameState) (b : Grid) : GameState :=
  mkGameState (ID g) b (Player1 g) (Player2 g) (CurrentPlayer g) (Winner g)
              (StartTime g) (EndTime g) (IsBot g).

Definition set_CurrentPlayer (g : GameState) (c : Color) : GameState :=
  mkGameState (ID g) (Board g) (Player1 g) (Player2 g) c (Winner g)
              (StartTime g) (EndTime g) (IsBot g).

Definition set_Winner (g : GameState) (w : string) : GameState :=
  mkGameState (ID g) (Board g) (Player1 g) (Player2 g) (CurrentPlayer g) w
              (StartTime g) (EndTime g) (IsBot g).

Definition set_EndTime (g : GameState) (t : option Z) : GameState :=
  mkGameState (ID g) (Board g) (Player1 g) (Player2 g) (CurrentPlayer g)
              (Winner g) (StartTime g) t (IsBot g).

(** ** Slice access *)

(** [s[i]]: a panic ([None]) when [i] is negative or not below [len(s)]. *)
Definition index {A : Type} (s : list A) (i : Z) : option A :=
  if i <? 0 then None else s !! Z.to_nat i.

(** [board[r][c]] *)
Definition cell (b : Grid) (r c : Z) : option Color :=
  match index b r with
  | Some row => index row c
  | None => None
  end.

(** [board[r][c] = v] *)
Definition setCell (b : Grid) (r c : Z) (v : Color) : option Grid :=
  match index b r with
  | Some row =>
      match index row c with
      | Some _ => Some (<[Z.to_nat r := <[Z.to_nat c := v]> row]> b)
      | None => None
      end
  | None => None
  end.

(** The values a [for] loop variable takes: [lo, lo+1, ..., lo+n-1]. *)
Definition upFrom (lo : Z) (n : nat) : list Z :=
  map (fun k => lo + Z.of_nat k) (seq 0 n).

(** [n-1, n-2, ..., 0] *)
Fixpoint downFrom (n : nat) : list Z :=
  match n with
  | O => []
  | S k => Z.of_nat k :: downFrom k
  end.

(** [make([][]Color, ROWS)] with every row [make([]Color, COLS)] *)
Definition emptyBoard : Grid :=
  replicate (Z.to_nat ROWS) (replicate (Z.to_nat COLS) Empty).

(** ** Board engine *)

(** [r < 0 || r >= ROWS || c < 0 || c >= COLS] *)
Definition outOfGrid (r c : Z) : bool :=
  (r <? 0) || (r >=? ROWS) || (c <? 0) || (c >=? COLS).

(** One of the two inner loops of [checkWinner]: [pos i] is the cell looked at
    in iteration [i], [idxs] the remaining values of [i], [count] the running
    count.  A [break] returns the count reached. *)
Fixpoint countRun (b : Grid) (color : Color) (pos : Z -> Z * Z)
         (idxs : list Z) (count : Z) : option Z :=
  match idxs with
  | [] => Some count
  | i :: rest =>
      let '(r, c) := pos i in
      if outOfGrid r c then Some count
      else match cell b r c with
           | None => None
           | Some x =>
               if negb (String.eqb x color) then Some count
               else countRun b color pos rest (count + 1)
           end
  end.

Definition directions : list (Z * Z) := [(0, 1); (1, 0); (1, 1); (1, -1)].

(** The loop over [directions]. *)
Fixpoint checkDirections (b : Grid) (color : Color) (row col : Z)
         (dirs : list (Z * Z)) : option bool :=
  match dirs with
  | [] => Some false
  | (dr, dc) :: rest =>
      match countRun b color (fun i => (row + dr * i, col + dc * i))
                     (upFrom 1 3) 1 with
      | None => None
      | Some count1 =>
          match countRun b color (fun i => (row - dr * i, col - dc * i))
                         (upFrom 1 3) count1 with
          | None => None
          | Some count =>
              if count >=? 4 then Some true
              else checkDirections b color row col rest
          end
      end
  end.

Definition checkWinner (game : GameState) (row col : Z) : option bool :=
  match cell (Board game) row col with
  | None => None
  | Some color =>
      if String.eqb color Empty then Some false
      else checkDirections (Board game) color row col directions
  end.

(** [for _, row := range game.Board { for _, cell := range row { ... } }] *)
Definition isBoardFull (game : GameState) : bool :=
  forallb (forallb (fun c => negb (String.eqb c Empty))) (Board game).

(** The loop [row := -1; for r := ROWS - 1; r >= 0; r-- { ... }] that
    [handleMove], [makeBotMove] and [canWin] each carry a copy of; [rs] are
    the remaining values of [r]. *)
Fixpoint searchRow (b : Grid) (col : Z) (rs : list Z) : option Z :=
  match rs with
  | [] => Some (-1)
  | r :: rest =>
      match cell b r col with
      | None => None
      | Some x => if String.eqb x Empty then Some r else searchRow b col rest
      end
  end.

Definition lowestEmptyRow (b : Grid) (col : Z) : option Z :=
  searchRow b col (downFrom (Z.to_nat ROWS)).

(** ** Opponent heuristic *)

(** The board is mutated in place and rolled back; the game is threaded
    through. *)
Definition canWin (game : GameState) (col : Z) (color : Color)
  : option (bool * GameState) :=
  match lowestEmptyRow (Board game) col with
  | None => None
  | Some row =>
      if row =? -1 then Some (false, game)
      else
        match setCell (Board game) row col color with
        | None => None
        | Some b1 =>
            let game1 := set_Board game b1 in
            match checkWinner game1 row col with
            | None => None
            | Some wins =>
                match setCell (Board game1) row col Empty with
                | None => None
                | Some b2 => Some (wins, set_Board game1 b2)
                end
            end
        end
  end.

Definition isColumnAvailable (game : GameState) (col : Z) : option bool :=
  if (col >=? 0) && (col <? COLS) then
    match cell (Board game) 0 col with
    | None => None
    | Some x => Some (String.eqb x Empty)
    end
  else Some false.

(** [for col := 0; col < COLS; col++ { if gs.canWin(game, col, color) { return col } }];
    [None] when the loop falls through. *)
Fixpoint firstWinning (game : GameState) (color : Color) (cols : list Z)
  : option (option Z * GameState) :=
  match cols with
  | [] => Some (None, game)
  | col :: rest =>
      match canWin game col color with
      | None => None
      | Some (true, game1) => Some (Some col, game1)
      | Some (false, game1) => firstWinning game1 color rest
      end
  end.

(** [for _, col := range []int{...} { if gs.isColumnAvailable(game, col) { return col } }] *)
Fixpoint firstAvailable (game : GameState) (cols : list Z) : option (option Z) :=
  match cols with
  | [] => Some None
  | col :: rest =>
      match isColumnAvailable game col with
      | None => None
      | Some true => Some (Some col)
      | Some false => firstAvailable game rest
      end
  end.

Definition getBotMove (game : GameState) : option (Z * GameState) :=
  match firstWinning game Yellow (upFrom 0 (Z.to_nat COLS)) with
  | None => None
  | Some (Some col, game1) => Some (col, game1)
  | Some (None, game1) =>
      match firstWinning game1 Red (upFrom 0 (Z.to_nat COLS)) with
      | None => None
      | Some (Some col, game2) => Some (col, game2)
      | Some (None, game2) =>
          match isColumnAvailable game2 3 with
          | None => None
          | Some true => Some (3, game2)
          | Some false =>
              match firstAvailable game2 [2; 4; 1; 5; 0; 6] with
              | None => None
              | Some (Some col) => Some (col, game2)
              | Some None => Some (-1, game2)
              end
          end
      end
  end.

(** ** Messages, effects and the server state *)

(** The wire record; a field left out of a Go literal has its zero value. *)
Record Message := mkMessage {
  mType : string;
  mUsername : string;
  mColumn : Z;
  mBoard : Grid;
  mCurrentPlayer : Color;
  mColor : Color;
  mOpponent : string;
  mWinner : string;
  mGameID : string;
  mMessage : string
}.

Definition errorMessage (text : string) : Message :=
  mkMessage "error" "" 0 [] "" "" "" "" "" text.
Definition waitingMessage : Message :=
  mkMessage "waiting" "" 0 [] "" "" "" "" "" "".
Definition gameStartMessage (color : Color) (opponent : string)
           (current : Color) (gameID : string) : Message :=
  mkMessage "game_start" "" 0 [] current color opponent "" gameID "".
Definition moveMessage (board : Grid) (current : Color) : Message :=
  mkMessage "move" "" 0 board current "" "" "" "" "".
Definition gameOverMessage (board : Grid) (winner : string) : Message :=
  mkMessage "game_over" "" 0 board "" "" "" winner "" "".
Definition opponentDisconnectedMessage : Message :=
  mkMessage "opponent_disconnected" "" 0 [] "" "" "" "" "" "".
Definition gameForfeitedMessage (winner : string) : Message :=
  mkMessage "game_forfeited" "" 0 [] "" "" "" winner "" "".

(** The goroutines the server starts with [go func() { time.Sleep(...); ... }()];
    each is named by the body it runs when its sleep is over. *)
Inductive Task :=
| BotMoveTask (game : loc)
| BotTimerTask (player : loc)
| ForfeitTask (player game : loc).

(** What a step does to the outside. *)
Inductive Event :=
| WriteJSON (conn : nat) (msg : Message)
| DbInsert (id player1 player2 winner : string) (startTime : Z)
           (endTime : option Z) (isBot : bool)
| KafkaGameStart (gameID player1 player2 : string) (isBot : bool)
| KafkaGameEnd (gameID winner : string) (isBot : bool)
| Go (task : Task).

(** [GameServer] with the two heaps its pointers live in and the trace of the
    effects so far.  [db] and [kafkaWriter] say whether the Go field is
    non-nil. *)
Record World := mkWorld {
  players : gmap nat Player;
  gameObjs : gmap nat GameState;
  games : gmap string nat;
  playerGames : gmap string nat;
  waitingPlayers : list nat;
  db : bool;
  kafkaWriter : bool;
  trace : list Event
}.

Definition NewGameServer (db kafkaWriter : bool) : World :=
  mkWorld ∅ ∅ ∅ ∅ [] db kafkaWriter [].

Definition set_players (w : World) (x : gmap nat Player) : World :=
  mkWorld x (gameObjs w) (games w) (playerGames w) (waitingPlayers w)
          (db w) (kafkaWriter w) (trace w).
Definition set_gameObjs (w : World) (x : gmap nat GameState) : World :=
  mkWorld (players w) x (games w) (playerGames w) (waitingPlayers w)
          (db w) (kafkaWriter w) (trace w).
Definition set_games (w : World) (x : gmap string nat) : World :=
  mkWorld (players w) (gameObjs w) x (playerGames w) (waitingPlayers w)
          (db w) (kafkaWriter w) (trace w).
Definition set_playerGames (w : World) (x : gmap string nat) : World :=
  mkWorld (players w) (gameObjs w) (games w) x (waitingPlayers w)
          (db w) (kafkaWriter w) (trace w).
Definition set_waitingPlayers (w : World) (x : list nat) : World :=
  mkWorld (players w) (gameObjs w) (games w) (playerGames w) x
          (db w) (kafkaWriter w) (trace w).
Definition set_trace (w : World) (x : list Event) : World :=
  mkWorld (players w) (gameObjs w) (games w) (playerGames w)
          (waitingPlayers w) (db w) (kafkaWriter w) x.

(** ** A state monad with panics *)

Definition M (A : Type) : Type := World -> option (A * World).

Definition ret {A : Type} (a : A) : M A := fun w => Some (a, w).

Definition bind {A B : Type} (m : M A) (k : A -> M B) : M B :=
  fun w => match m w with
           | Some (a, w1) => k a w1
           | None => None
           end.

#[global] Instance M_ret : MRet M := @ret.
#[global] Instance M_bind : MBind M := fun A B k m => bind m k.

(** A panic inside a pure helper is a panic of the step. *)
Definition lift {A : Type} (o : option A) : M A :=
  fun w => match o with Some a => Some (a, w) | None => None end.

Definition getWorld : M World := fun w => Some (w, w).

(** [*p]; a nil pointer panics. *)
Definition getPlayer (p : option loc) : M Player :=
  fun w => match p with
           | Some l => match players w !! l with
                       | Some x => Some (x, w)
                       | None => None
                       end
           | None => None
           end.

Definition setPlayer (p : option loc) (x : Player) : M unit :=
  fun w => match p with
           | Some l => Some (tt, set_players w (<[l := x]> (players w)))
           | None => None
           end.

Definition getGame (g : loc) : M GameState :=
  fun w => match gameObjs w !! g with
           | Some x => Some (x, w)
           | None => None
           end.

Definition setGame (g : loc) (x : GameState) : M unit :=
  fun w => Some (tt, set_gameObjs w (<[g := x]> (gameObjs w))).

Definition emit (e : Event) : M unit :=
  fun w => Some (tt, set_trace w (trace w ++ [e])).

(** [if conn != nil { conn.WriteJSON(msg) }]; the error [WriteJSON] returns
    is logged at most. *)
Definition sendIfConn (conn : option nat) (msg : Message) : M unit :=
  match conn with
  | Some c => emit (WriteJSON c msg)
  | None => ret tt
  end.

(** ** Session *)

Definition sendKafkaGameEnd (game : GameState) : M unit :=
  w ← getWorld;
  if kafkaWriter w then emit (KafkaGameEnd (ID game) (Winner game) (IsBot game))
  else ret tt.

Definition saveGame (g : loc) : M unit :=
  w ← getWorld;
  if negb (db w) then ret tt
  else
    game ← getGame g;
    let winner := if String.eqb (Winner game) "draw" then ""%string
                  else Winner game in
    p1 ← getPlayer (Player1 game);
    p2 ← getPlayer (Player2 game);
    let winnerUsername :=
      if String.eqb winner "red" then Username p1
      else if String.eqb winner "yellow" then Username p2
      else ""%string in
    emit (DbInsert (ID game) (Username p1) (Username p2) winnerUsername
                   (StartTime game) (EndTime game) (IsBot game)).

Definition broadcastMove (g : loc) : M unit :=
  game ← getGame g;
  let msg := moveMessage (Board game) (CurrentPlayer game) in
  p1 ← getPlayer (Player1 game);
  sendIfConn (Conn p1) msg;;
  match Player2 game with
  | None => ret tt
  | Some _ => p2 ← getPlayer (Player2 game); sendIfConn (Conn p2) msg
  end.

Definition broadcastGameOver (g : loc) : M unit :=
  game ← getGame g;
  let msg := gameOverMessage (Board game) (Winner game) in
  p1 ← getPlayer (Player1 game);
  sendIfConn (Conn p1) msg;;
  match Player2 game with
  | None => ret tt
  | Some _ => p2 ← getPlayer (Player2 game); sendIfConn (Conn p2) msg
  end;;
  sendKafkaGameEnd game.

(** [if game.CurrentPlayer == Red { Yellow } else { Red }] *)
Definition nextPlayer (c : Color) : Color :=
  if String.eqb c Red then Yellow else Red.

Definition handleMove (now : Z) (g p : loc) (col : Z) : M unit :=
  game ← getGame g;
  player ← getPlayer (Some p);
  if negb (String.eqb (Winner game) "") then ret tt
  else if negb (String.eqb (PlayerColor player) (CurrentPlayer game)) then
    sendIfConn (Conn player) (errorMessage "Not your turn")
  else if (col <? 0) || (col >=? COLS) then ret tt
  else
    row ← lift (lowestEmptyRow (Board game) col);
    if row =? -1 then
      sendIfConn (Conn player) (errorMessage "Column is full")
    else
      b1 ← lift (setCell (Board game) row col (PlayerColor player));
      let game1 := set_Board game b1 in
      setGame g game1;;
      wins ← lift (checkWinner game1 row col);
      if (wins : bool) then
        setGame g (set_EndTime (set_Winner game1 (PlayerColor player))
                               (Some now));;
        saveGame g;;
        broadcastGameOver g
      else if isBoardFull game1 then
        setGame g (set_EndTime (set_Winner game1 "draw") (Some now));;
        saveGame g;;
        broadcastGameOver g
      else
        let game2 := set_CurrentPlayer game1 (nextPlayer (CurrentPlayer game1)) in
        setGame g game2;;
        broadcastMove g;;
        if IsBot game2 && String.eqb (CurrentPlayer game2) Yellow then
          emit (Go (BotMoveTask g))
        else ret tt.

Definition makeBotMove (now : Z) (g : loc) : M unit :=
  game ← getGame g;
  if negb (String.eqb (Winner game) "") then ret tt
  else
    r ← lift (getBotMove game);
    let '(col, game0) := (r : Z * GameState) in
    setGame g game0;;
    if col =? -1 then ret tt
    else
      row ← lift (lowestEmptyRow (Board game0) col);
      if row =? -1 then ret tt
      else
        b1 ← lift (setCell (Board game0) row col Yellow);
        let game1 := set_Board game0 b1 in
        setGame g game1;;
        wins ← lift (checkWinner game1 row col);
        if (wins : bool) then
          setGame g (set_EndTime (set_Winner game1 "yellow") (Some now));;
          saveGame g;;
          broadcastGameOver g
        else if isBoardFull game1 then
          setGame g (set_EndTime (set_Winner game1 "draw") (Some now));;
          saveGame g;;
          broadcastGameOver g
        else
          setGame g (set_CurrentPlayer game1 Red);;
          broadcastMove g.

(** ** Matchmaker *)

(** [&Player{...}]: a location the heap does not hold yet. *)
Definition allocPlayer (x : Player) : M loc :=
  fun w => let l := fresh (dom (players w)) in
           Some (l, set_players w (<[l := x]> (players w))).

(** [&GameState{...}] *)
Definition allocGame (x : GameState) : M loc :=
  fun w => let l := fresh (dom (gameObjs w)) in
           Some (l, set_gameObjs w (<[l := x]> (gameObjs w))).

Definition sendKafkaGameStart (gameID p1 p2 : string) (isBot : bool) : M unit :=
  w ← getWorld;
  if kafkaWriter w then emit (KafkaGameStart gameID p1 p2 isBot) else ret tt.

(** [gameID] is what [generateID()] returns and [now] what [time.Now()]
    returns in this call. *)
Definition createGame (gameID : string) (now : Z) (p1 p2 : loc) (isBot : bool)
  : M loc :=
  x1 ← getPlayer (Some p1);
  setPlayer (Some p1) (set_PlayerColor x1 Red);;
  x2 ← getPlayer (Some p2);
  setPlayer (Some p2) (set_PlayerColor x2 Yellow);;
  g ← allocGame (mkGameState gameID emptyBoard (Some p1) (Some p2) Red ""
                             now None isBot);
  (fun w => Some (tt, set_games w (<[gameID := g]> (games w))));;
  x1 ← getPlayer (Some p1);
  x2 ← getPlayer (Some p2);
  (fun w => Some (tt, set_playerGames w (<[Username x1 := g]> (playerGames w))));;
  (if negb isBot then
     fun w => Some (tt, set_playerGames w (<[Username x2 := g]> (playerGames w)))
   else ret tt);;
  sendIfConn (Conn x1) (gameStartMessage Red (Username x2) Red gameID);;
  (if negb isBot then
     sendIfConn (Conn x2) (gameStartMessage Yellow (Username x1) Red gameID)
   else ret tt);;
  sendKafkaGameStart gameID (Username x1) (Username x2) isBot;;
  ret g.

Definition sendGameState (g : loc) : M unit :=
  game ← getGame g;
  let msg := moveMessage (Board game) (CurrentPlayer game) in
  p1 ← getPlayer (Player1 game);
  (if negb (Disconnected p1) then sendIfConn (Conn p1) msg else ret tt);;
  match Player2 game with
  | None => ret tt
  | Some _ =>
      p2 ← getPlayer (Player2 game);
      if negb (Disconnected p2) then sendIfConn (Conn p2) msg else ret tt
  end.

(** The three assignments and the send of one rejoin branch; [seat] is
    [game.Player1] or [game.Player2]. *)
Definition reattach (g : loc) (seat : option loc) (p : loc) : M unit :=
  player ← getPlayer (Some p);
  s ← getPlayer seat;
  setPlayer seat (set_Conn s (Conn player));;
  s ← getPlayer seat;
  setPlayer seat (set_Disconnected s false);;
  s ← getPlayer seat;
  player ← getPlayer (Some p);
  setPlayer (Some p) (set_PlayerColor player (PlayerColor s));;
  sendGameState g.

(** [for _, game := range gs.games { ... }]; [gs] are the games still to
    visit, in the order the runtime enumerates the map. *)
Fixpoint rejoinLoop (p : loc) (gs : list loc) : M (option loc) :=
  match gs with
  | [] => ret None
  | g :: rest =>
      game ← getGame g;
      if String.eqb (Winner game) "" then
        player ← getPlayer (Some p);
        p1 ← getPlayer (Player1 game);
        if String.eqb (Username p1) (Username player) && Disconnected p1 then
          reattach g (Player1 game) p;; ret (Some g)
        else
          match Player2 game with
          | None => rejoinLoop p rest
          | Some _ =>
              p2 ← getPlayer (Player2 game);
              if String.eqb (Username p2) (Username player) && Disconnected p2
              then reattach g (Player2 game) p;; ret (Some g)
              else rejoinLoop p rest
          end
      else rejoinLoop p rest
  end.

(** [order] is the order in which the runtime enumerates [gs.games] in this
    call: Go leaves it unspecified. *)
Definition matchPlayer (order : list (string * loc)) (gameID : string)
           (now : Z) (p : loc) : M (option loc) :=
  r ← rejoinLoop p (order.*2);
  match r : option loc with
  | Some g => ret (Some g)
  | None =>
      w ← getWorld;
      match waitingPlayers w with
      | opponent :: rest =>
          (fun w => Some (tt, set_waitingPlayers w rest));;
          g ← createGame gameID now opponent p false;
          ret (Some g)
      | [] =>
          (fun w => Some (tt, set_waitingPlayers w (waitingPlayers w ++ [p])));;
          player ← getPlayer (Some p);
          c ← lift (Conn player);
          emit (WriteJSON c waitingMessage);;
          emit (Go (BotTimerTask p));;
          ret None
      end
  end.

(** The body of the goroutine [matchPlayer] starts, after its sleep. *)
Definition botTimerFire (gameID : string) (now : Z) (p : loc) : M unit :=
  w ← getWorld;
  match list_find (fun x => x = p) (waitingPlayers w) with
  | Some (i, _) =>
      (fun w => Some (tt, set_waitingPlayers w (delete i (waitingPlayers w))));;
      bot ← allocPlayer (mkPlayer "Bot" Yellow None 0 false);
      createGame gameID now p bot true;;
      ret tt
  | None => ret tt
  end.

(** The [join] case of [HandleWebSocket]. *)
Definition handleJoin (conn : nat) (username : string)
           (order : list (string * loc)) (gameID : string) (now : Z)
  : M (loc * option loc) :=
  p ← allocPlayer (mkPlayer username "" (Some conn) now false);
  g ← matchPlayer order gameID now p;
  ret (p, g).

(** ** Disconnect and forfeiture *)

Definition getOpponent (game : GameState) (p : loc) : option loc :=
  if decide (Player1 game = Some p) then Player2 game else Player1 game.

Definition handleDisconnect (p g : loc) : M unit :=
  player ← getPlayer (Some p);
  setPlayer (Some p) (set_Disconnected player true);;
  game ← getGame g;
  match getOpponent game p with
  | None => ret tt
  | Some o =>
      opponent ← getPlayer (Some o);
      sendIfConn (Conn opponent) opponentDisconnectedMessage
  end;;
  emit (Go (ForfeitTask p g)).

(** The body of the goroutine [handleDisconnect] starts, after its sleep. *)
Definition forfeitTimerFire (now : Z) (p g : loc) : M unit :=
  player ← getPlayer (Some p);
  game ← getGame g;
  if Disconnected player && String.eqb (Winner game) "" then
    opponent ← getPlayer (getOpponent game p);
    let game1 := set_Winner game (PlayerColor opponent) in
    setGame g game1;;
    setGame g (set_EndTime game1 (Some now));;
    saveGame g;;
    match getOpponent game1 p with
    | None => ret tt
    | Some o =>
        opp ← getPlayer (Some o);
        sendIfConn (Conn opp) (gameForfeitedMessage (Winner game1))
    end
  else ret tt.

(** ** Runs of the server *)

(** One atomic step: a message handled or a timer fired, with whatever the
    environment supplies (clock, random id, map iteration order). *)
Inductive step : World -> World -> Prop :=
| step_join conn username order gameID now w r w' :
    order ≡ₚ map_to_list (games w) ->
    handleJoin conn username order gameID now w = Some (r, w') ->
    step w w'
| step_move now g p col w w' :
    handleMove now g p col w = Some (tt, w') -> step w w'
| step_bot now g w w' :
    makeBotMove now g w = Some (tt, w') -> step w w'
| step_botTimer gameID now p w w' :
    botTimerFire gameID now p w = Some (tt, w') -> step w w'
| step_disconnect p g w w' :
    handleDisconnect p g w = Some (tt, w') -> step w w'
| step_forfeit now p g w w' :
    forfeitTimerFire now p g w = Some (tt, w') -> step w w'.

Inductive reachable : World -> Prop :=
| reachable_init db kafka : reachable (NewGameServer db kafka)
| reachable_step w w' : reachable w -> step w w' -> reachable w'.

(** ** Specification vocabulary *)

(** A board of [ROWS] rows of [COLS] cells, as [createGame] allocates it. *)
Definition wfGrid (b : Grid) : Prop :=
  length b = Z.to_nat ROWS /\ Forall (fun row => length row = Z.to_nat COLS) b.

Definition inGrid (r c : Z) : Prop := 0 <= r < ROWS /\ 0 <= c < COLS.

(** The cell is on the grid and holds [color]. *)
Definition holds (b : Grid) (color : Color) (r c : Z) : Prop :=
  inGrid r c /\ cell b r c = Some color.

(** The axis through [(row, col)] with step [(dr, dc)] has a run of at least
    four cells of [color], contiguous and with [(row, col)] among them: the
    cells at offsets [lo .. hi]. *)
Definition axisRun (b : Grid) (color : Color) (row col dr dc : Z) : Prop :=
  exists lo hi, lo <= 0 <= hi /\ 4 <= hi - lo + 1 /\
    forall j, lo <= j <= hi -> holds b color (row + dr * j) (col + dc * j).

Definition fourInLine (b : Grid) (color : Color) (row col : Z) : Prop :=
  axisRun b color row col 0 1 \/ axisRun b color row col 1 0 \/
  axisRun b color row col 1 1 \/ axisRun b color row col 1 (-1).

(** The cell is on the board and holds a disc. *)
Definition filled (b : Grid) (r c : Z) : Prop :=
  exists x, cell b r c = Some x /\ x <> Empty.

(** Gravity: below a disc there are only discs. *)
Definition gravity (b : Grid) : Prop :=
  forall r c, filled b r c -> forall r', r < r' < ROWS -> filled b r' c.

(** The column has room: its top cell is empty. *)
Definition hasRoom (b : Grid) (col : Z) : Prop := cell b 0 col = Some Empty.

(** [row] is the lowest empty cell of the column: empty, with only discs
    below it (rows of greater index). *)
Definition lowestEmpty (b : Grid) (col row : Z) : Prop :=
  0 <= row < ROWS /\ cell b row col = Some Empty /\
  forall r', row < r' < ROWS -> filled b r' col.

(** A disc of [side] dropped in [col] would complete a line of four. *)
Definition wouldWin (b : Grid) (side : Color) (col : Z) : Prop :=
  exists row b', lowestEmpty b col row /\ setCell b row col side = Some b' /\
                 fourInLine b' side row col.

(** [c] is the first element of [cols], in list order, that satisfies [P]. *)
Definition firstIn (P : Z -> Prop) (cols : list Z) (c : Z) : Prop :=
  exists k : nat, cols !! k = Some c /\ P c /\
    forall (j : nat) c', (j < k)%nat -> cols !! j = Some c' -> ~ P c'.

Definition noneIn (P : Z -> Prop) (cols : list Z) : Prop :=
  forall c, c ∈ cols -> ~ P c.

(** The decision order of the opponent heuristic, in the words of its
    specification: win now, else block, else the center, else the fixed
    preference order, else no move. *)
Definition botChoice (b : Grid) (own opponent : Color) (c : Z) : Prop :=
  let columns := upFrom 0 (Z.to_nat COLS) in
  firstIn (wouldWin b own) columns c \/
  (noneIn (wouldWin b own) columns /\
   (firstIn (wouldWin b opponent) columns c \/
    (noneIn (wouldWin b opponent) columns /\
     ((hasRoom b 3 /\ c = 3) \/
      (~ hasRoom b 3 /\
       (firstIn (hasRoom b) [2; 4; 1; 5; 0; 6] c \/
        (noneIn (hasRoom b) [2; 4; 1; 5; 0; 6] /\ c = -1))))))).

(** The step returns and changes nothing but the trace, which it extends. *)
Definition effectOnly (m : M unit) (w : World) : Prop :=
  exists evs, m w = Some (tt, set_trace w (trace w ++ evs)).

(** Both seats of the game at [g] point at players. *)
Definition seated (w : World) (g : loc) : Prop :=
  exists game l1 l2 x1 x2,
    gameObjs w !! g = Some game /\
    Player1 game = Some l1 /\ players w !! l1 = Some x1 /\
    Player2 game = Some l2 /\ players w !! l2 = Some x2.

(** The game object [handleMove] leaves behind once it has written the disc:
    [b1] is the board with the disc, [wins] what [checkWinner] answered. *)
Definition afterMove (game : GameState) (color : Color) (now : Z) (b1 : Grid)
           (wins : bool) : GameState :=
  let game1 := set_Board game b1 in
  if wins then set_EndTime (set_Winner game1 color) (Some now)
  else if isBoardFull game1 then set_EndTime (set_Winner game1 "draw") (Some now)
  else set_CurrentPlayer game1 (nextPlayer (CurrentPlayer game1)).

(** The world differs from [w] in the game object at [g] and in a longer
    trace only. *)
Definition updatesGame (w : World) (g : loc) (game' : GameState) (w' : World)
  : Prop :=
  exists evs,
    w' = set_trace (set_gameObjs w (<[g := game']> (gameObjs w))) (trace w ++ evs).

(** No empty cell remains on the grid. *)
Definition boardFull (b : Grid) : Prop :=
  forall r c, inGrid r c -> filled b r c.

(** What every game object of a running server satisfies. *)
Definition goodGame (game : GameState) : Prop :=
  wfGrid (Board game) /\ gravity (Board game) /\
  (CurrentPlayer game = Red \/ CurrentPlayer game = Yellow).

Definition goodGames (w : World) : Prop :=
  forall g game, gameObjs w !! g = Some game -> goodGame game.

(** Every run of [m] that returns relates the world before to the world
    after by [R]. *)
Definition respects {A : Type} (R : World -> World -> Prop) (m : M A) : Prop :=
  forall w a w', m w = Some (a, w') -> R w w'.

(** The world after has a longer trace and is otherwise the world before. *)
Definition extends (w w' : World) : Prop :=
  exists evs, w' = set_trace w (trace w ++ evs).

(** Only the player heap and the trace may differ. *)
Definition playersOnly (w w' : World) : Prop :=
  gameObjs w' = gameObjs w /\ games w' = games w /\
  playerGames w' = playerGames w /\ waitingPlayers w' = waitingPlayers w /\
  db w' = db w /\ kafkaWriter w' = kafkaWriter w.

(** The game object [makeBotMove] leaves behind once it has written its
    disc. *)
Definition afterBotMove (game : GameState) (now : Z) (b1 : Grid) (wins : bool)
  : GameState :=
  let game1 := set_Board game b1 in
  if wins then set_EndTime (set_Winner game1 "yellow") (Some now)
  else if isBoardFull game1 then set_EndTime (set_Winner game1 "draw") (Some now)
  else set_CurrentPlayer game1 Red.

(** The game object [forfeitTimerFire] leaves behind when it forfeits. *)
Definition afterForfeit (game : GameState) (winner : Color) (now : Z)
  : GameState :=
  set_EndTime (set_Winner game winner) (Some now).

(** Every game object of [w'] is one of [w] or a game that has just been
    created. *)
Definition newGames (w w' : World) : Prop :=
  forall g game', gameObjs w' !! g = Some game' ->
    gameObjs w !! g = Some game' \/
    (Board game' = emptyBoard /\ CurrentPlayer game' = Red).

Definition sameQueue (w w' : World) : Prop :=
  waitingPlayers w' = waitingPlayers w.

(** ** Example positions *)

Definition emptyRow : list string := replicate 7 Empty.

(** Four red discs on the bottom row, as in [TestCheckWinner]. *)
Definition lineBoard : Grid :=
  [emptyRow; emptyRow; emptyRow; emptyRow; emptyRow;
   [Red; Red; Red; Red; Empty; Empty; Empty]].

(** Three red discs on the bottom row, as in [TestBotMove]. *)
Definition threeRedBoard : Grid :=
  [emptyRow; emptyRow; emptyRow; emptyRow; emptyRow;
   [Red; Red; Red; Empty; Empty; Empty; Empty]].

(** Yellow wins in column 4; red would win in column 0. *)
Definition winAndBlockBoard : Grid :=
  [emptyRow; emptyRow; emptyRow;
   [Red; Empty; Empty; Empty; Empty; Empty; Empty];
   [Red; Empty; Empty; Empty; Empty; Empty; Empty];
   [Red; Yellow; Yellow; Yellow; Empty; Empty; Empty]].

(** A board no play produces: a red disc on top of the empty column 0, three
    yellow discs on the bottom row next to it. *)
Definition floatingBoard : Grid :=
  [[Red; Empty; Empty; Empty; Empty; Empty; Empty];
   emptyRow; emptyRow; emptyRow; emptyRow;
   [Empty; Yellow; Yellow; Yellow; Empty; Empty; Empty]].


(** One red disc, in the bottom left corner. *)
Definition oneRedBoard : Grid :=
  [emptyRow; emptyRow; emptyRow; emptyRow; emptyRow;
   [Red; Empty; Empty; Empty; Empty; Empty; Empty]].

(** A game between the players at locations 0 and 1. *)
Definition exampleGame (b : Grid) (turn : Color) (winner : string) : GameState :=
  mkGameState "g1" b (Some 0%nat) (Some 1%nat) turn winner 0 None false.

Definition alice : Player := mkPlayer "alice" Red (Some 1%nat) 0 false.
Definition bob : Player := mkPlayer "bob" Yellow (Some 2%nat) 0 false.

(** A server that holds [exampleGame] and nothing else. *)
Definition exampleWorld (b : Grid) (turn : Color) (winner : string) : World :=
  mkWorld {[0%nat := alice; 1%nat := bob]}
          {[0%nat := exampleGame b turn winner]}
          {["g1"%string := 0%nat]}
          {["alice"%string := 0%nat; "bob"%string := 0%nat]}
          [] false false [].

(** [p] holds one seat of the game and [o] the other. *)
Definition seats (game : GameState) (p o : loc) : Prop :=
  p <> o /\
  ((Player1 game = Some p /\ Player2 game = Some o) \/
   (Player1 game = Some o /\ Player2 game = Some p)).

(** The participant named [name] occupies [seat], a seat of the game at [g]
    that is marked disconnected, and the game has no result. *)
Definition occupiesDisconnectedSeat (w : World) (name : string) (g seat : loc)
  : Prop :=
  exists game x,
    gameObjs w !! g = Some game /\ Winner game = ""%string /\
    (Player1 game = Some seat \/ Player2 game = Some seat) /\
    players w !! seat = Some x /\ Username x = name /\ Disconnected x = true.

Definition rejoinable (w : World) (name : string) (g : loc) : Prop :=
  exists seat, occupiesDisconnectedSeat w name g seat.

(** What [sendGameState] sends to one seat. *)
Definition stateEvents (msg : Message) (x : Player) : list Event :=
  if Disconnected x then []
  else match Conn x with
       | Some c => [WriteJSON c msg]
       | None => []
       end.

(** The seat after the rejoin branch has run for the joining [player]. *)
Definition reattached (s player : Player) : Player :=
  set_Disconnected (set_Conn s (Conn player)) false.

(** The player heap after the rejoin branch. *)
Definition reattachedPlayers (w : World) (seat p : loc) (s player : Player)
  : gmap nat Player :=
  <[p := set_PlayerColor player (PlayerColor s)]>
    (<[seat := reattached s player]> (players w)).

(** ** Example runs *)

(** Runs the steps one after the other; a panic stops the run. *)
Fixpoint run (steps : list (M unit)) (w : World) : option World :=
  match steps with
  | [] => Some w
  | m :: rest =>
      match m w with
      | Some (_, w1) => run rest w1
      | None => None
      end
  end.

Definition join (conn : nat) (username : string) (order : list (string * loc))
           (gameID : string) : M unit :=
  handleJoin conn username order gameID 0;; ret tt.

(** Two connections that both call themselves alice are seated, in game g1
    against bob and in game g2 against carol; each moves once and then
    drops. *)
Definition twoAlicesSteps : list (M unit) :=
  [ join 1 "alice" [] "g1";
    join 2 "bob" [] "g1";
    handleMove 1 0%nat 0%nat 0;
    join 3 "alice" [("g1"%string, 0%nat)] "g2";
    join 4 "carol" [("g1"%string, 0%nat)] "g2";
    handleMove 2 1%nat 2%nat 0;
    handleDisconnect 0%nat 0%nat;
    handleDisconnect 2%nat 1%nat ].

Definition twoAlices : World :=
  default (NewGameServer false false)
          (run twoAlicesSteps (NewGameServer false false)).

(** The identities waiting, in queue order. *)
Definition queueNames (w : World) : list (option string) :=
  (fun l => Username <$> players w !! l) <$> waitingPlayers w.


(** alice has joined and waits; the player object of bob's join exists. *)
Definition bobArrives : World :=
  let w := default (NewGameServer false false)
                   (run [join 1 "alice" [] "g1"] (NewGameServer false false)) in
  set_players w (<[1%nat := mkPlayer "bob" "" (Some 2%nat) 0 false]> (players w)).

(** [twoAlices] with the player object of a third join under the name
    alice. *)
Definition aliceReturns : World :=
  set_players twoAlices
    (<[4%nat := mkPlayer "alice" "" (Some 5%nat) 9 false]> (players twoAlices)).

(** [l] holds no seat of any game. *)
Definition unseated (gs : gmap nat GameState) (l : loc) : Prop :=
  forall g game, gs !! g = Some game ->
    Player1 game <> Some l /\ Player2 game <> Some l.

(** The two seats of a game are two players, the first red, the second
    yellow. *)
Definition coloredSeats (ps : gmap nat Player) (game : GameState) : Prop :=
  exists l1 l2 x1 x2,
    Player1 game = Some l1 /\ Player2 game = Some l2 /\ l1 <> l2 /\
    ps !! l1 = Some x1 /\ ps !! l2 = Some x2 /\
    PlayerColor x1 = Red /\ PlayerColor x2 = Yellow.

(** The invariant on seats, stated on the two heaps and the queue: every
    game has colored seats, and who waits is a player without a seat. *)
Definition seatsInv (ps : gmap nat Player) (gs : gmap nat GameState)
           (q : list nat) : Prop :=
  (forall g game, gs !! g = Some game -> coloredSeats ps game) /\
  (forall l, l ∈ q -> is_Some (ps !! l) /\ unseated gs l) /\
  (length q <= 1)%nat.

Definition goodSeats (w : World) : Prop :=
  seatsInv (players w) (gameObjs w) (waitingPlayers w).

(** alice has joined and waits. *)
Definition aliceWaits : World :=
  default (NewGameServer false false)
          (run [join 1 "alice" [] "g1"] (NewGameServer false false)).

(** alice plays bob, drops, comes back on a new connection (player object 2)
    and drops again. *)
Definition aliceDropsTwice : World :=
  default (NewGameServer false false)
          (run [ join 1 "alice" [] "g1";
                 join 2 "bob" [] "g1";
                 handleDisconnect 0%nat 0%nat;
                 join 3 "alice" [("g1"%string, 0%nat)] "g2";
                 handleDisconnect 2%nat 0%nat ]
               (NewGameServer false false)).

(** ** What a step sends *)

(** What one seat receives: nothing when its connection is nil. *)
Definition notify (x : Player) (msg : Message) : list Event :=
  match Conn x with
  | Some c => [WriteJSON c msg]
  | None => []
  end.

(** The username stored as the winner of a game: the first seat for red, the
    second for yellow, none otherwise. *)
Definition winnerUsername (game : GameState) (x1 x2 : Player) : string :=
  if String.eqb (Winner game) "red" then Username x1
  else if String.eqb (Winner game) "yellow" then Username x2
  else ""%string.

(** The effects of a game that ends on a move, in the order in which they
    happen: the row for the database, the notice to each seat, the event for
    the analytics. *)
Definition gameOverEvents (w : World) (game : GameState) (x1 x2 : Player)
  : list Event :=
  (if db w then
     [DbInsert (ID game) (Username x1) (Username x2) (winnerUsername game x1 x2)
               (StartTime game) (EndTime game) (IsBot game)]
   else []) ++
  notify x1 (gameOverMessage (Board game) (Winner game)) ++
  notify x2 (gameOverMessage (Board game) (Winner game)) ++
  (if kafkaWriter w then [KafkaGameEnd (ID game) (Winner game) (IsBot game)]
   else []).

(** The effects of a move after which the game goes on. *)
Definition moveEvents (game : GameState) (x1 x2 : Player) : list Event :=
  notify x1 (moveMessage (Board game) (CurrentPlayer game)) ++
  notify x2 (moveMessage (Board game) (CurrentPlayer game)).

(** The step returns, appends [evs] to the trace and changes nothing else. *)
Definition emits (m : M unit) (w : World) (evs : list Event) : Prop :=
  m w = Some (tt, set_trace w (trace w ++ evs)).

(** What [createGame] sends: the game_start message to the first seat, to
    the second seat unless it is the bot, and the game_start event. *)
Definition gameStartEvents (w : World) (gameID : string) (x1 x2 : Player)
           (isBot : bool) : list Event :=
  notify x1 (gameStartMessage Red (Username x2) Red gameID) ++
  (if isBot then []
   else notify x2 (gameStartMessage Yellow (Username x1) Red gameID)) ++
  (if kafkaWriter w then [KafkaGameStart gameID (Username x1) (Username x2) isBot]
   else []).

(** The [GameState] literal of [createGame]. *)
Definition openedGame (gameID : string) (now : Z) (p1 p2 : loc) (isBot : bool)
  : GameState :=
  mkGameState gameID emptyBoard (Some p1) (Some p2) Red "" now None isBot.

(** The answer of the [/health] endpoint: the fields [active_games] and
    [waiting_players]; the other two fields are constants. *)
Definition healthCheck (w : World) : nat * nat :=
  (size (games w), length (waitingPlayers w)).

(** A full board without a line of four. *)
Definition fullBoard : Grid :=
  [[Red; Red; Yellow; Yellow; Red; Red; Yellow];
   [Yellow; Yellow; Red; Red; Yellow; Yellow; Red];
   [Red; Red; Yellow; Yellow; Red; Red; Yellow];
   [Yellow; Yellow; Red; Red; Yellow; Yellow; Red];
   [Red; Red; Yellow; Yellow; Red; Red; Yellow];
   [Yellow; Yellow; Red; Red; Yellow; Yellow; Red]].

(** The registry of [w'] has an entry under every id under which the
    registry of [w] has one. *)
Definition registryGrows (w w' : World) : Prop :=
  dom (games w) ⊆ dom (games w').

(** A game as [createGame] leaves it. *)
Definition freshGame (game : GameState) : Prop :=
  Board game = emptyBoard /\ CurrentPlayer game = Red /\
  Winner game = ""%string /\ EndTime game = None.

(** The game objects of [w] are in [w'] as they were, and every other game
    object of [w'] is a fresh game. *)
Definition opensGames (w w' : World) : Prop :=
  (forall g game, gameObjs w !! g = Some game -> gameObjs w' !! g = Some game) /\
  (forall g game', gameObjs w' !! g = Some game' ->
     gameObjs w !! g = Some game' \/ (gameObjs w !! g = None /\ freshGame game')).

(** Runs: any number of steps. *)
Definition steps : World -> World -> Prop := rtc step.

(** What identifies a game stays: id, seats, start time, bot flag. *)
Definition sameSession (game game' : GameState) : Prop :=
  ID game' = ID game /\ Player1 game' = Player1 game /\
  Player2 game' = Player2 game /\ StartTime game' = StartTime game /\
  IsBot game' = IsBot game.

(** Every disc of [b] is on [b'], where it was and of the color it had. *)
Definition keepsDiscs (b b' : Grid) : Prop :=
  forall r c x, cell b r c = Some x -> x <> Empty -> cell b' r c = Some x.

(** Every game of [w] is still there in [w'], the same session with the
    discs it had, and unchanged if it had a result. *)
Definition advances (w w' : World) : Prop :=
  forall g game, gameObjs w !! g = Some game ->
    exists game', gameObjs w' !! g = Some game' /\
      sameSession game game' /\ keepsDiscs (Board game) (Board game') /\
      (Winner game <> ""%string -> game' = game).

(** The values a game of a running server holds. *)
Definition soundGame (game : GameState) : Prop :=
  (forall r c x, cell (Board game) r c = Some x ->
     x = Empty \/ x = Red \/ x = Yellow) /\
  (Winner game = ""%string \/ Winner game = "red"%string \/
   Winner game = "yellow"%string \/ Winner game = "draw"%string) /\
  (EndTime game = None <-> Winner game = ""%string) /\
  (Winner game = ""%string -> isBoardFull game = false).

Definition soundGames (w : World) : Prop :=
  forall g game, gameObjs w !! g = Some game -> soundGame game.

(** The registry and the index point at game objects. *)
Definition registered (w : World) : Prop :=
  (forall id g, games w !! id = Some g -> is_Some (gameObjs w !! g)) /\
  (forall name g, playerGames w !! name = Some g -> is_Some (gameObjs w !! g)).

(** The player object that the join case of [HandleWebSocket] allocates. *)
Definition joiner (conn : nat) (username : string) (now : Z) : Player :=
  mkPlayer username "" (Some conn) now false.

(** ** The connection handler *)

(** The two variables that [HandleWebSocket] keeps across the rounds of its
    loop, [player] and [game]; both start as nil. *)
Record Handler := mkHandler {
  handlerPlayer : option loc;
  handlerGame : option loc
}.

(** What [conn.ReadJSON] gives to one round of the loop. *)
Inductive Incoming :=
| ReadError
| Received (msg : Message).

(** One round of the loop of [HandleWebSocket] on the connection [conn]: the
    handler's variables go in, and come out unless the loop is left.  [order],
    [gameID] and [now] are what the round gets from the runtime, as in
    [handleJoin].  The lookup in the index and the call of [handleMove] are
    taken as one step; [handleMove] reads the game anew under its own lock,
    so only the pointer is carried from the one to the other. *)
Definition HandleWebSocket (conn : nat) (order : list (string * loc))
           (gameID : string) (now : Z) (h : Handler) (i : Incoming)
  : M (option Handler) :=
  match i with
  | ReadError =>
      match handlerPlayer h, handlerGame h with
      | Some p, Some g => handleDisconnect p g;; ret None
      | _, _ => ret None
      end
  | Received msg =>
      if String.eqb (mType msg) "join" then
        r ← handleJoin conn (mUsername msg) order gameID now;
        ret (Some (mkHandler (Some (r : loc * option loc).1) r.2))
      else if String.eqb (mType msg) "move" then
        player ← getPlayer (handlerPlayer h);
        w ← getWorld;
        match playerGames w !! Username player with
        | None =>
            emit (WriteJSON conn (errorMessage "Game not found"));;
            ret (Some (mkHandler (handlerPlayer h) None))
        | Some g =>
            match handlerPlayer h with
            | None =>
                emit (WriteJSON conn (errorMessage "Player not found"));;
                ret (Some (mkHandler None (Some g)))
            | Some p =>
                handleMove now g p (mColumn msg);;
                ret (Some (mkHandler (Some p) (Some g)))
            end
        end
      else ret (Some h)
  end.

(** The messages a client sends. *)
Definition joinMessage (username : string) : Message :=
  mkMessage "join" username 0 [] "" "" "" "" "" "".
Definition clientMove (column : Z) : Message :=
  mkMessage "move" "" column [] "" "" "" "" "" "".

(** * Properties *)

(** ** Slices and grids *)

Lemma index_Some {A : Type} (s : list A) (i : Z) (x : A) :
  index s i = Some x <-> 0 <= i /\ s !! Z.to_nat i = Some x.
Proof.
  unfold index. destruct (Z.ltb_spec i 0); split.
  - discriminate.
  - intros [? _]. lia.
  - auto.
  - tauto.
Qed.

Lemma index_in_range {A : Type} (s : list A) (i : Z) :
  0 <= i < Z.of_nat (length s) -> exists x, index s i = Some x.
Proof.
  intros Hi. destruct (lookup_lt_is_Some_2 s (Z.to_nat i)) as [x Hx]; [lia|].
  exists x. apply index_Some. split; [lia|done].
Qed.

Lemma index_Some_range {A : Type} (s : list A) (i : Z) (x : A) :
  index s i = Some x -> 0 <= i < Z.of_nat (length s).
Proof.
  intros [H0 H]%index_Some. apply lookup_lt_Some in H. lia.
Qed.

Lemma wfGrid_row (b : Grid) (r : Z) (row : list string) :
  wfGrid b -> index b r = Some row -> length row = Z.to_nat COLS.
Proof.
  intros [_ Hall] [_ H]%index_Some.
  rewrite Forall_forall in Hall. apply Hall.
  apply list_elem_of_lookup. eauto.
Qed.

Lemma cell_inGrid (b : Grid) (r c : Z) :
  wfGrid b -> inGrid r c -> exists x, cell b r c = Some x.
Proof.
  intros Hwf [Hr Hc]. unfold cell.
  destruct (index_in_range b r) as [row Hrow].
  { destruct Hwf as [-> _]. unfold ROWS in *. lia. }
  rewrite Hrow. apply index_in_range.
  rewrite (wfGrid_row b r row Hwf Hrow). unfold COLS in *. lia.
Qed.

Lemma cell_Some_inGrid (b : Grid) (r c : Z) (x : string) :
  wfGrid b -> cell b r c = Some x -> inGrid r c.
Proof.
  intros Hwf H. unfold cell in H.
  destruct (index b r) as [row|] eqn:Hrow; [|discriminate].
  pose proof (wfGrid_row b r row Hwf Hrow) as Hlen.
  apply index_Some_range in Hrow, H.
  destruct Hwf as [Hl _]. rewrite Hl in Hrow. rewrite Hlen in H.
  unfold inGrid, ROWS, COLS in *. lia.
Qed.

Lemma outOfGrid_false (r c : Z) : outOfGrid r c = false <-> inGrid r c.
Proof. unfold outOfGrid, inGrid, ROWS, COLS. lia. Qed.

Lemma outOfGrid_true (r c : Z) : outOfGrid r c = true <-> ~ inGrid r c.
Proof. unfold outOfGrid, inGrid, ROWS, COLS. lia. Qed.

(** ** The run counter of [checkWinner] *)

Section CountRun.
Variable b : Grid.
Variable color : Color.
Variable pos : Z -> Z * Z.
Hypothesis Hwf : wfGrid b.

Let hit (i : Z) : Prop := holds b color (pos i).1 (pos i).2.

(** The loop adds to [count] the length [n] of the longest prefix of
    [idxs] whose cells all hold [color]. *)
Lemma countRun_prefix (idxs : list Z) (count : Z) :
  exists n : nat,
    countRun b color pos idxs count = Some (count + Z.of_nat n) /\
    (n <= length idxs)%nat /\
    (forall (k : nat) i, (k < n)%nat -> idxs !! k = Some i -> hit i) /\
    (forall i, idxs !! n = Some i -> ~ hit i).
Proof.
  revert count. induction idxs as [|i rest IH]; intros count; simpl.
  - exists 0%nat. split_and!; [f_equal; lia|lia|lia|done].
  - unfold hit in *. destruct (pos i) as [r c] eqn:Hpos.
    destruct (outOfGrid r c) eqn:Hout.
    + exists 0%nat. split_and!; [f_equal; lia|lia|lia|].
      intros i' [= <-] [Hin _]. rewrite Hpos in Hin.
      apply outOfGrid_true in Hout. done.
    + apply outOfGrid_false in Hout.
      destruct (cell_inGrid b r c Hwf Hout) as [x Hx]. rewrite Hx.
      destruct (String.eqb_spec x color) as [->|Hne]; simpl.
      * destruct (IH (count + 1)) as (n & Hn & Hle & Hall & Hstop).
        exists (S n). split_and!.
        -- rewrite Hn. f_equal. lia.
        -- lia.
        -- intros [|k] i' Hk; simpl.
           ++ intros [= <-]. rewrite Hpos. done.
           ++ apply Hall. lia.
        -- simpl. done.
      * exists 0%nat. split_and!; [f_equal; lia|lia|lia|].
        intros i' [= <-] [_ Hc]. rewrite Hpos in Hc. simpl in Hc. congruence.
Qed.
End CountRun.

Lemma upFrom_1_3_lookup (j : Z) :
  1 <= j <= 3 -> upFrom 1 3 !! Z.to_nat (j - 1) = Some j.
Proof.
  intros Hj. assert (j = 1 \/ j = 2 \/ j = 3) as [-> | [-> | ->]] by lia; reflexivity.
Qed.

Lemma upFrom_1_3_stop (n : nat) :
  (n < 3)%nat -> upFrom 1 3 !! n = Some (Z.of_nat n + 1).
Proof.
  intros Hn. destruct n as [|[|[|n]]]; try reflexivity. lia.
Qed.

(** ** [checkWinner] against the four axes *)

Section CheckWinner.
Variable b : Grid.
Variable color : Color.
Variables row col : Z.
Hypothesis Hwf : wfGrid b.
Hypothesis Hcell : holds b color row col.

(** One iteration of the loop over [directions]: both inner loops return,
    and the count they reach is at least four exactly when the axis has a
    run of four through the cell. *)
Lemma direction_count (dr dc : Z) :
  exists count1 count,
    countRun b color (fun i => (row + dr * i, col + dc * i)) (upFrom 1 3) 1
      = Some count1 /\
    countRun b color (fun i => (row - dr * i, col - dc * i)) (upFrom 1 3) count1
      = Some count /\
    (4 <= count <-> axisRun b color row col dr dc).
Proof.
  destruct (countRun_prefix b color (fun i => (row + dr * i, col + dc * i))
              Hwf (upFrom 1 3) 1) as (p & Hp & Hple & Hpall & Hpstop).
  destruct (countRun_prefix b color (fun i => (row - dr * i, col - dc * i))
              Hwf (upFrom 1 3) (1 + Z.of_nat p))
    as (n & Hn & Hnle & Hnall & Hnstop).
  simpl in Hple, Hnle, Hpall, Hpstop, Hnall, Hnstop.
  exists (1 + Z.of_nat p), (1 + Z.of_nat p + Z.of_nat n).
  split; [done|]. split; [done|]. split.
  - intros Hcount. exists (- Z.of_nat n), (Z.of_nat p).
    split; [lia|]. split; [lia|]. intros j Hj.
    destruct (Z.compare_spec j 0) as [->|Hneg|Hpos].
    + replace (row + dr * 0) with row by lia.
      replace (col + dc * 0) with col by lia. done.
    + specialize (Hnall (Z.to_nat (- j - 1)) (- j)).
      replace (row + dr * j) with (row - dr * - j) by lia.
      replace (col + dc * j) with (col - dc * - j) by lia.
      apply Hnall; [lia|]. apply upFrom_1_3_lookup. lia.
    + specialize (Hpall (Z.to_nat (j - 1)) j).
      apply Hpall; [lia|]. apply upFrom_1_3_lookup. lia.
  - intros (lo & hi & Hlohi & Hlen & Hall).
    destruct (Z.le_gt_cases 4 (1 + Z.of_nat p + Z.of_nat n)) as [|Hlt]; [done|].
    exfalso.
    assert (hi <= Z.of_nat p) as Hhi.
    { destruct (Z.le_gt_cases hi (Z.of_nat p)) as [|Hgt]; [done|]. exfalso.
      apply (Hpstop (Z.of_nat p + 1)); [apply upFrom_1_3_stop; lia|].
      apply Hall. lia. }
    assert (- lo <= Z.of_nat n) as Hlo.
    { destruct (Z.le_gt_cases (- lo) (Z.of_nat n)) as [|Hgt]; [done|]. exfalso.
      apply (Hnstop (Z.of_nat n + 1)); [apply upFrom_1_3_stop; lia|].
      simpl.
      replace (row - dr * (Z.of_nat n + 1))
        with (row + dr * (- (Z.of_nat n + 1))) by lia.
      replace (col - dc * (Z.of_nat n + 1))
        with (col + dc * (- (Z.of_nat n + 1))) by lia.
      apply Hall. lia. }
    lia.
Qed.

Lemma checkDirections_axes :
  exists w, checkDirections b color row col directions = Some w /\
            (w = true <-> fourInLine b color row col).
Proof.
  unfold directions, fourInLine. cbn [checkDirections].
  destruct (direction_count 0 1) as (c1 & c1' & -> & -> & A1).
  destruct (Z.geb_spec c1' 4).
  { exists true. split; [done|]. split; [|done]. intros _. left. tauto. }
  destruct (direction_count 1 0) as (c2 & c2' & -> & -> & A2).
  destruct (Z.geb_spec c2' 4).
  { exists true. split; [done|]. split; [|done]. intros _. right; left. tauto. }
  destruct (direction_count 1 1) as (c3 & c3' & -> & -> & A3).
  destruct (Z.geb_spec c3' 4).
  { exists true. split; [done|]. split; [|done]. intros _.
    right; right; left. tauto. }
  destruct (direction_count 1 (-1)) as (c4 & c4' & -> & -> & A4).
  destruct (Z.geb_spec c4' 4).
  { exists true. split; [done|]. split; [|done]. intros _.
    right; right; right. tauto. }
  exists false. split; [done|]. split; [done|].
  intros [X|[X|[X|X]]];
    [apply A1 in X|apply A2 in X|apply A3 in X|apply A4 in X]; lia.
Qed.
End CheckWinner.

(** [checkWinner] on a cell that holds a disc. *)
Lemma checkWinner_axes (game : GameState) (row col : Z) (color : Color) :
  wfGrid (Board game) ->
  cell (Board game) row col = Some color ->
  color <> Empty ->
  exists w, checkWinner game row col = Some w /\
            (w = true <-> fourInLine (Board game) color row col).
Proof.
  intros Hwf Hcell Hne. unfold checkWinner. rewrite Hcell.
  destruct (String.eqb_spec color Empty) as [|_]; [done|].
  apply checkDirections_axes; [done|].
  split; [|done]. by eapply cell_Some_inGrid.
Qed.

(** ** Writing a cell *)

Lemma setCell_Some (b : Grid) (r c : Z) (v : string) (b' : Grid) :
  setCell b r c v = Some b' ->
  exists row x, index b r = Some row /\ index row c = Some x /\
                b' = <[Z.to_nat r := <[Z.to_nat c := v]> row]> b.
Proof.
  unfold setCell. intros H.
  destruct (index b r) as [row|] eqn:Hrow; [|discriminate].
  destruct (index row c) as [x|] eqn:Hx; [|discriminate].
  injection H as <-. eauto.
Qed.

Lemma setCell_total (b : Grid) (r c : Z) (x v : string) :
  cell b r c = Some x -> exists b', setCell b r c v = Some b'.
Proof.
  unfold cell, setCell. destruct (index b r) as [row|]; [|discriminate].
  intros ->. eauto.
Qed.

Lemma cell_setCell_eq (b : Grid) (r c : Z) (v : string) (b' : Grid) :
  setCell b r c v = Some b' -> cell b' r c = Some v.
Proof.
  intros (row & x & Hrow & Hx & ->)%setCell_Some.
  apply index_Some in Hrow as [Hr Hrow]. apply index_Some in Hx as [Hc Hx].
  unfold cell.
  assert (index (<[Z.to_nat r := <[Z.to_nat c := v]> row]> b) r
          = Some (<[Z.to_nat c := v]> row)) as ->.
  { apply index_Some. split; [done|]. apply list_lookup_insert_eq.
    by eapply lookup_lt_Some. }
  apply index_Some. split; [done|]. apply list_lookup_insert_eq.
  by eapply lookup_lt_Some.
Qed.

Lemma cell_setCell_ne (b : Grid) (r c : Z) (v : string) (b' : Grid) (r' c' : Z) :
  setCell b r c v = Some b' -> r' <> r \/ c' <> c -> cell b' r' c' = cell b r' c'.
Proof.
  intros (row & x & Hrow & Hx & ->)%setCell_Some Hne.
  apply index_Some in Hrow as [Hr Hrow]. apply index_Some in Hx as [Hc Hx].
  unfold cell, index.
  destruct (Z.ltb_spec r' 0); [done|].
  destruct (decide (r' = r)) as [->|Hr'].
  - rewrite list_lookup_insert_eq by (by eapply lookup_lt_Some). rewrite Hrow.
    destruct (Z.ltb_spec c' 0); [done|].
    apply list_lookup_insert_ne. lia.
  - rewrite list_lookup_insert_ne by lia. done.
Qed.

Lemma setCell_wfGrid (b : Grid) (r c : Z) (v : string) (b' : Grid) :
  wfGrid b -> setCell b r c v = Some b' -> wfGrid b'.
Proof.
  intros [Hlen Hall] (row & x & Hrow & Hx & ->)%setCell_Some.
  apply index_Some in Hrow as [Hr Hrow].
  split; [by rewrite length_insert|].
  apply Forall_insert; [done|]. rewrite length_insert.
  rewrite Forall_forall in Hall. apply Hall. by eapply list_elem_of_lookup_2.
Qed.

(** Writing back what the cell held gives the board back. *)
Lemma setCell_undo (b : Grid) (r c : Z) (x v : string) (b1 : Grid) :
  cell b r c = Some x -> setCell b r c v = Some b1 -> setCell b1 r c x = Some b.
Proof.
  intros Hcell H. pose proof (cell_setCell_eq _ _ _ _ _ H) as Hnew.
  apply setCell_Some in H as (row & y & Hrow & Hy & ->).
  unfold cell in Hcell. rewrite Hrow in Hcell.
  apply index_Some in Hrow as [Hr Hrow]. apply index_Some in Hcell as [Hc Hcell].
  unfold setCell.
  assert (index (<[Z.to_nat r := <[Z.to_nat c := v]> row]> b) r
          = Some (<[Z.to_nat c := v]> row)) as ->.
  { apply index_Some. split; [done|]. apply list_lookup_insert_eq.
    by eapply lookup_lt_Some. }
  assert (index (<[Z.to_nat c := v]> row) c = Some v) as ->.
  { apply index_Some. split; [done|]. apply list_lookup_insert_eq.
    by eapply lookup_lt_Some. }
  f_equal. rewrite list_insert_insert_eq, list_insert_insert_eq.
  rewrite (list_insert_id row) by done. by apply list_insert_id.
Qed.

Lemma set_Board_id (game : GameState) : set_Board game (Board game) = game.
Proof. by destruct game. Qed.

Lemma set_Board_twice (game : GameState) (b1 b2 : Grid) :
  set_Board (set_Board game b1) b2 = set_Board game b2.
Proof. done. Qed.

(** ** The bottom-up row search *)

(** What the loop returns, when it returns: [-1] on a column whose [n]
    lowest-indexed rows are all filled, else the empty cell of greatest row
    index below [n]. *)
Lemma searchRow_downFrom (b : Grid) (col : Z) (n : nat) (r : Z) :
  searchRow b col (downFrom n) = Some r ->
  (r = -1 /\ forall r', 0 <= r' < Z.of_nat n -> filled b r' col) \/
  (0 <= r < Z.of_nat n /\ cell b r col = Some Empty /\
   forall r', r < r' < Z.of_nat n -> filled b r' col).
Proof.
  induction n as [|n IH]; simpl.
  - intros [= <-]. left. split; [done|]. lia.
  - destruct (cell b (Z.of_nat n) col) as [x|] eqn:Hx; [|discriminate].
    destruct (String.eqb_spec x Empty) as [->|Hne].
    + intros [= <-]. right. split; [lia|]. split; [done|]. lia.
    + intros [[-> Hall]|(Hr & Hcell & Hall)]%IH.
      * left. split; [done|]. intros r' Hr'.
        destruct (decide (r' = Z.of_nat n)) as [->|]; [by exists x|].
        apply Hall. lia.
      * right. split; [lia|]. split; [done|]. intros r' Hr'.
        destruct (decide (r' = Z.of_nat n)) as [->|]; [by exists x|].
        apply Hall. lia.
Qed.

Lemma searchRow_total (b : Grid) (col : Z) (n : nat) :
  (forall r, 0 <= r < Z.of_nat n -> is_Some (cell b r col)) ->
  is_Some (searchRow b col (downFrom n)).
Proof.
  induction n as [|n IH]; simpl; intros Hall; [done|].
  destruct (Hall (Z.of_nat n)) as [x ->]; [lia|].
  destruct (String.eqb x Empty); [done|]. apply IH. intros r Hr. apply Hall. lia.
Qed.

Lemma lowestEmptyRow_spec (b : Grid) (col r : Z) :
  lowestEmptyRow b col = Some r ->
  (r = -1 /\ forall r', 0 <= r' < ROWS -> filled b r' col) \/
  (0 <= r < ROWS /\ cell b r col = Some Empty /\
   forall r', r < r' < ROWS -> filled b r' col).
Proof. apply searchRow_downFrom. Qed.

Lemma lowestEmptyRow_total (b : Grid) (col : Z) :
  wfGrid b -> 0 <= col < COLS -> exists r, lowestEmptyRow b col = Some r.
Proof.
  intros Hwf Hcol. apply searchRow_total. intros r Hr.
  destruct (cell_inGrid b r col Hwf) as [x ->]; [|done].
  unfold inGrid, ROWS in *. simpl in Hr. lia.
Qed.

(** ** [canWin] rolls its placement back *)

Lemma canWin_same_game (game : GameState) (col : Z) (color : Color)
      (w : bool) (game' : GameState) :
  canWin game col color = Some (w, game') -> game' = game.
Proof.
  unfold canWin.
  destruct (lowestEmptyRow (Board game) col) as [row|] eqn:Hrow; [|discriminate].
  destruct (Z.eqb_spec row (-1)) as [|Hne]; [by intros [= _ <-]|].
  apply lowestEmptyRow_spec in Hrow as [[-> _]|(_ & Hcell & _)]; [done|].
  destruct (setCell (Board game) row col color) as [b1|] eqn:Hb1; [|discriminate].
  destruct (checkWinner _ row col) as [wins|]; [|discriminate].
  simpl. rewrite (setCell_undo _ _ _ _ _ _ Hcell Hb1).
  intros [= _ <-]. rewrite set_Board_twice. apply set_Board_id.
Qed.

Lemma checkWinner_total (game : GameState) (row col : Z) :
  wfGrid (Board game) -> inGrid row col -> is_Some (checkWinner game row col).
Proof.
  intros Hwf Hin. destruct (cell_inGrid _ _ _ Hwf Hin) as [x Hx].
  destruct (decide (x = Empty)) as [->|Hne].
  - unfold checkWinner. rewrite Hx. done.
  - destruct (checkWinner_axes game row col x Hwf Hx Hne)
      as (w & -> & _). done.
Qed.

Lemma lowestEmpty_unique (b : Grid) (col row1 row2 : Z) :
  lowestEmpty b col row1 -> lowestEmpty b col row2 -> row1 = row2.
Proof.
  intros (Hr1 & Hc1 & Hb1) (Hr2 & Hc2 & Hb2).
  destruct (Z.lt_trichotomy row1 row2) as [Hlt|[->|Hgt]]; [|done|].
  - destruct (Hb1 row2) as (x & Hx & Hne); [lia|]. congruence.
  - destruct (Hb2 row1) as (x & Hx & Hne); [lia|]. congruence.
Qed.

(** On a 6x7 board and a column of the board, [canWin] returns, hands the
    game back as it got it, and answers whether the disc would win. *)
Lemma canWin_spec (game : GameState) (col : Z) (color : Color) :
  wfGrid (Board game) -> 0 <= col < COLS -> color <> Empty ->
  exists w, canWin game col color = Some (w, game) /\
            (w = true <-> wouldWin (Board game) color col).
Proof.
  intros Hwf Hcol Hcolor.
  destruct (lowestEmptyRow_total _ col Hwf Hcol) as [row Hrow].
  assert (exists w game', canWin game col color = Some (w, game') /\
            (w = true <-> wouldWin (Board game) color col))
    as (w & game' & Hcan & Hw).
  { unfold canWin. rewrite Hrow.
    apply lowestEmptyRow_spec in Hrow as [[-> Hall]|Hlow].
    - exists false, game. split; [done|]. split; [done|].
      intros (row & b' & (Hr & Hc & _) & _). exfalso.
      destruct (Hall row Hr) as (x & Hx & Hne). congruence.
    - destruct (Z.eqb_spec row (-1)) as [->|_].
      { destruct Hlow as [Hr _]. lia. }
      pose proof Hlow as (Hr & Hc & _).
      destruct (setCell_total _ _ _ _ color Hc) as [b1 Hb1]. rewrite Hb1.
      pose proof (setCell_wfGrid _ _ _ _ _ Hwf Hb1) as Hwf1.
      pose proof (cell_setCell_eq _ _ _ _ _ Hb1) as Hc1.
      destruct (checkWinner_axes (set_Board game b1) row col color Hwf1 Hc1 Hcolor)
        as (w & -> & Hw).
      simpl. rewrite (setCell_undo _ _ _ _ _ _ Hc Hb1).
      exists w, (set_Board (set_Board game b1) (Board game)).
      split; [done|]. rewrite Hw. simpl. split.
      + intros Hfour. by exists row, b1.
      + intros (row' & b' & Hlow' & Hb' & Hfour).
        assert (row' = row) as -> by (by eapply lowestEmpty_unique).
        congruence. }
  exists w. split; [|done]. rewrite Hcan.
  by rewrite (canWin_same_game _ _ _ _ _ Hcan).
Qed.

Lemma firstWinning_same_game (game : GameState) (color : Color) (cols : list Z)
      (r : option Z) (game' : GameState) :
  firstWinning game color cols = Some (r, game') -> game' = game.
Proof.
  revert game. induction cols as [|col rest IH]; simpl; intros game.
  - by intros [= _ <-].
  - destruct (canWin game col color) as [[[] game1]|] eqn:Hcan; [| |discriminate].
    + intros [= _ <-]. by eapply canWin_same_game.
    + intros ->%IH. by eapply canWin_same_game.
Qed.

Lemma firstWinning_spec (game : GameState) (color : Color) (cols : list Z) :
  wfGrid (Board game) -> color <> Empty ->
  (forall c, c ∈ cols -> 0 <= c < COLS) ->
  exists r, firstWinning game color cols = Some (r, game) /\
    match r with
    | Some c => firstIn (wouldWin (Board game) color) cols c
    | None => noneIn (wouldWin (Board game) color) cols
    end.
Proof.
  intros Hwf Hcolor. induction cols as [|col rest IH]; simpl; intros Hcols.
  - exists None. split; [done|]. intros c Hc. by apply elem_of_nil in Hc.
  - destruct (canWin_spec game col color Hwf) as (w & -> & Hw);
      [apply Hcols; left|done|].
    destruct w.
    + exists (Some col). split; [done|]. exists 0%nat.
      split; [done|]. split; [by apply Hw|]. lia.
    + destruct IH as (r & -> & Hr); [intros c Hc; apply Hcols; by right|].
      exists r. split; [done|].
      assert (~ wouldWin (Board game) color col) as Hno.
      { intros H%Hw. done. }
      destruct r as [c|].
      * destruct Hr as (k & Hk & Hc & Hbefore). exists (S k).
        split; [done|]. split; [done|].
        intros [|j] c' Hj; simpl; [by intros [= <-]|].
        apply Hbefore. lia.
      * intros c [->|Hc]%elem_of_cons; [done|]. by apply Hr.
Qed.

Lemma isColumnAvailable_spec (game : GameState) (col : Z) :
  wfGrid (Board game) ->
  exists a, isColumnAvailable game col = Some a /\
            (a = true <-> hasRoom (Board game) col).
Proof.
  intros Hwf. unfold isColumnAvailable, hasRoom.
  destruct ((col >=? 0) && (col <? COLS)) eqn:Hrange.
  - destruct (cell_inGrid (Board game) 0 col Hwf) as [x ->].
    { unfold inGrid, ROWS, COLS in *. lia. }
    exists (String.eqb x Empty). split; [done|].
    destruct (String.eqb_spec x Empty); split; congruence.
  - exists false. split; [done|]. split; [done|].
    intros H%cell_Some_inGrid; [|done].
    unfold inGrid, ROWS, COLS in *. lia.
Qed.

Lemma firstAvailable_spec (game : GameState) (cols : list Z) :
  wfGrid (Board game) ->
  exists r, firstAvailable game cols = Some r /\
    match r with
    | Some c => firstIn (hasRoom (Board game)) cols c
    | None => noneIn (hasRoom (Board game)) cols
    end.
Proof.
  intros Hwf. induction cols as [|col rest IH]; simpl.
  - exists None. split; [done|]. intros c Hc. by apply elem_of_nil in Hc.
  - destruct (isColumnAvailable_spec game col Hwf) as (a & -> & Ha).
    destruct a.
    + exists (Some col). split; [done|]. exists 0%nat.
      split; [done|]. split; [by apply Ha|]. lia.
    + destruct IH as (r & -> & Hr). exists r. split; [done|].
      assert (~ hasRoom (Board game) col) as Hno.
      { intros H%Ha. done. }
      destruct r as [c|].
      * destruct Hr as (k & Hk & Hc & Hbefore). exists (S k).
        split; [done|]. split; [done|].
        intros [|j] c' Hj; simpl; [by intros [= <-]|].
        apply Hbefore. lia.
      * intros c [->|Hc]%elem_of_cons; [done|]. by apply Hr.
Qed.

Lemma elem_of_columns (c : Z) :
  c ∈ upFrom 0 (Z.to_nat COLS) <-> 0 <= c < COLS.
Proof.
  unfold upFrom. rewrite list_elem_of_In, in_map_iff. split.
  - intros (k & <- & Hk%in_seq). unfold COLS in *. lia.
  - intros Hc. exists (Z.to_nat c). split; [lia|]. apply in_seq.
    unfold COLS in *. lia.
Qed.

(** ** [getBotMove] *)

Lemma getBotMove_spec (game : GameState) :
  wfGrid (Board game) ->
  exists c, getBotMove game = Some (c, game) /\
            botChoice (Board game) Yellow Red c.
Proof.
  intros Hwf. unfold getBotMove, botChoice.
  destruct (firstWinning_spec game Yellow (upFrom 0 (Z.to_nat COLS)) Hwf)
    as (r1 & -> & Hr1); [done|by intros c ?%elem_of_columns|].
  destruct r1 as [c|]; [exists c; split; [done|by left]|].
  destruct (firstWinning_spec game Red (upFrom 0 (Z.to_nat COLS)) Hwf)
    as (r2 & -> & Hr2); [done|by intros c ?%elem_of_columns|].
  destruct r2 as [c|]; [exists c; split; [done|right; split; [done|by left]]|].
  destruct (isColumnAvailable_spec game 3 Hwf) as (a & -> & Ha).
  destruct a.
  { exists 3. split; [done|]. right. split; [done|]. right. split; [done|].
    left. split; [by apply Ha|done]. }
  assert (~ hasRoom (Board game) 3) as Hno3 by (by intros H%Ha).
  destruct (firstAvailable_spec game [2; 4; 1; 5; 0; 6] Hwf) as (r3 & -> & Hr3).
  destruct r3 as [c|].
  - exists c. split; [done|]. right. split; [done|]. right. split; [done|].
    right. split; [done|]. by left.
  - exists (-1). split; [done|]. right. split; [done|]. right. split; [done|].
    right. split; [done|]. by right.
Qed.

Lemma firstIn_elem (P : Z -> Prop) (cols : list Z) (c : Z) :
  firstIn P cols c -> c ∈ cols /\ P c.
Proof.
  intros (k & Hk & Hc & _). split; [|done]. by eapply list_elem_of_lookup_2.
Qed.

Lemma firstIn_unique (P : Z -> Prop) (cols : list Z) (c1 c2 : Z) :
  firstIn P cols c1 -> firstIn P cols c2 -> c1 = c2.
Proof.
  intros (k1 & Hk1 & Hc1 & Hb1) (k2 & Hk2 & Hc2 & Hb2).
  destruct (Nat.lt_trichotomy k1 k2) as [Hlt|[->|Hgt]].
  - exfalso. by eapply Hb2.
  - congruence.
  - exfalso. by eapply Hb1.
Qed.

Lemma firstIn_noneIn (P : Z -> Prop) (cols : list Z) (c : Z) :
  firstIn P cols c -> noneIn P cols -> False.
Proof. intros [Hin Hc]%firstIn_elem Hnone. by eapply Hnone. Qed.

(** The decision order names one column at most. *)
Lemma botChoice_functional (b : Grid) (own opponent : Color) (c1 c2 : Z) :
  botChoice b own opponent c1 -> botChoice b own opponent c2 -> c1 = c2.
Proof.
  unfold botChoice.
  intros [H1|[N1 [H1|[M1 [[R1 ->]|[R1 [H1|[K1 ->]]]]]]]]
         [H2|[N2 [H2|[M2 [[R2 ->]|[R2 [H2|[K2 ->]]]]]]]];
    try done;
    try (by eapply firstIn_unique);
    exfalso; eauto using firstIn_noneIn.
Qed.

Lemma elem_of_preferences (c : Z) :
  c ∈ [2; 4; 1; 5; 0; 6] -> 0 <= c < COLS.
Proof. rewrite !elem_of_cons, elem_of_nil. unfold COLS. lia. Qed.

Lemma botChoice_cases (b : Grid) (own opponent : Color) (c : Z) :
  botChoice b own opponent c ->
  (c = -1 /\ forall col, 0 <= col < COLS -> ~ hasRoom b col) \/
  (0 <= c < COLS /\ (wouldWin b own c \/ wouldWin b opponent c \/ hasRoom b c)).
Proof.
  unfold botChoice.
  intros [H|[_ [H|[_ [[H ->]|[H3 [H|[Hnone ->]]]]]]]].
  - apply firstIn_elem in H as [Hc%elem_of_columns H]. right. tauto.
  - apply firstIn_elem in H as [Hc%elem_of_columns H]. right. tauto.
  - right. unfold COLS. split; [lia|tauto].
  - apply firstIn_elem in H as [Hc%elem_of_preferences H]. right. tauto.
  - left. split; [done|]. intros col Hcol.
    destruct (decide (col = 3)) as [->|Hne]; [done|].
    apply Hnone. rewrite !elem_of_cons. unfold COLS in *. lia.
Qed.

(** ** Columns with an empty cell *)

Lemma lowestEmptyRow_found (b : Grid) (col r : Z) :
  wfGrid b -> 0 <= col < COLS -> 0 <= r < ROWS -> cell b r col = Some Empty ->
  exists row, lowestEmptyRow b col = Some row /\ lowestEmpty b col row.
Proof.
  intros Hwf Hcol Hr Hcell.
  destruct (lowestEmptyRow_total b col Hwf Hcol) as [row Hrow].
  exists row. split; [done|].
  apply lowestEmptyRow_spec in Hrow as [[-> Hall]|Hlow]; [|done].
  exfalso. destruct (Hall r Hr) as (x & Hx & Hne). congruence.
Qed.

Lemma lowestEmpty_lowestEmptyRow (b : Grid) (col row : Z) :
  wfGrid b -> lowestEmpty b col row -> lowestEmptyRow b col = Some row.
Proof.
  intros Hwf Hlow. pose proof Hlow as (Hr & Hc & _).
  pose proof (cell_Some_inGrid _ _ _ _ Hwf Hc) as [_ Hcol].
  destruct (lowestEmptyRow_found b col row Hwf Hcol Hr Hc) as (row' & -> & Hlow').
  f_equal. by eapply lowestEmpty_unique.
Qed.

Lemma hasRoom_lowestEmpty (b : Grid) (col : Z) :
  wfGrid b -> hasRoom b col -> exists row, lowestEmpty b col row.
Proof.
  intros Hwf Hroom. pose proof (cell_Some_inGrid _ _ _ _ Hwf Hroom) as [Hr Hcol].
  destruct (lowestEmptyRow_found b col 0 Hwf Hcol Hr Hroom) as (row & _ & Hlow).
  eauto.
Qed.

(** Under gravity a column with an empty cell has an empty top cell. *)
Lemma gravity_hasRoom (b : Grid) (col row : Z) :
  wfGrid b -> gravity b -> lowestEmpty b col row -> hasRoom b col.
Proof.
  intros Hwf Hgrav (Hr & Hc & _). unfold hasRoom.
  pose proof (cell_Some_inGrid _ _ _ _ Hwf Hc) as [_ Hcol].
  destruct (cell_inGrid b 0 col Hwf) as [x Hx]; [unfold inGrid, ROWS; lia|].
  destruct (decide (x = Empty)) as [->|Hne]; [done|]. exfalso.
  destruct (decide (row = 0)) as [->|Hrow]; [congruence|].
  destruct (Hgrav 0 col) with (r' := row) as (y & Hy & Hney);
    [by exists x|lia|congruence].
Qed.

Lemma not_hasRoom_filled (b : Grid) (col : Z) :
  wfGrid b -> 0 <= col < COLS -> ~ hasRoom b col -> filled b 0 col.
Proof.
  intros Hwf Hcol Hno.
  destruct (cell_inGrid b 0 col Hwf) as [x Hx]; [unfold inGrid, ROWS; lia|].
  exists x. split; [done|]. intros ->. done.
Qed.

(** Under gravity a board whose top row is occupied has no empty cell. *)
Lemma gravity_top_filled (b : Grid) :
  wfGrid b -> gravity b ->
  (forall col, 0 <= col < COLS -> filled b 0 col) -> boardFull b.
Proof.
  intros Hwf Hgrav Htop r c [Hr Hc].
  destruct (decide (r = 0)) as [->|Hne]; [by apply Htop|].
  apply (Hgrav 0 c); [by apply Htop|lia].
Qed.

(** ** Steps that only talk to the outside *)

Lemma set_trace_id (w : World) : set_trace w (trace w ++ []) = w.
Proof. rewrite app_nil_r. by destruct w. Qed.

Lemma set_trace_twice (w : World) (e1 e2 : list Event) :
  set_trace (set_trace w (trace w ++ e1)) (trace (set_trace w (trace w ++ e1)) ++ e2)
  = set_trace w (trace w ++ (e1 ++ e2)).
Proof. simpl. by rewrite app_assoc. Qed.

Lemma effectOnly_ret (w : World) : effectOnly (ret tt) w.
Proof. exists []. unfold ret. by rewrite set_trace_id. Qed.

Lemma effectOnly_emit (e : Event) (w : World) : effectOnly (emit e) w.
Proof. by exists [e]. Qed.

Lemma effectOnly_sendIfConn (conn : option nat) (msg : Message) (w : World) :
  effectOnly (sendIfConn conn msg) w.
Proof. destruct conn; [apply effectOnly_emit|apply effectOnly_ret]. Qed.

Lemma effectOnly_seq (m1 m2 : M unit) (w : World) :
  effectOnly m1 w ->
  (forall evs, effectOnly m2 (set_trace w (trace w ++ evs))) ->
  effectOnly (m1;; m2) w.
Proof.
  intros [e1 H1] H2. destruct (H2 e1) as [e2 H2'].
  exists (e1 ++ e2). unfold mbind, M_bind, bind. rewrite H1, H2'.
  by rewrite set_trace_twice.
Qed.

Lemma seated_set_trace (w : World) (g : loc) (t : list Event) :
  seated w g -> seated (set_trace w t) g.
Proof. done. Qed.

Lemma effectOnly_sendKafkaGameEnd (game : GameState) (w : World) :
  effectOnly (sendKafkaGameEnd game) w.
Proof.
  unfold sendKafkaGameEnd, mbind, M_bind, bind, getWorld. unfold effectOnly.
  destruct (kafkaWriter w); [apply effectOnly_emit|apply effectOnly_ret].
Qed.

Lemma effectOnly_saveGame (w : World) (g : loc) :
  seated w g -> effectOnly (saveGame g) w.
Proof.
  intros (game & l1 & l2 & x1 & x2 & Hg & H1 & Hx1 & H2 & Hx2).
  unfold saveGame, effectOnly, mbind, M_bind, bind, getWorld, getGame, getPlayer.
  destruct (db w); simpl; [|apply effectOnly_ret].
  rewrite Hg, H1, Hx1, H2, Hx2. apply effectOnly_emit.
Qed.

Lemma effectOnly_broadcastMove (w : World) (g : loc) :
  seated w g -> effectOnly (broadcastMove g) w.
Proof.
  intros (game & l1 & l2 & x1 & x2 & Hg & H1 & Hx1 & H2 & Hx2).
  unfold broadcastMove, effectOnly, mbind, M_bind, bind, getGame, getPlayer.
  rewrite Hg, H1, Hx1.
  destruct (effectOnly_sendIfConn (Conn x1)
              (moveMessage (Board game) (CurrentPlayer game)) w) as [e1 ->].
  rewrite H2. simpl. rewrite Hx2.
  destruct (effectOnly_sendIfConn (Conn x2)
              (moveMessage (Board game) (CurrentPlayer game))
              (set_trace w (trace w ++ e1))) as [e2 ->].
  exists (e1 ++ e2). by rewrite set_trace_twice.
Qed.

Lemma effectOnly_broadcastGameOver (w : World) (g : loc) :
  seated w g -> effectOnly (broadcastGameOver g) w.
Proof.
  intros (game & l1 & l2 & x1 & x2 & Hg & H1 & Hx1 & H2 & Hx2).
  unfold broadcastGameOver, effectOnly, mbind, M_bind, bind, getGame, getPlayer.
  rewrite Hg, H1, Hx1.
  destruct (effectOnly_sendIfConn (Conn x1)
              (gameOverMessage (Board game) (Winner game)) w) as [e1 ->].
  rewrite H2. simpl. rewrite Hx2.
  destruct (effectOnly_sendIfConn (Conn x2)
              (gameOverMessage (Board game) (Winner game))
              (set_trace w (trace w ++ e1))) as [e2 ->].
  rewrite set_trace_twice.
  destruct (effectOnly_sendKafkaGameEnd game (set_trace w (trace w ++ (e1 ++ e2))))
    as [e3 ->].
  exists ((e1 ++ e2) ++ e3). simpl. by rewrite <- !app_assoc.
Qed.

(** ** [handleMove] *)

Lemma seated_insert (w : World) (g : loc) (game game' : GameState) :
  seated w g -> gameObjs w !! g = Some game ->
  Player1 game' = Player1 game -> Player2 game' = Player2 game ->
  seated (set_gameObjs w (<[g := game']> (gameObjs w))) g.
Proof.
  intros (game0 & l1 & l2 & x1 & x2 & Hg & H1 & Hx1 & H2 & Hx2) Hg' E1 E2.
  assert (game0 = game) as -> by congruence.
  exists game', l1, l2, x1, x2. simpl. rewrite lookup_insert_eq.
  split_and!; congruence.
Qed.

Section HandleMove.
Variables (now : Z) (w : World) (g p : loc) (col : Z).
Variables (game : GameState) (player : Player).
Hypothesis Hg : gameObjs w !! g = Some game.
Hypothesis Hp : players w !! p = Some player.

Ltac start :=
  unfold handleMove, mbind, M_bind, bind, getGame, getPlayer;
  rewrite Hg, Hp.

Lemma handleMove_finished :
  Winner game <> ""%string -> handleMove now g p col w = Some (tt, w).
Proof.
  intros Hw. start.
  destruct (String.eqb_spec (Winner game) ""); [done|]. done.
Qed.

Lemma handleMove_not_your_turn :
  Winner game = ""%string -> PlayerColor player <> CurrentPlayer game ->
  handleMove now g p col w
  = sendIfConn (Conn player) (errorMessage "Not your turn") w.
Proof.
  intros Hw Hturn. start. rewrite Hw. simpl.
  destruct (String.eqb_spec (PlayerColor player) (CurrentPlayer game)); done.
Qed.

Lemma handleMove_invalid_column :
  Winner game = ""%string -> PlayerColor player = CurrentPlayer game ->
  ~ 0 <= col < COLS ->
  handleMove now g p col w = Some (tt, w).
Proof.
  intros Hw Hturn Hcol. start. rewrite Hw, Hturn, !String.eqb_refl. simpl.
  destruct ((col <? 0) || (col >=? COLS)) eqn:E; [done|].
  unfold COLS in *. lia.
Qed.

Lemma handleMove_column_full :
  Winner game = ""%string -> PlayerColor player = CurrentPlayer game ->
  0 <= col < COLS -> lowestEmptyRow (Board game) col = Some (-1) ->
  handleMove now g p col w
  = sendIfConn (Conn player) (errorMessage "Column is full") w.
Proof.
  intros Hw Hturn Hcol Hrow. start. rewrite Hw, Hturn, !String.eqb_refl. simpl.
  destruct ((col <? 0) || (col >=? COLS)) eqn:E; [unfold COLS in *; lia|].
  unfold lift. rewrite Hrow. done.
Qed.

Lemma handleMove_accepted (row : Z) (b1 : Grid) (wins : bool) :
  seated w g ->
  Winner game = ""%string -> PlayerColor player = CurrentPlayer game ->
  0 <= col < COLS ->
  lowestEmptyRow (Board game) col = Some row -> row <> -1 ->
  setCell (Board game) row col (PlayerColor player) = Some b1 ->
  checkWinner (set_Board game b1) row col = Some wins ->
  exists w', handleMove now g p col w = Some (tt, w') /\
    updatesGame w g (afterMove game (PlayerColor player) now b1 wins) w'.
Proof.
  intros Hseat Hw Hturn Hcol Hrow Hrow1 Hb1 Hwins. start.
  rewrite Hw, Hturn, !String.eqb_refl. simpl.
  destruct ((col <? 0) || (col >=? COLS)) eqn:E; [unfold COLS in *; lia|].
  unfold lift. rewrite Hrow.
  destruct (Z.eqb_spec row (-1)); [done|].
  rewrite Hturn in Hb1. rewrite Hb1, Hwins.
  unfold afterMove, updatesGame.
  set (game1 := set_Board game b1).
  set (w1 := set_gameObjs w (<[g := game1]> (gameObjs w))).
  assert (seated w1 g) as Hseat1 by (by eapply seated_insert).
  assert (forall x, set_gameObjs w1 (<[g := x]> (gameObjs w1))
                    = set_gameObjs w (<[g := x]> (gameObjs w))) as Hins.
  { intros x. unfold w1, set_gameObjs. simpl. by rewrite insert_insert_eq. }
  assert (gameObjs w1 !! g = Some game1) as Hg1 by apply lookup_insert_eq.
  fold game1. fold w1.
  destruct wins; [|destruct (isBoardFull game1)].
  - rewrite Hins.
    set (w2 := set_gameObjs w _).
    assert (seated w2 g) as Hseat2 by (by eapply seated_insert).
    destruct (effectOnly_seq (saveGame g) (broadcastGameOver g) w2) as [evs Hevs].
    { by apply effectOnly_saveGame. }
    { intros evs. by apply effectOnly_broadcastGameOver. }
    unfold mbind, M_bind, bind in Hevs. rewrite Hevs. eauto.
  - rewrite Hins.
    set (w2 := set_gameObjs w _).
    assert (seated w2 g) as Hseat2 by (by eapply seated_insert).
    destruct (effectOnly_seq (saveGame g) (broadcastGameOver g) w2) as [evs Hevs].
    { by apply effectOnly_saveGame. }
    { intros evs. by apply effectOnly_broadcastGameOver. }
    unfold mbind, M_bind, bind in Hevs. rewrite Hevs. eauto.
  - rewrite Hins.
    set (w2 := set_gameObjs w _).
    assert (seated w2 g) as Hseat2 by (by eapply seated_insert).
    destruct (effectOnly_broadcastMove w2 g Hseat2) as [e1 ->].
    match goal with
    | |- context [if ?c then emit ?e else ret tt] =>
        assert (effectOnly (if c then emit e else ret tt)
                  (set_trace w2 (trace w2 ++ e1))) as [e2 ->]
          by (destruct c; [apply effectOnly_emit|apply effectOnly_ret])
    end.
    rewrite set_trace_twice. eauto.
Qed.
End HandleMove.

(** ** Full boards and gravity *)

Lemma isBoardFull_spec (game : GameState) :
  wfGrid (Board game) -> isBoardFull game = true <-> boardFull (Board game).
Proof.
  intros Hwf. unfold isBoardFull, boardFull. rewrite forallb_forall. split.
  - intros Hall r c Hin.
    destruct (cell_inGrid _ _ _ Hwf Hin) as [x Hx]. exists x. split; [done|].
    unfold cell in Hx. destruct (index (Board game) r) as [row|] eqn:Hrow; [|done].
    apply index_Some in Hrow as [_ Hrow]. apply index_Some in Hx as [_ Hx].
    specialize (Hall row). rewrite forallb_forall in Hall.
    assert (negb (String.eqb x Empty) = true) as Hne.
    { apply Hall; apply list_elem_of_In; by eapply list_elem_of_lookup_2. }
    intros ->. done.
  - intros Hfull row [r Hr]%list_elem_of_In%list_elem_of_lookup.
    apply forallb_forall. intros x [c Hc]%list_elem_of_In%list_elem_of_lookup.
    assert (cell (Board game) (Z.of_nat r) (Z.of_nat c) = Some x) as Hcell.
    { unfold cell.
      assert (index (Board game) (Z.of_nat r) = Some row) as ->.
      { apply index_Some. split; [lia|]. by rewrite Nat2Z.id. }
      apply index_Some. split; [lia|]. by rewrite Nat2Z.id. }
    destruct (Hfull (Z.of_nat r) (Z.of_nat c)) as (y & Hy & Hne).
    { by eapply cell_Some_inGrid. }
    destruct (String.eqb_spec x Empty); [congruence|done].
Qed.

Lemma gravity_setCell (b : Grid) (col row : Z) (v : string) (b' : Grid) :
  gravity b -> lowestEmpty b col row -> setCell b row col v = Some b' ->
  v <> Empty -> gravity b'.
Proof.
  intros Hgrav (Hrow & Hcell & Hbelow) Hset Hv r c (x & Hx & Hne) r' Hr'.
  destruct (decide (r' = row /\ c = col)) as [[-> ->]|Hother'].
  { exists v. split; [|done]. by eapply cell_setCell_eq. }
  unfold filled. rewrite (cell_setCell_ne _ _ _ _ _ r' c Hset) by lia.
  destruct (decide (r = row /\ c = col)) as [[-> ->]|Hother].
  { apply Hbelow. lia. }
  rewrite (cell_setCell_ne _ _ _ _ _ r c Hset) in Hx by lia.
  apply (Hgrav r c); [by exists x|done].
Qed.

Lemma wfGrid_emptyBoard : wfGrid emptyBoard.
Proof. split; [done|]. by repeat constructor. Qed.

Lemma cell_emptyBoard (r c : Z) (x : string) :
  cell emptyBoard r c = Some x -> x = Empty.
Proof.
  intros H. pose proof (cell_Some_inGrid _ _ _ _ wfGrid_emptyBoard H) as [Hr Hc].
  unfold ROWS, COLS in *.
  assert (r = 0 \/ r = 1 \/ r = 2 \/ r = 3 \/ r = 4 \/ r = 5) as Hr' by lia.
  assert (c = 0 \/ c = 1 \/ c = 2 \/ c = 3 \/ c = 4 \/ c = 5 \/ c = 6) as Hc' by lia.
  destruct Hr' as [-> | [-> | [-> | [-> | [-> | ->]]]]];
    destruct Hc' as [-> | [-> | [-> | [-> | [-> | [-> | ->]]]]]];
    compute in H; by injection H as <-.
Qed.

Lemma gravity_emptyBoard : gravity emptyBoard.
Proof. intros r c (x & Hx%cell_emptyBoard & Hne). done. Qed.

Lemma goodGame_afterMove (game : GameState) (color : Color) (now : Z)
      (col row : Z) (b1 : Grid) (wins : bool) :
  goodGame game -> color <> Empty ->
  lowestEmptyRow (Board game) col = Some row -> row <> -1 ->
  setCell (Board game) row col color = Some b1 ->
  goodGame (afterMove game color now b1 wins).
Proof.
  intros (Hwf & Hgrav & Hturn) Hcolor Hrow Hne Hset.
  apply lowestEmptyRow_spec in Hrow as [[-> _]|Hlow]; [done|].
  assert (wfGrid b1) by (by eapply setCell_wfGrid).
  assert (gravity b1) by (by eapply gravity_setCell).
  unfold afterMove.
  destruct wins; [done|]. destruct (isBoardFull _); [done|].
  split_and!; simpl; [done..|]. unfold nextPlayer.
  destruct (String.eqb (CurrentPlayer game) Red); auto.
Qed.

(** ** Framing: what a step cannot change *)

Section Respects.
Variable R : World -> World -> Prop.
Hypothesis R_refl : forall w, R w w.
Hypothesis R_trans : forall w1 w2 w3, R w1 w2 -> R w2 w3 -> R w1 w3.

Lemma respects_ret {A : Type} (a : A) : respects R (ret a).
Proof. intros w a' w' [= _ <-]. apply R_refl. Qed.

Lemma respects_bind {A B : Type} (m : M A) (k : A -> M B) :
  respects R m -> (forall a, respects R (k a)) -> respects R (m ≫= k).
Proof.
  intros Hm Hk w b w' H. unfold mbind, M_bind, bind in H.
  destruct (m w) as [[a w1]|] eqn:E; [|done].
  eapply R_trans; [by eapply Hm|by eapply Hk].
Qed.

Lemma respects_lift {A : Type} (o : option A) : respects R (lift o).
Proof. intros w a w' H. unfold lift in H. destruct o; [|done].
       injection H as _ <-. apply R_refl. Qed.

Lemma respects_getWorld : respects R getWorld.
Proof. intros w a w' [= _ <-]. apply R_refl. Qed.

Lemma respects_getGame (g : loc) : respects R (getGame g).
Proof. intros w a w' H. unfold getGame in H.
       destruct (gameObjs w !! g); [|done]. injection H as _ <-. apply R_refl. Qed.

Lemma respects_getPlayer (p : option loc) : respects R (getPlayer p).
Proof. intros w a w' H. unfold getPlayer in H. destruct p as [l|]; [|done].
       destruct (players w !! l); [|done]. injection H as _ <-. apply R_refl. Qed.

Lemma respects_if {A : Type} (c : bool) (m1 m2 : M A) :
  respects R m1 -> respects R m2 -> respects R (if c then m1 else m2).
Proof. by destruct c. Qed.

Hypothesis R_trace : forall w evs, R w (set_trace w (trace w ++ evs)).

Lemma respects_emit (e : Event) : respects R (emit e).
Proof. intros w a w' [= _ <-]. apply R_trace. Qed.

Lemma respects_sendIfConn (conn : option nat) (msg : Message) :
  respects R (sendIfConn conn msg).
Proof. destruct conn; [apply respects_emit|apply respects_ret]. Qed.

Lemma respects_sendKafkaGameEnd (game : GameState) :
  respects R (sendKafkaGameEnd game).
Proof.
  apply respects_bind; [apply respects_getWorld|]. intros w.
  apply respects_if; [apply respects_emit|apply respects_ret].
Qed.

Lemma respects_sendKafkaGameStart (gameID p1 p2 : string) (isBot : bool) :
  respects R (sendKafkaGameStart gameID p1 p2 isBot).
Proof.
  apply respects_bind; [apply respects_getWorld|]. intros w.
  apply respects_if; [apply respects_emit|apply respects_ret].
Qed.

Lemma respects_saveGame (g : loc) : respects R (saveGame g).
Proof.
  apply respects_bind; [apply respects_getWorld|]. intros w.
  apply respects_if; [apply respects_ret|].
  apply respects_bind; [apply respects_getGame|]. intros game.
  apply respects_bind; [apply respects_getPlayer|]. intros p1.
  apply respects_bind; [apply respects_getPlayer|]. intros p2.
  apply respects_emit.
Qed.

Lemma respects_broadcastMove (g : loc) : respects R (broadcastMove g).
Proof.
  apply respects_bind; [apply respects_getGame|]. intros game.
  apply respects_bind; [apply respects_getPlayer|]. intros p1.
  apply respects_bind; [apply respects_sendIfConn|]. intros _.
  destruct (Player2 game); [|apply respects_ret].
  apply respects_bind; [apply respects_getPlayer|]. intros p2.
  apply respects_sendIfConn.
Qed.

Lemma respects_broadcastGameOver (g : loc) : respects R (broadcastGameOver g).
Proof.
  apply respects_bind; [apply respects_getGame|]. intros game.
  apply respects_bind; [apply respects_getPlayer|]. intros p1.
  apply respects_bind; [apply respects_sendIfConn|]. intros _.
  apply respects_bind; [|intros _; apply respects_sendKafkaGameEnd].
  destruct (Player2 game); [|apply respects_ret].
  apply respects_bind; [apply respects_getPlayer|]. intros p2.
  apply respects_sendIfConn.
Qed.

Lemma respects_sendGameState (g : loc) : respects R (sendGameState g).
Proof.
  apply respects_bind; [apply respects_getGame|]. intros game.
  apply respects_bind; [apply respects_getPlayer|]. intros p1.
  apply respects_bind.
  { apply respects_if; [apply respects_sendIfConn|apply respects_ret]. }
  intros _. destruct (Player2 game); [|apply respects_ret].
  apply respects_bind; [apply respects_getPlayer|]. intros p2.
  apply respects_if; [apply respects_sendIfConn|apply respects_ret].
Qed.

Hypothesis R_players : forall w x, R w (set_players w x).

Lemma respects_setPlayer (p : option loc) (x : Player) :
  respects R (setPlayer p x).
Proof. intros w a w' H. unfold setPlayer in H. destruct p; [|done].
       injection H as _ <-. apply R_players. Qed.

Lemma respects_allocPlayer (x : Player) : respects R (allocPlayer x).
Proof. intros w a w' [= _ <-]. apply R_players. Qed.

Lemma respects_reattach (g : loc) (seat : option loc) (p : loc) :
  respects R (reattach g seat p).
Proof.
  unfold reattach.
  repeat (apply respects_bind;
          [first [apply respects_getPlayer|apply respects_setPlayer]|intros ?]).
  apply respects_sendGameState.
Qed.

Lemma respects_rejoinLoop (p : loc) (gs : list loc) :
  respects R (rejoinLoop p gs).
Proof.
  induction gs as [|g rest IH]; simpl; [apply respects_ret|].
  apply respects_bind; [apply respects_getGame|]. intros game.
  apply respects_if; [|done].
  apply respects_bind; [apply respects_getPlayer|]. intros player.
  apply respects_bind; [apply respects_getPlayer|]. intros p1.
  apply respects_if.
  { apply respects_bind; [apply respects_reattach|]. intros _. apply respects_ret. }
  destruct (Player2 game); [|done].
  apply respects_bind; [apply respects_getPlayer|]. intros p2.
  apply respects_if; [|done].
  apply respects_bind; [apply respects_reattach|]. intros _. apply respects_ret.
Qed.

Lemma respects_handleDisconnect (p g : loc) : respects R (handleDisconnect p g).
Proof.
  unfold handleDisconnect.
  apply respects_bind; [apply respects_getPlayer|]. intros player.
  apply respects_bind; [apply respects_setPlayer|]. intros _.
  apply respects_bind; [apply respects_getGame|]. intros game.
  apply respects_bind; [|intros _; apply respects_emit].
  destruct (getOpponent game p); [|apply respects_ret].
  apply respects_bind; [apply respects_getPlayer|]. intros o.
  apply respects_sendIfConn.
Qed.
Hypothesis R_games : forall w x, R w (set_games w x).
Hypothesis R_playerGames : forall w x, R w (set_playerGames w x).
Hypothesis R_allocGame : forall w gameID p1 p2 now isBot,
  R w (set_gameObjs w
         (<[fresh (dom (gameObjs w)) :=
              mkGameState gameID emptyBoard p1 p2 Red "" now None isBot]>
            (gameObjs w))).

Lemma respects_createGame (gameID : string) (now : Z) (p1 p2 : loc)
      (isBot : bool) :
  respects R (createGame gameID now p1 p2 isBot).
Proof.
  unfold createGame.
  apply respects_bind; [apply respects_getPlayer|]. intros x1.
  apply respects_bind; [apply respects_setPlayer|]. intros _.
  apply respects_bind; [apply respects_getPlayer|]. intros x2.
  apply respects_bind; [apply respects_setPlayer|]. intros _.
  apply respects_bind; [intros w a w' [= _ <-]; apply R_allocGame|]. intros g.
  apply respects_bind; [intros w a w' [= _ <-]; apply R_games|]. intros _.
  apply respects_bind; [apply respects_getPlayer|]. intros y1.
  apply respects_bind; [apply respects_getPlayer|]. intros y2.
  apply respects_bind; [intros w a w' [= _ <-]; apply R_playerGames|]. intros _.
  apply respects_bind.
  { apply respects_if; [|apply respects_ret].
    intros w a w' [= _ <-]. apply R_playerGames. }
  intros _.
  apply respects_bind; [apply respects_sendIfConn|]. intros _.
  apply respects_bind.
  { apply respects_if; [apply respects_sendIfConn|apply respects_ret]. }
  intros _.
  apply respects_bind; [apply respects_sendKafkaGameStart|]. intros _.
  apply respects_ret.
Qed.
Hypothesis R_waiting : forall w x, R w (set_waitingPlayers w x).

Lemma respects_matchPlayer (order : list (string * loc)) (gameID : string)
      (now : Z) (p : loc) :
  respects R (matchPlayer order gameID now p).
Proof.
  unfold matchPlayer.
  apply respects_bind; [apply respects_rejoinLoop|]. intros [g|].
  { apply respects_ret. }
  apply respects_bind; [apply respects_getWorld|]. intros w0.
  destruct (waitingPlayers w0) as [|opponent rest].
  - apply respects_bind; [intros w a w' [= _ <-]; apply R_waiting|]. intros _.
    apply respects_bind; [apply respects_getPlayer|]. intros player.
    apply respects_bind; [apply respects_lift|]. intros c.
    apply respects_bind; [apply respects_emit|]. intros _.
    apply respects_bind; [apply respects_emit|]. intros _.
    apply respects_ret.
  - apply respects_bind; [intros w a w' [= _ <-]; apply R_waiting|]. intros _.
    apply respects_bind; [apply respects_createGame|]. intros g.
    apply respects_ret.
Qed.

Lemma respects_handleJoin (conn : nat) (username : string)
      (order : list (string * loc)) (gameID : string) (now : Z) :
  respects R (handleJoin conn username order gameID now).
Proof.
  unfold handleJoin.
  apply respects_bind; [apply respects_allocPlayer|]. intros p.
  apply respects_bind; [apply respects_matchPlayer|]. intros g.
  apply respects_ret.
Qed.

Lemma respects_botTimerFire (gameID : string) (now : Z) (p : loc) :
  respects R (botTimerFire gameID now p).
Proof.
  unfold botTimerFire.
  apply respects_bind; [apply respects_getWorld|]. intros w0.
  destruct (list_find _ _) as [[i q]|]; [|apply respects_ret].
  apply respects_bind; [intros w a w' [= _ <-]; apply R_waiting|]. intros _.
  apply respects_bind; [apply respects_allocPlayer|]. intros bot.
  apply respects_bind; [apply respects_createGame|]. intros g.
  apply respects_ret.
Qed.
End Respects.

Lemma extends_refl (w : World) : extends w w.
Proof. exists []. by rewrite set_trace_id. Qed.

Lemma extends_trans (w1 w2 w3 : World) :
  extends w1 w2 -> extends w2 w3 -> extends w1 w3.
Proof. intros [e1 ->] [e2 ->]. exists (e1 ++ e2). by rewrite set_trace_twice. Qed.

Lemma playersOnly_refl (w : World) : playersOnly w w.
Proof. by unfold playersOnly. Qed.

Lemma playersOnly_trans (w1 w2 w3 : World) :
  playersOnly w1 w2 -> playersOnly w2 w3 -> playersOnly w1 w3.
Proof. unfold playersOnly. intros H1 H2. destruct_and!. split_and!; congruence. Qed.

Lemma extends_set_trace (w : World) (t : list Event) :
  extends w (set_trace w (trace w ++ t)).
Proof. by exists t. Qed.

Lemma playersOnly_extends (w w' : World) : extends w w' -> playersOnly w w'.
Proof. by intros [evs ->]. Qed.

Ltac frame_extends :=
  first [exact extends_refl | exact extends_trans | exact extends_set_trace].

Lemma saveGame_extends (g : loc) : respects extends (saveGame g).
Proof. apply respects_saveGame; frame_extends. Qed.

Lemma broadcastMove_extends (g : loc) : respects extends (broadcastMove g).
Proof. apply respects_broadcastMove; frame_extends. Qed.

Lemma broadcastGameOver_extends (g : loc) : respects extends (broadcastGameOver g).
Proof. apply respects_broadcastGameOver; frame_extends. Qed.

Lemma sendIfConn_extends (conn : option nat) (msg : Message) :
  respects extends (sendIfConn conn msg).
Proof. apply respects_sendIfConn; frame_extends. Qed.

Lemma updatesGame_twice (w : World) (g : loc) (x y : GameState) (w' : World) :
  extends (set_gameObjs (set_gameObjs w (<[g := x]> (gameObjs w)))
                        (<[g := y]> (<[g := x]> (gameObjs w)))) w' ->
  updatesGame w g y w'.
Proof.
  intros [evs ->]. exists evs. unfold set_gameObjs, set_trace. simpl.
  by rewrite insert_insert_eq.
Qed.

(** ** What a returning [handleMove] did *)

Lemma handleMove_inv (now : Z) (g p : loc) (col : Z) (w w' : World) :
  handleMove now g p col w = Some (tt, w') ->
  extends w w' \/
  exists game player row b1 wins,
    gameObjs w !! g = Some game /\ players w !! p = Some player /\
    Winner game = ""%string /\ PlayerColor player = CurrentPlayer game /\
    0 <= col < COLS /\
    lowestEmptyRow (Board game) col = Some row /\ row <> -1 /\
    setCell (Board game) row col (PlayerColor player) = Some b1 /\
    checkWinner (set_Board game b1) row col = Some wins /\
    updatesGame w g (afterMove game (PlayerColor player) now b1 wins) w'.
Proof.
  unfold handleMove, mbind, M_bind, bind, getGame, getPlayer.
  destruct (gameObjs w !! g) as [game|] eqn:Hg; [|done].
  destruct (players w !! p) as [player|] eqn:Hp; [|done].
  destruct (String.eqb_spec (Winner game) "") as [Hw|]; simpl;
    [|intros [= <-]; left; apply extends_refl].
  destruct (String.eqb_spec (PlayerColor player) (CurrentPlayer game))
    as [Hturn|]; simpl; [|intros H; left; by eapply sendIfConn_extends].
  destruct ((col <? 0) || (col >=? COLS)) eqn:Hcol;
    [intros [= <-]; left; apply extends_refl|].
  unfold lift.
  destruct (lowestEmptyRow (Board game) col) as [row|] eqn:Hrow; [|done].
  destruct (Z.eqb_spec row (-1)) as [|Hne];
    [intros H; left; by eapply sendIfConn_extends|].
  destruct (setCell (Board game) row col (PlayerColor player)) as [b1|] eqn:Hb1;
    [|done].
  unfold setGame. simpl.
  destruct (checkWinner (set_Board game b1) row col) as [wins|] eqn:Hwins; [|done].
  intros H. right. exists game, player, row, b1, wins.
  assert (0 <= col /\ col < 7) as [? ?] by (unfold COLS in *; lia).
  unfold COLS. split_and!; try done.
  apply (updatesGame_twice _ _ (set_Board game b1)). unfold afterMove.
  destruct wins; [|destruct (isBoardFull (set_Board game b1))]; cbv beta in H.
  - match type of H with
    | match saveGame g ?w2 with _ => _ end = _ =>
        destruct (saveGame g w2) as [[[] w3]|] eqn:E1; [|done];
        apply saveGame_extends in E1; apply broadcastGameOver_extends in H
    end.
    by eapply extends_trans.
  - match type of H with
    | match saveGame g ?w2 with _ => _ end = _ =>
        destruct (saveGame g w2) as [[[] w3]|] eqn:E1; [|done];
        apply saveGame_extends in E1; apply broadcastGameOver_extends in H
    end.
    by eapply extends_trans.
  - match type of H with
    | match broadcastMove g ?w2 with _ => _ end = _ =>
        destruct (broadcastMove g w2) as [[[] w3]|] eqn:E1; [|done];
        apply broadcastMove_extends in E1
    end.
    eapply extends_trans; [done|].
    match type of H with
    | (if ?c then _ else _) _ = _ => destruct c
    end.
    + injection H as <-. apply extends_set_trace.
    + injection H as <-. apply extends_refl.
Qed.

Lemma getBotMove_same_game (game : GameState) (c : Z) (game' : GameState) :
  getBotMove game = Some (c, game') -> game' = game.
Proof.
  unfold getBotMove.
  destruct (firstWinning game Yellow _) as [[[c1|] game1]|] eqn:E1; [| |done].
  { intros [= _ <-]. by eapply firstWinning_same_game. }
  apply firstWinning_same_game in E1 as ->.
  destruct (firstWinning game Red _) as [[[c2|] game2]|] eqn:E2; [| |done].
  { intros [= _ <-]. by eapply firstWinning_same_game. }
  apply firstWinning_same_game in E2 as ->.
  destruct (isColumnAvailable game 3) as [[]|]; [by intros [= _ <-]| |done].
  destruct (firstAvailable game _) as [[c3|]|]; [| |done]; by intros [= _ <-].
Qed.

Lemma set_gameObjs_id (w : World) (g : loc) (game : GameState) :
  gameObjs w !! g = Some game ->
  set_gameObjs w (<[g := game]> (gameObjs w)) = w.
Proof. intros H. rewrite insert_id by done. by destruct w. Qed.

(** ** What a returning [makeBotMove] did *)

Lemma makeBotMove_inv (now : Z) (g : loc) (w w' : World) :
  makeBotMove now g w = Some (tt, w') ->
  extends w w' \/
  exists game col row b1 wins,
    gameObjs w !! g = Some game /\ Winner game = ""%string /\
    getBotMove game = Some (col, game) /\ col <> -1 /\
    lowestEmptyRow (Board game) col = Some row /\ row <> -1 /\
    setCell (Board game) row col Yellow = Some b1 /\
    checkWinner (set_Board game b1) row col = Some wins /\
    updatesGame w g (afterBotMove game now b1 wins) w'.
Proof.
  unfold makeBotMove, mbind, M_bind, bind, getGame.
  destruct (gameObjs w !! g) as [game|] eqn:Hg; [|done].
  destruct (String.eqb_spec (Winner game) "") as [Hw|]; simpl;
    [|intros [= <-]; left; apply extends_refl].
  unfold lift.
  destruct (getBotMove game) as [[col game0]|] eqn:Hbot; [|done].
  pose proof (getBotMove_same_game _ _ _ Hbot) as ->.
  unfold setGame. rewrite (set_gameObjs_id w g game Hg).
  destruct (Z.eqb_spec col (-1)) as [|Hcol];
    [intros [= <-]; left; apply extends_refl|].
  destruct (lowestEmptyRow (Board game) col) as [row|] eqn:Hrow; [|done].
  destruct (Z.eqb_spec row (-1)) as [|Hne];
    [intros [= <-]; left; apply extends_refl|].
  destruct (setCell (Board game) row col Yellow) as [b1|] eqn:Hb1; [|done].
  unfold setGame. simpl.
  destruct (checkWinner (set_Board game b1) row col) as [wins|] eqn:Hwins; [|done].
  intros H. right. exists game, col, row, b1, wins.
  split_and!; try done.
  apply (updatesGame_twice _ _ (set_Board game b1)). unfold afterBotMove.
  destruct wins; [|destruct (isBoardFull (set_Board game b1))]; cbv beta in H.
  - match type of H with
    | match saveGame g ?w2 with _ => _ end = _ =>
        destruct (saveGame g w2) as [[[] w3]|] eqn:E1; [|done];
        apply saveGame_extends in E1; apply broadcastGameOver_extends in H
    end.
    by eapply extends_trans.
  - match type of H with
    | match saveGame g ?w2 with _ => _ end = _ =>
        destruct (saveGame g w2) as [[[] w3]|] eqn:E1; [|done];
        apply saveGame_extends in E1; apply broadcastGameOver_extends in H
    end.
    by eapply extends_trans.
  - by apply broadcastMove_extends in H.
Qed.

Lemma goodGame_afterBotMove (game : GameState) (now : Z)
      (col row : Z) (b1 : Grid) (wins : bool) :
  goodGame game ->
  lowestEmptyRow (Board game) col = Some row -> row <> -1 ->
  setCell (Board game) row col Yellow = Some b1 ->
  goodGame (afterBotMove game now b1 wins).
Proof.
  intros (Hwf & Hgrav & Hturn) Hrow Hne Hset.
  apply lowestEmptyRow_spec in Hrow as [[-> _]|Hlow]; [done|].
  assert (wfGrid b1) by (by eapply setCell_wfGrid).
  assert (gravity b1) by (by eapply gravity_setCell).
  unfold afterBotMove.
  destruct wins; [done|]. destruct (isBoardFull _); [done|].
  split_and!; simpl; [done..|]. by left.
Qed.

(** ** The board invariant along runs *)

Lemma goodGames_extends (w w' : World) :
  extends w w' -> goodGames w -> goodGames w'.
Proof. by intros [evs ->]. Qed.

Lemma goodGames_playersOnly (w w' : World) :
  playersOnly w w' -> goodGames w -> goodGames w'.
Proof. intros (Hg & _) H g game. rewrite Hg. apply H. Qed.

Lemma goodGames_updatesGame (w : World) (g : loc) (x : GameState) (w' : World) :
  updatesGame w g x w' -> goodGame x -> goodGames w -> goodGames w'.
Proof.
  intros [evs ->] Hx H g' game'. simpl. rewrite lookup_insert.
  case_decide; [by intros [= <-]|]. apply H.
Qed.

Lemma handleMove_goodGames (now : Z) (g p : loc) (col : Z) (w w' : World) :
  handleMove now g p col w = Some (tt, w') -> goodGames w -> goodGames w'.
Proof.
  intros [Hext|(game & player & row & b1 & wins & Hg & Hp & Hw & Hturn & Hcol &
                Hrow & Hne & Hset & Hwins & Hupd)]%handleMove_inv Hgood.
  - by eapply goodGames_extends.
  - eapply goodGames_updatesGame; [done| |done].
    eapply goodGame_afterMove; [by eapply Hgood| |done..].
    destruct (Hgood g game Hg) as (_ & _ & [E|E]); rewrite Hturn, E; done.
Qed.

Lemma makeBotMove_goodGames (now : Z) (g : loc) (w w' : World) :
  makeBotMove now g w = Some (tt, w') -> goodGames w -> goodGames w'.
Proof.
  intros [Hext|(game & col & row & b1 & wins & Hg & Hw & Hbot & Hcol &
                Hrow & Hne & Hset & Hwins & Hupd)]%makeBotMove_inv Hgood.
  - by eapply goodGames_extends.
  - eapply goodGames_updatesGame; [done| |done].
    eapply goodGame_afterBotMove; [by eapply Hgood|done..].
Qed.

Lemma newGames_refl (w : World) : newGames w w.
Proof. intros g game' H. by left. Qed.

Lemma newGames_trans (w1 w2 w3 : World) :
  newGames w1 w2 -> newGames w2 w3 -> newGames w1 w3.
Proof.
  intros H12 H23 g game' H. destruct (H23 g game' H) as [H2|Hnew]; [|by right].
  by apply H12.
Qed.

Lemma newGames_allocGame (w : World) (x : GameState) :
  Board x = emptyBoard -> CurrentPlayer x = Red ->
  newGames w (set_gameObjs w (<[fresh (dom (gameObjs w)) := x]> (gameObjs w))).
Proof.
  intros Hb Hc g game'. simpl. rewrite lookup_insert.
  case_decide; [intros [= <-]; by right|by left].
Qed.

Lemma newGames_same (w w' : World) : gameObjs w' = gameObjs w -> newGames w w'.
Proof. intros E g game'. rewrite E. by left. Qed.

Ltac frame_newGames :=
  first [ exact newGames_refl | exact newGames_trans
        | by (intros; apply newGames_allocGame)
        | by (intros; apply newGames_same) ].

Lemma goodGames_newGames (w w' : World) :
  newGames w w' -> goodGames w -> goodGames w'.
Proof.
  intros Hnew Hgood g game' H.
  destruct (Hnew g game' H) as [Hold|[Hb Hc]]; [by eapply Hgood|].
  split_and!; rewrite ?Hb, ?Hc;
    [apply wfGrid_emptyBoard|apply gravity_emptyBoard|by left].
Qed.

Lemma handleJoin_goodGames conn username order gameID now w r w' :
  handleJoin conn username order gameID now w = Some (r, w') ->
  goodGames w -> goodGames w'.
Proof.
  intros H. apply goodGames_newGames.
  eapply (respects_handleJoin newGames); [..|exact H]; frame_newGames.
Qed.

Lemma botTimerFire_goodGames gameID now p w w' :
  botTimerFire gameID now p w = Some (tt, w') -> goodGames w -> goodGames w'.
Proof.
  intros H. apply goodGames_newGames.
  eapply (respects_botTimerFire newGames); [..|exact H]; frame_newGames.
Qed.

Lemma handleDisconnect_playersOnly (p g : loc) :
  respects playersOnly (handleDisconnect p g).
Proof.
  apply respects_handleDisconnect;
    first [exact playersOnly_refl | exact playersOnly_trans | done].
Qed.

(** ** What a returning [forfeitTimerFire] did *)

Lemma forfeitTimerFire_inv (now : Z) (p g : loc) (w w' : World) :
  forfeitTimerFire now p g w = Some (tt, w') ->
  w' = w \/
  exists player game o opponent,
    players w !! p = Some player /\ gameObjs w !! g = Some game /\
    Disconnected player = true /\ Winner game = ""%string /\
    getOpponent game p = Some o /\ players w !! o = Some opponent /\
    updatesGame w g (afterForfeit game (PlayerColor opponent) now) w'.
Proof.
  unfold forfeitTimerFire, mbind, M_bind, bind, getGame, getPlayer.
  destruct (players w !! p) as [player|] eqn:Hp; [|done].
  destruct (gameObjs w !! g) as [game|] eqn:Hg; [|done].
  destruct (Disconnected player) eqn:Hd; simpl; [|by intros [= <-]; left].
  destruct (String.eqb_spec (Winner game) "") as [Hw|]; [|by intros [= <-]; left].
  destruct (getOpponent game p) as [o|] eqn:Ho; [|done].
  destruct (players w !! o) as [opponent|] eqn:Hopp; [|done].
  unfold setGame. simpl. intros H. right.
  exists player, game, o, opponent. split_and!; try done.
  apply (updatesGame_twice _ _ (set_Winner game (PlayerColor opponent))).
  match type of H with
  | match saveGame g ?w2 with _ => _ end = _ =>
      destruct (saveGame g w2) as [[[] w3]|] eqn:E1; [|done];
      apply saveGame_extends in E1
  end.
  eapply extends_trans; [exact E1|].
  change (getOpponent (set_Winner game (PlayerColor opponent)) p)
    with (getOpponent game p) in H.
  rewrite Ho in H.
  destruct (players w3 !! o); [|done]. by eapply sendIfConn_extends.
Qed.

Lemma forfeitTimerFire_goodGames (now : Z) (p g : loc) (w w' : World) :
  forfeitTimerFire now p g w = Some (tt, w') -> goodGames w -> goodGames w'.
Proof.
  intros [->|(player & game & o & opponent & Hp & Hg & _ & _ & _ & _ & Hupd)]
         %forfeitTimerFire_inv Hgood; [done|].
  eapply goodGames_updatesGame; [done| |done]. by apply (Hgood g game).
Qed.

Lemma NewGameServer_goodGames (db kafka : bool) :
  goodGames (NewGameServer db kafka).
Proof. intros g game H. simpl in H. by rewrite lookup_empty in H. Qed.

Lemma step_goodGames (w w' : World) : step w w' -> goodGames w -> goodGames w'.
Proof.
  intros [].
  - by eapply handleJoin_goodGames.
  - by eapply handleMove_goodGames.
  - by eapply makeBotMove_goodGames.
  - by eapply botTimerFire_goodGames.
  - apply goodGames_playersOnly. by eapply handleDisconnect_playersOnly.
  - by eapply forfeitTimerFire_goodGames.
Qed.

Lemma reachable_goodGames (w : World) : reachable w -> goodGames w.
Proof.
  induction 1 as [db kafka|w w' _ IH Hstep].
  - apply NewGameServer_goodGames.
  - by eapply step_goodGames.
Qed.

(** ** Checking a grid by computation *)

Lemma wfGrid_check (b : Grid) :
  length b = 6%nat -> forallb (fun row => Nat.eqb (length row) 7) b = true ->
  wfGrid b.
Proof.
  intros Hlen Hall. split; [done|]. apply Forall_forall. intros row Hrow.
  rewrite forallb_forall in Hall. apply Nat.eqb_eq, Hall. by apply list_elem_of_In.
Qed.

Lemma updatesGame_lookup (w : World) (g : loc) (x : GameState) (w' : World) :
  updatesGame w g x w' -> gameObjs w' !! g = Some x.
Proof. intros [evs ->]. simpl. apply lookup_insert_eq. Qed.

Lemma updatesGame_players (w : World) (g : loc) (x : GameState) (w' : World) :
  updatesGame w g x w' -> players w' = players w.
Proof. by intros [evs ->]. Qed.

Lemma Board_afterMove (game : GameState) (color : Color) (now : Z) (b1 : Grid)
      (wins : bool) :
  Board (afterMove game color now b1 wins) = b1.
Proof.
  unfold afterMove. destruct wins; [done|]. by destruct (isBoardFull _).
Qed.

(** An accepted move, in the vocabulary of the specification. *)
Lemma handleMove_accepted_spec (now : Z) (w : World) (g p : loc) (col : Z)
      (game : GameState) (player : Player) (r : Z) :
  gameObjs w !! g = Some game -> players w !! p = Some player ->
  seated w g -> wfGrid (Board game) ->
  Winner game = ""%string -> PlayerColor player = CurrentPlayer game ->
  0 <= col < COLS -> cell (Board game) r col = Some Empty ->
  exists row b1 wins w',
    lowestEmpty (Board game) col row /\
    setCell (Board game) row col (PlayerColor player) = Some b1 /\
    checkWinner (set_Board game b1) row col = Some wins /\
    handleMove now g p col w = Some (tt, w') /\
    updatesGame w g (afterMove game (PlayerColor player) now b1 wins) w'.
Proof.
  intros Hg Hp Hseat Hwf Hw Hturn Hcol Hcell.
  pose proof (cell_Some_inGrid _ _ _ _ Hwf Hcell) as [Hr _].
  destruct (lowestEmptyRow_found _ col r Hwf Hcol Hr Hcell) as (row & Hrow & Hlow).
  pose proof Hlow as (Hrange & Hc & _).
  destruct (setCell_total _ _ _ _ (PlayerColor player) Hc) as [b1 Hb1].
  destruct (checkWinner_total (set_Board game b1) row col) as [wins Hwins].
  { by eapply setCell_wfGrid. }
  { by eapply cell_Some_inGrid. }
  destruct (handleMove_accepted now w g p col game player Hg Hp row b1 wins)
    as (w' & Hmove & Hupd); try done; [lia|].
  by exists row, b1, wins, w'.
Qed.

Lemma seated_exampleWorld (b : Grid) (turn : Color) (winner : string) :
  seated (exampleWorld b turn winner) 0%nat.
Proof.
  exists (exampleGame b turn winner), 0%nat, 1%nat, alice, bob.
  split_and!; reflexivity.
Qed.

Lemma afterMove_cases (game : GameState) (color : Color) (now : Z) (b1 : Grid)
      (wins : bool) :
  let game' := afterMove game color now b1 wins in
  (wins = true -> Winner game' = color /\ CurrentPlayer game' = CurrentPlayer game) /\
  (wins = false -> isBoardFull (set_Board game b1) = true ->
   Winner game' = "draw"%string /\ CurrentPlayer game' = CurrentPlayer game) /\
  (wins = false -> isBoardFull (set_Board game b1) = false ->
   Winner game' = Winner game /\
   CurrentPlayer game' = nextPlayer (CurrentPlayer game)).
Proof.
  unfold afterMove. destruct wins; [done|].
  destruct (isBoardFull (set_Board game b1)); done.
Qed.

(** ** Rejected moves *)

(** A move that is turned away for the turn, the column index or a full
    column leaves the players, the games, the registry and the queue as they
    were; at most the trace grows. *)
Lemma handleMove_rejected_extends (now : Z) (w : World) (g p : loc) (col : Z)
      (game : GameState) (player : Player) (w' : World) :
  gameObjs w !! g = Some game -> players w !! p = Some player ->
  Winner game = ""%string ->
  PlayerColor player <> CurrentPlayer game \/ ~ 0 <= col < COLS \/
  lowestEmptyRow (Board game) col = Some (-1) ->
  handleMove now g p col w = Some (tt, w') -> extends w w'.
Proof.
  intros Hg Hp Hw Hwhy Hmove.
  destruct (decide (PlayerColor player = CurrentPlayer game)) as [Hturn|Hturn].
  - destruct (decide (0 <= col < COLS)) as [Hcol|Hcol].
    + destruct Hwhy as [?|[?|Hfull]]; [done..|].
      rewrite (handleMove_column_full now w g p col game player) in Hmove by done.
      by eapply sendIfConn_extends.
    + rewrite (handleMove_invalid_column now w g p col game player) in Hmove by done.
      injection Hmove as <-. apply extends_refl.
  - rewrite (handleMove_not_your_turn now w g p col game player) in Hmove by done.
    by eapply sendIfConn_extends.
Qed.

(** ** Forfeiture *)

Lemma getOpponent_seats (game : GameState) (p o : loc) :
  seats game p o -> getOpponent game p = Some o.
Proof.
  intros [Hne [[H1 H2]|[H1 H2]]]; unfold getOpponent; rewrite H1.
  - by rewrite decide_True.
  - rewrite decide_False; [done|]. intros [= ->]. done.
Qed.


Lemma forfeitTimerFire_noop (now : Z) (w : World) (p g : loc)
      (game : GameState) (player : Player) :
  gameObjs w !! g = Some game -> players w !! p = Some player ->
  Disconnected player = false \/ Winner game <> ""%string ->
  forfeitTimerFire now p g w = Some (tt, w).
Proof.
  intros Hg Hp Hwhy.
  unfold forfeitTimerFire, mbind, M_bind, bind, getGame, getPlayer.
  rewrite Hp, Hg. destruct Hwhy as [-> | Hw]; [done|].
  destruct (String.eqb_spec (Winner game) ""); [done|].
  by rewrite andb_false_r.
Qed.


(** ** Rejoin *)

Lemma sendGameState_spec (w : World) (g : loc) (game : GameState)
      (l1 l2 : loc) (x1 x2 : Player) :
  gameObjs w !! g = Some game ->
  Player1 game = Some l1 -> players w !! l1 = Some x1 ->
  Player2 game = Some l2 -> players w !! l2 = Some x2 ->
  sendGameState g w
  = Some (tt, set_trace w
                (trace w ++
                 stateEvents (moveMessage (Board game) (CurrentPlayer game)) x1 ++
                 stateEvents (moveMessage (Board game) (CurrentPlayer game)) x2)).
Proof.
  intros Hg H1 Hx1 H2 Hx2.
  unfold sendGameState, mbind, M_bind, bind, getGame, getPlayer.
  rewrite Hg, H1, Hx1, H2. unfold stateEvents.
  destruct (Disconnected x1), (Conn x1) as [c1|]; simpl; rewrite Hx2;
    destruct (Disconnected x2), (Conn x2) as [c2|]; simpl;
    unfold ret, emit; simpl;
    rewrite ?app_nil_r, <- ?app_assoc; try done;
    by destruct w.
Qed.

Lemma reattach_spec (w : World) (g seat p : loc) (game : GameState)
      (s player : Player) :
  gameObjs w !! g = Some game -> seated w g ->
  Player1 game = Some seat \/ Player2 game = Some seat ->
  players w !! seat = Some s -> players w !! p = Some player -> p <> seat ->
  exists evs,
    reattach g (Some seat) p w
    = Some (tt, set_trace (set_players w (reattachedPlayers w seat p s player))
                          (trace w ++ evs)) /\
    forall c, Conn player = Some c ->
      WriteJSON c (moveMessage (Board game) (CurrentPlayer game)) ∈ evs.
Proof.
  intros Hg (game0 & l1 & l2 & x1 & x2 & Hg0 & H1 & Hx1 & H2 & Hx2) Hseat Hs Hp Hne.
  assert (game0 = game) as -> by congruence.
  unfold reattach, mbind, M_bind, bind, getPlayer, setPlayer.
  rewrite Hp, Hs. simpl. rewrite lookup_insert_eq. simpl.
  rewrite insert_insert_eq, lookup_insert_eq. simpl.
  rewrite lookup_insert_ne by done. rewrite Hp.
  change (set_players _ _)
    with (set_players w (reattachedPlayers w seat p s player)).
  set (w3 := set_players _ _).
  assert (forall l x, players w !! l = Some x ->
            exists x', players w3 !! l = Some x' /\
                       (l = seat -> x' = reattached s player)) as Hdom.
  { intros l x Hl. unfold w3, reattachedPlayers. simpl.
    destruct (decide (l = p)) as [->|Hlp].
    - rewrite lookup_insert_eq. eexists. split; [done|]. intros ->. done.
    - rewrite lookup_insert_ne by done.
      destruct (decide (l = seat)) as [->|Hls].
      + rewrite lookup_insert_eq. eexists. split; done.
      + rewrite lookup_insert_ne by done. exists x. split; [done|]. by intros ->. }
  destruct (Hdom l1 x1 Hx1) as (y1 & Hy1 & Hs1).
  destruct (Hdom l2 x2 Hx2) as (y2 & Hy2 & Hs2).
  rewrite (sendGameState_spec w3 g game l1 l2 y1 y2) by done.
  eexists. split; [done|].
  intros c Hc.
  assert (stateEvents (moveMessage (Board game) (CurrentPlayer game))
            (reattached s player)
          = [WriteJSON c (moveMessage (Board game) (CurrentPlayer game))]) as Hsent.
  { unfold stateEvents, reattached. simpl. by rewrite Hc. }
  apply elem_of_app. destruct Hseat as [Hseat|Hseat].
  - left. assert (l1 = seat) as E by congruence.
    rewrite (Hs1 E), Hsent. by apply list_elem_of_singleton.
  - right. assert (l2 = seat) as E by congruence.
    rewrite (Hs2 E), Hsent. by apply list_elem_of_singleton.
Qed.

(** One iteration of the rejoin loop: the game is passed over, and then the
    participant occupies no disconnected seat of it, or the loop ends with
    the rejoin branch for a seat the participant occupies. *)
Lemma rejoinLoop_cons (w : World) (p g : loc) (rest : list loc) (player : Player) :
  seated w g -> players w !! p = Some player ->
  (~ rejoinable w (Username player) g /\
   rejoinLoop p (g :: rest) w = rejoinLoop p rest w) \/
  (exists seat,
     occupiesDisconnectedSeat w (Username player) g seat /\
     rejoinLoop p (g :: rest) w = (reattach g (Some seat) p;; ret (Some g)) w).
Proof.
  intros (game & l1 & l2 & x1 & x2 & Hg & H1 & Hx1 & H2 & Hx2) Hp.
  assert (rejoinLoop p (g :: rest) w
          = if String.eqb (Winner game) "" then
              if String.eqb (Username x1) (Username player) && Disconnected x1
              then (reattach g (Some l1) p;; ret (Some g)) w
              else if String.eqb (Username x2) (Username player) && Disconnected x2
                   then (reattach g (Some l2) p;; ret (Some g)) w
                   else rejoinLoop p rest w
            else rejoinLoop p rest w) as ->.
  { cbn [rejoinLoop]. unfold mbind, M_bind, bind, getGame, getPlayer.
    rewrite Hg. destruct (String.eqb (Winner game) ""); [|done].
    rewrite Hp, H1, Hx1.
    destruct (String.eqb (Username x1) (Username player) && Disconnected x1);
      [done|].
    rewrite H2, Hx2.
    by destruct (String.eqb (Username x2) (Username player) && Disconnected x2). }
  assert (rejoinable w (Username player) g ->
          Winner game = ""%string /\
          ((Username x1 = Username player /\ Disconnected x1 = true) \/
           (Username x2 = Username player /\ Disconnected x2 = true))) as Hinv.
  { intros (seat & game' & x & Hg' & Hw' & [Hs|Hs] & Hx & Hn & Hd).
    - split; [congruence|]. left.
      assert (seat = l1) as -> by congruence.
      assert (x = x1) as -> by congruence. done.
    - split; [congruence|]. right.
      assert (seat = l2) as -> by congruence.
      assert (x = x2) as -> by congruence. done. }
  destruct (String.eqb_spec (Winner game) "") as [Hw|Hw];
    [|left; split; [intros [? _]%Hinv; done|done]].
  destruct (String.eqb_spec (Username x1) (Username player)) as [Hn1|Hn1];
    [destruct (Disconnected x1) eqn:Hd1|]; simpl.
  - right. exists l1. split; [|done]. exists game, x1. split_and!; auto.
  - destruct (String.eqb_spec (Username x2) (Username player)) as [Hn2|Hn2];
      [destruct (Disconnected x2) eqn:Hd2|]; simpl.
    + right. exists l2. split; [|done]. exists game, x2. split_and!; auto.
    + left. split; [|done]. intros [_ [[_ ?]|[_ ?]]]%Hinv; congruence.
    + left. split; [|done]. intros [_ [[_ ?]|[? _]]]%Hinv; congruence.
  - destruct (String.eqb_spec (Username x2) (Username player)) as [Hn2|Hn2];
      [destruct (Disconnected x2) eqn:Hd2|]; simpl.
    + right. exists l2. split; [|done]. exists game, x2. split_and!; auto.
    + left. split; [|done]. intros [_ [[? _]|[_ ?]]]%Hinv; congruence.
    + left. split; [|done]. intros [_ [[? _]|[? _]]]%Hinv; congruence.
Qed.

Lemma rejoinLoop_spec (w : World) (p : loc) (player : Player) (gs : list loc) :
  players w !! p = Some player ->
  (forall g, g ∈ gs -> seated w g) ->
  ((forall g, g ∈ gs -> ~ rejoinable w (Username player) g) /\
   rejoinLoop p gs w = Some (None, w)) \/
  (exists pre g post seat,
     gs = pre ++ g :: post /\
     (forall g', g' ∈ pre -> ~ rejoinable w (Username player) g') /\
     occupiesDisconnectedSeat w (Username player) g seat /\
     rejoinLoop p gs w = (reattach g (Some seat) p;; ret (Some g)) w).
Proof.
  intros Hp. induction gs as [|g rest IH]; intros Hseated.
  - left. split; [|done]. intros g Hg. by apply elem_of_nil in Hg.
  - destruct (rejoinLoop_cons w p g rest player) as [[Hno Hskip]|(seat & Hocc & Hhit)];
      [apply Hseated; left|done| |].
    + destruct IH as [[Hnone Hend]|(pre & g' & post & seat & -> & Hpre & Hocc & Hhit)].
      { intros g' Hg'. apply Hseated. by right. }
      * left. split; [|by rewrite Hskip].
        intros g' [->|Hg']%elem_of_cons; auto.
      * right. exists (g :: pre), g', post, seat. split; [done|].
        split; [|split; [done|by rewrite Hskip]].
        intros g0 [->|Hg0]%elem_of_cons; auto.
    + right. exists [], g, rest, seat. split; [done|].
      split; [|done]. intros g' Hg'. by apply elem_of_nil in Hg'.
Qed.

Lemma matchPlayer_rejoin (w : World) (order : list (string * loc))
      (gameID : string) (now : Z) (p : loc) (player : Player) :
  players w !! p = Some player -> Disconnected player = false ->
  (forall g, g ∈ order.*2 -> seated w g) ->
  (exists g, g ∈ order.*2 /\ rejoinable w (Username player) g) ->
  exists pre g post seat game s evs,
    order.*2 = pre ++ g :: post /\
    (forall g', g' ∈ pre -> ~ rejoinable w (Username player) g') /\
    occupiesDisconnectedSeat w (Username player) g seat /\
    gameObjs w !! g = Some game /\ players w !! seat = Some s /\
    matchPlayer order gameID now p w
    = Some (Some g,
            set_trace (set_players w (reattachedPlayers w seat p s player))
                      (trace w ++ evs)) /\
    (forall c, Conn player = Some c ->
       WriteJSON c (moveMessage (Board game) (CurrentPlayer game)) ∈ evs).
Proof.
  intros Hp Hd Hseated (g0 & Hin0 & Hjoin0).
  destruct (rejoinLoop_spec w p player (order.*2) Hp Hseated)
    as [[Hnone _]|(pre & g & post & seat & Hgs & Hpre & Hocc & Hloop)].
  { exfalso. by eapply Hnone. }
  pose proof Hocc as (game & s & Hg & Hw & Hseat & Hs & Hn & Hds).
  assert (p <> seat) as Hne by (intros ->; congruence).
  destruct (reattach_spec w g seat p game s player) as (evs & Hre & Hsent);
    try done; [apply Hseated; rewrite Hgs, elem_of_app; right; left|].
  exists pre, g, post, seat, game, s, evs. split_and!; try done.
  unfold matchPlayer. unfold mbind at 1, M_bind at 1, bind at 1.
  rewrite Hloop. unfold mbind, M_bind, bind. by rewrite Hre.
Qed.

(** ** Pairing *)

Lemma createGame_spec (gameID : string) (now : Z) (p1 p2 : loc) (isBot : bool)
      (w : World) (x1 x2 : Player) :
  players w !! p1 = Some x1 -> players w !! p2 = Some x2 -> p1 <> p2 ->
  let g := fresh (dom (gameObjs w)) in
  exists w',
    createGame gameID now p1 p2 isBot w = Some (g, w') /\
    gameObjs w' = <[g := mkGameState gameID emptyBoard (Some p1) (Some p2) Red ""
                                     now None isBot]> (gameObjs w) /\
    players w' = <[p2 := set_PlayerColor x2 Yellow]>
                   (<[p1 := set_PlayerColor x1 Red]> (players w)) /\
    games w' = <[gameID := g]> (games w) /\
    waitingPlayers w' = waitingPlayers w /\
    db w' = db w /\ kafkaWriter w' = kafkaWriter w /\
    exists evs, trace w' = trace w ++ evs.
Proof.
  intros H1 H2 Hne g.
  unfold createGame, mbind, M_bind, bind, getPlayer, setPlayer, allocGame.
  rewrite H1. simpl. rewrite lookup_insert_ne by done. rewrite H2. simpl.
  rewrite lookup_insert_ne by done. rewrite lookup_insert_eq. simpl.
  rewrite lookup_insert_eq. simpl.
  unfold sendKafkaGameStart, mbind, M_bind, bind, getWorld, sendIfConn.
  destruct isBot, (Conn x1) as [c1|], (Conn x2) as [c2|], (kafkaWriter w) eqn:Hk;
    simpl; rewrite ?Hk; simpl;
    (eexists; split; [reflexivity|]; simpl; split_and!; try done;
     eexists; rewrite <- ?app_assoc; try reflexivity; by rewrite app_nil_r).
Qed.

Lemma sameQueue_refl (w : World) : sameQueue w w.
Proof. done. Qed.

Lemma sameQueue_trans (w1 w2 w3 : World) :
  sameQueue w1 w2 -> sameQueue w2 w3 -> sameQueue w1 w3.
Proof. unfold sameQueue. congruence. Qed.

Ltac frame_sameQueue :=
  first [exact sameQueue_refl | exact sameQueue_trans | done].

Lemma rejoinLoop_sameQueue (p : loc) (gs : list loc) :
  respects sameQueue (rejoinLoop p gs).
Proof. apply respects_rejoinLoop; frame_sameQueue. Qed.

Lemma createGame_sameQueue gameID now p1 p2 isBot :
  respects sameQueue (createGame gameID now p1 p2 isBot).
Proof. apply respects_createGame; frame_sameQueue. Qed.

(** A join that is not a rejoin pairs the joiner with the head of the queue,
    which leaves the queue, or puts the joiner at the tail of an empty
    queue. *)
Lemma matchPlayer_queue (order : list (string * loc)) (gameID : string)
      (now : Z) (p : loc) (w : World) (r : option loc) (w' : World) :
  matchPlayer order gameID now p w = Some (r, w') ->
  waitingPlayers w' = waitingPlayers w \/
  (exists opponent, waitingPlayers w = opponent :: waitingPlayers w') \/
  (waitingPlayers w = [] /\ waitingPlayers w' = [p]).
Proof.
  unfold matchPlayer. unfold mbind at 1, M_bind at 1, bind at 1.
  destruct (rejoinLoop p (order.*2) w) as [[[g|] w1]|] eqn:Hloop; [| |done].
  { intros [= _ <-]. left. by eapply rejoinLoop_sameQueue. }
  apply rejoinLoop_sameQueue in Hloop. unfold sameQueue in Hloop.
  unfold mbind at 1, M_bind at 1, bind at 1, getWorld.
  destruct (waitingPlayers w1) as [|opponent rest] eqn:Hq.
  - unfold mbind, M_bind, bind, getPlayer, lift, emit, ret. simpl.
    destruct (players w1 !! p) as [player|]; [|done].
    destruct (Conn player) as [c|]; [|done].
    intros [= _ <-]. right; right. simpl. rewrite Hq in *. done.
  - unfold mbind at 1, M_bind at 1, bind at 1.
    unfold mbind at 1, M_bind at 1, bind at 1.
    destruct (createGame _ _ _ _ _ _) as [[g w2]|] eqn:Hcreate; [|done].
    intros [= _ <-]. apply createGame_sameQueue in Hcreate.
    unfold sameQueue in Hcreate. simpl in Hcreate.
    right; left. exists opponent. rewrite <- Hloop. by rewrite Hcreate.
Qed.

Lemma handleJoin_queue conn username order gameID now w r w' :
  handleJoin conn username order gameID now w = Some (r, w') ->
  (length (waitingPlayers w) <= 1)%nat -> (length (waitingPlayers w') <= 1)%nat.
Proof.
  unfold handleJoin, mbind, M_bind, bind, allocPlayer.
  destruct (matchPlayer _ _ _ _ _) as [[g w1]|] eqn:Hmatch; [|done].
  intros [= _ <-]. apply matchPlayer_queue in Hmatch. simpl in Hmatch.
  destruct Hmatch as [-> | [[opponent ->] | [_ ->]]]; simpl; lia.
Qed.

Lemma botTimerFire_queue gameID now p w w' :
  botTimerFire gameID now p w = Some (tt, w') ->
  (length (waitingPlayers w) <= 1)%nat -> (length (waitingPlayers w') <= 1)%nat.
Proof.
  unfold botTimerFire. unfold mbind at 1, M_bind at 1, bind at 1, getWorld.
  destruct (list_find _ _) as [[i q]|] eqn:Hfind; [|by intros [= <-]].
  apply list_find_Some in Hfind as (Hi & _ & _).
  unfold mbind at 1, M_bind at 1, bind at 1.
  unfold mbind at 1, M_bind at 1, bind at 1, allocPlayer.
  unfold mbind at 1, M_bind at 1, bind at 1.
  destruct (createGame _ _ _ _ _ _) as [[g w2]|] eqn:Hcreate; [|done].
  intros [= <-]. apply createGame_sameQueue in Hcreate.
  unfold sameQueue in Hcreate. simpl in Hcreate. rewrite Hcreate.
  intros Hlen. rewrite length_delete by eauto. lia.
Qed.

Lemma updatesGame_sameQueue (w : World) (g : loc) (x : GameState) (w' : World) :
  updatesGame w g x w' -> waitingPlayers w' = waitingPlayers w.
Proof. by intros [evs ->]. Qed.

Lemma extends_sameQueue (w w' : World) :
  extends w w' -> waitingPlayers w' = waitingPlayers w.
Proof. by intros [evs ->]. Qed.

Lemma handleMove_sameQueue now g p col w w' :
  handleMove now g p col w = Some (tt, w') ->
  waitingPlayers w' = waitingPlayers w.
Proof.
  intros [Hext|(game & player & row & b1 & wins & Hrest)]%handleMove_inv.
  - by apply extends_sameQueue.
  - destruct_and!. by eapply updatesGame_sameQueue.
Qed.

Lemma makeBotMove_sameQueue now g w w' :
  makeBotMove now g w = Some (tt, w') ->
  waitingPlayers w' = waitingPlayers w.
Proof.
  intros [Hext|(game & col & row & b1 & wins & Hrest)]%makeBotMove_inv.
  - by apply extends_sameQueue.
  - destruct_and!. by eapply updatesGame_sameQueue.
Qed.

Lemma forfeitTimerFire_sameQueue now p g w w' :
  forfeitTimerFire now p g w = Some (tt, w') ->
  waitingPlayers w' = waitingPlayers w.
Proof.
  intros [->|(player & game & o & opponent & Hrest)]%forfeitTimerFire_inv;
    [done|].
  destruct_and!. by eapply updatesGame_sameQueue.
Qed.

Lemma step_queue (w w' : World) :
  step w w' ->
  (length (waitingPlayers w) <= 1)%nat -> (length (waitingPlayers w') <= 1)%nat.
Proof.
  intros [conn username order gameID now w0 r w1 Hperm H
         |now g p col w0 w1 H|now g w0 w1 H|gameID now p w0 w1 H
         |p g w0 w1 H|now p g w0 w1 H].
  - by eapply handleJoin_queue.
  - by rewrite (handleMove_sameQueue _ _ _ _ _ _ H).
  - by rewrite (makeBotMove_sameQueue _ _ _ _ H).
  - by eapply botTimerFire_queue.
  - apply handleDisconnect_playersOnly in H as (_ & _ & _ & -> & _). done.
  - by rewrite (forfeitTimerFire_sameQueue _ _ _ _ _ H).
Qed.

Lemma reachable_queue (w : World) :
  reachable w -> (length (waitingPlayers w) <= 1)%nat.
Proof.
  induction 1 as [db kafka|w w' _ IH Hstep]; [simpl; lia|].
  by eapply step_queue.
Qed.

Lemma matchPlayer_pairs (order : list (string * loc)) (gameID : string)
      (now : Z) (p opponent : loc) (rest : list loc) (w : World)
      (player x : Player) :
  players w !! p = Some player ->
  (forall g, g ∈ order.*2 -> seated w g) ->
  (forall g, g ∈ order.*2 -> ~ rejoinable w (Username player) g) ->
  waitingPlayers w = opponent :: rest ->
  players w !! opponent = Some x -> opponent <> p ->
  let g := fresh (dom (gameObjs w)) in
  exists w',
    matchPlayer order gameID now p w = Some (Some g, w') /\
    gameObjs w' !! g
    = Some (mkGameState gameID emptyBoard (Some opponent) (Some p) Red ""
                        now None false) /\
    waitingPlayers w' = rest.
Proof.
  intros Hp Hseated Hnone Hq Hx Hne g.
  destruct (rejoinLoop_spec w p player (order.*2) Hp Hseated)
    as [[_ Hloop]|(pre & g' & post & seat & Hgs & _ & Hocc & _)];
    [|exfalso; apply (Hnone g'); [rewrite Hgs, elem_of_app; right; left|by exists seat]].
  unfold matchPlayer. unfold mbind at 1, M_bind at 1, bind at 1.
  rewrite Hloop. unfold mbind at 1, M_bind at 1, bind at 1, getWorld.
  rewrite Hq.
  unfold mbind at 1, M_bind at 1, bind at 1.
  destruct (createGame_spec gameID now opponent p false
              (set_waitingPlayers w rest) x player)
    as (w' & Hcreate & Hobjs & _ & _ & Hqueue & _); try done.
  simpl in Hcreate, Hobjs, Hqueue.
  unfold mbind, M_bind, bind. rewrite Hcreate.
  exists w'. split; [done|]. split; [|done].
  rewrite Hobjs. apply lookup_insert_eq.
Qed.

Lemma matchPlayer_waits (order : list (string * loc)) (gameID : string)
      (now : Z) (p : loc) (w : World) (player : Player) (c : nat) :
  players w !! p = Some player -> Conn player = Some c ->
  (forall g, g ∈ order.*2 -> seated w g) ->
  (forall g, g ∈ order.*2 -> ~ rejoinable w (Username player) g) ->
  waitingPlayers w = [] ->
  matchPlayer order gameID now p w
  = Some (None, set_trace (set_waitingPlayers w [p])
                  (trace w ++ [WriteJSON c waitingMessage; Go (BotTimerTask p)])).
Proof.
  intros Hp Hc Hseated Hnone Hq.
  destruct (rejoinLoop_spec w p player (order.*2) Hp Hseated)
    as [[_ Hloop]|(pre & g' & post & seat & Hgs & _ & Hocc & _)];
    [|exfalso; apply (Hnone g'); [rewrite Hgs, elem_of_app; right; left|by exists seat]].
  unfold matchPlayer. unfold mbind at 1, M_bind at 1, bind at 1.
  rewrite Hloop. unfold mbind at 1, M_bind at 1, bind at 1, getWorld.
  rewrite Hq. unfold mbind, M_bind, bind, getPlayer, lift, emit, ret. simpl.
  rewrite Hp, Hc, Hq. simpl. by rewrite <- app_assoc.
Qed.

Lemma seated_aliceReturns (id : string) (g : loc) :
  games aliceReturns !! id = Some g -> seated aliceReturns g.
Proof.
  intros H%elem_of_map_to_list.
  replace (map_to_list (games aliceReturns))
    with [("g1"%string, 0%nat); ("g2"%string, 1%nat)] in H
    by (vm_compute; reflexivity).
  apply elem_of_cons in H as [[= -> ->]|H];
    [|apply elem_of_cons in H as [[= -> ->]|H]; [|by apply elem_of_nil in H]].
  - do 5 eexists. split_and!; vm_compute; reflexivity.
  - do 5 eexists. split_and!; vm_compute; reflexivity.
Qed.

(** ** The example run is a run *)

Ltac advance H stp :=
  eapply reachable_step in H;
  [|eapply stp; try (vm_compute; reflexivity)].

Lemma twoAlices_reachable : reachable twoAlices.
Proof.
  assert (reachable (NewGameServer false false)) as H by constructor.
  advance H (step_join 1%nat "alice"%string [] "g1"%string 0).
  advance H (step_join 2%nat "bob"%string [] "g1"%string 0).
  advance H (step_move 1 0%nat 0%nat 0).
  advance H (step_join 3%nat "alice"%string [("g1"%string, 0%nat)] "g2"%string 0).
  advance H (step_join 4%nat "carol"%string [("g1"%string, 0%nat)] "g2"%string 0).
  advance H (step_move 2 1%nat 2%nat 0).
  advance H (step_disconnect 0%nat 0%nat).
  advance H (step_disconnect 2%nat 1%nat).
  exact H.
Qed.

(** ** The seats invariant *)

Lemma coloredSeats_valid ps game l :
  coloredSeats ps game -> Player1 game = Some l \/ Player2 game = Some l ->
  exists x, ps !! l = Some x /\ (PlayerColor x = Red \/ PlayerColor x = Yellow).
Proof.
  intros (l1 & l2 & x1 & x2 & H1 & H2 & _ & Hx1 & Hx2 & Hc1 & Hc2) [H|H].
  - assert (l = l1) as -> by congruence. eauto.
  - assert (l = l2) as -> by congruence. eauto.
Qed.

(** A player without a seat may change at will. *)
Lemma seatsInv_unseated ps gs q l x :
  seatsInv ps gs q -> unseated gs l -> seatsInv (<[l := x]> ps) gs q.
Proof.
  intros (Hseats & Hq & Hlen) Hfree. split_and!; [| |done].
  - intros g game Hg.
    destruct (Hseats g game Hg)
      as (l1 & l2 & x1 & x2 & H1 & H2 & Hne & Hx1 & Hx2 & Hc1 & Hc2).
    destruct (Hfree g game Hg) as [Hn1 Hn2].
    exists l1, l2, x1, x2. split_and!; try done.
    + rewrite lookup_insert_ne; [done|]. intros ->. congruence.
    + rewrite lookup_insert_ne; [done|]. intros ->. congruence.
  - intros l' Hl'. destruct (Hq l' Hl') as [Hsome Hun]. split; [|done].
    rewrite lookup_insert. case_decide; [done|done].
Qed.

(** A player may change as long as the color stays. *)
Lemma seatsInv_same_color ps gs q l x x' :
  seatsInv ps gs q -> ps !! l = Some x -> PlayerColor x' = PlayerColor x ->
  seatsInv (<[l := x']> ps) gs q.
Proof.
  intros (Hseats & Hq & Hlen) Hl Hc. split_and!; [| |done].
  - intros g game Hg.
    destruct (Hseats g game Hg)
      as (l1 & l2 & x1 & x2 & H1 & H2 & Hne & Hx1 & Hx2 & Hc1 & Hc2).
    destruct (decide (l1 = l)) as [->|Hn1]; destruct (decide (l2 = l)) as [->|Hn2];
      [done| | |].
    + exists l, l2, x', x2. rewrite lookup_insert_eq, lookup_insert_ne by done.
      split_and!; try done. congruence.
    + exists l1, l, x1, x'. rewrite lookup_insert_eq, lookup_insert_ne by done.
      split_and!; try done. congruence.
    + exists l1, l2, x1, x2. rewrite !lookup_insert_ne by done. done.
  - intros l' Hl'. destruct (Hq l' Hl') as [Hsome Hun]. split; [|done].
    rewrite lookup_insert. case_decide; [done|done].
Qed.

(** A game object may change as long as the seats stay. *)
Lemma seatsInv_same_seats ps gs q g game x :
  seatsInv ps gs q -> gs !! g = Some game ->
  Player1 x = Player1 game -> Player2 x = Player2 game ->
  seatsInv ps (<[g := x]> gs) q.
Proof.
  intros (Hseats & Hq & Hlen) Hg E1 E2. split_and!; [| |done].
  - intros g' game'. rewrite lookup_insert. case_decide as Hd.
    + intros [= <-]. unfold coloredSeats. rewrite E1, E2. by apply (Hseats g).
    + apply Hseats.
  - intros l Hl. destruct (Hq l Hl) as [Hsome Hun]. split; [done|].
    intros g' game'. rewrite lookup_insert. case_decide as Hd.
    + intros [= <-]. rewrite E1, E2. by apply (Hun g).
    + apply Hun.
Qed.

(** A new game between two colored players without seats, once nobody
    waits. *)
Lemma seatsInv_new_game ps gs g game :
  seatsInv ps gs [] -> coloredSeats ps game ->
  seatsInv ps (<[g := game]> gs) [].
Proof.
  intros (Hseats & Hq & Hlen) Hgame. split_and!; [| |done].
  - intros g' game'. rewrite lookup_insert. case_decide as Hd.
    + by intros [= <-].
    + apply Hseats.
  - intros l Hl. by apply elem_of_nil in Hl.
Qed.

Lemma seatsInv_queue_nil ps gs q : seatsInv ps gs q -> seatsInv ps gs [].
Proof.
  intros (Hseats & _ & _). split_and!; [done| |simpl; lia].
  intros l Hl. by apply elem_of_nil in Hl.
Qed.

Lemma seatsInv_queue_singleton ps gs l :
  seatsInv ps gs [] -> is_Some (ps !! l) -> unseated gs l ->
  seatsInv ps gs [l].
Proof.
  intros (Hseats & _ & _) Hl Hun. split_and!; [done| |simpl; lia].
  by intros l' ->%list_elem_of_singleton.
Qed.

(** A location the heap does not hold has no seat. *)
Lemma unseated_fresh ps gs q l :
  seatsInv ps gs q -> ps !! l = None -> unseated gs l.
Proof.
  intros (Hseats & _ & _) Hl g game Hg.
  split; intros H.
  - destruct (coloredSeats_valid ps game l) as (x & Hx & _); [eauto..|congruence].
  - destruct (coloredSeats_valid ps game l) as (x & Hx & _); [eauto..|congruence].
Qed.

Lemma fresh_players_None (ps : gmap nat Player) : ps !! fresh (dom ps) = None.
Proof. apply not_elem_of_dom, is_fresh. Qed.

Lemma fresh_games_None (gs : gmap nat GameState) : gs !! fresh (dom gs) = None.
Proof. apply not_elem_of_dom, is_fresh. Qed.

Lemma goodSeats_extends (w w' : World) :
  extends w w' -> goodSeats w -> goodSeats w'.
Proof. by intros [evs ->]. Qed.

Lemma goodSeats_updatesGame (w : World) (g : loc) (game x : GameState) (w' : World) :
  updatesGame w g x w' -> gameObjs w !! g = Some game ->
  Player1 x = Player1 game -> Player2 x = Player2 game ->
  goodSeats w -> goodSeats w'.
Proof.
  intros [evs ->] Hg E1 E2 H. unfold goodSeats. simpl.
  by eapply seatsInv_same_seats.
Qed.

Lemma seats_afterMove game color now b1 wins :
  Player1 (afterMove game color now b1 wins) = Player1 game /\
  Player2 (afterMove game color now b1 wins) = Player2 game.
Proof.
  unfold afterMove. destruct wins; [done|]. by destruct (isBoardFull _).
Qed.

Lemma seats_afterBotMove game now b1 wins :
  Player1 (afterBotMove game now b1 wins) = Player1 game /\
  Player2 (afterBotMove game now b1 wins) = Player2 game.
Proof.
  unfold afterBotMove. destruct wins; [done|]. by destruct (isBoardFull _).
Qed.

Lemma handleMove_goodSeats now g p col w w' :
  handleMove now g p col w = Some (tt, w') -> goodSeats w -> goodSeats w'.
Proof.
  intros [Hext|(game & player & row & b1 & wins & Hg & _ & _ & _ & _ & _ & _ &
                _ & _ & Hupd)]%handleMove_inv.
  - by apply goodSeats_extends.
  - eapply goodSeats_updatesGame; [done..|apply seats_afterMove|apply seats_afterMove].
Qed.

Lemma makeBotMove_goodSeats now g w w' :
  makeBotMove now g w = Some (tt, w') -> goodSeats w -> goodSeats w'.
Proof.
  intros [Hext|(game & col & row & b1 & wins & Hg & _ & _ & _ & _ & _ & _ &
                _ & Hupd)]%makeBotMove_inv.
  - by apply goodSeats_extends.
  - eapply goodSeats_updatesGame;
      [done..|apply seats_afterBotMove|apply seats_afterBotMove].
Qed.

Lemma forfeitTimerFire_goodSeats now p g w w' :
  forfeitTimerFire now p g w = Some (tt, w') -> goodSeats w -> goodSeats w'.
Proof.
  intros [->|(player & game & o & opponent & _ & Hg & _ & _ & _ & _ & Hupd)]
         %forfeitTimerFire_inv; [done|].
  by eapply goodSeats_updatesGame.
Qed.

Lemma handleDisconnect_inv (p g : loc) (w w' : World) :
  handleDisconnect p g w = Some (tt, w') ->
  exists player,
    players w !! p = Some player /\
    extends (set_players w (<[p := set_Disconnected player true]> (players w))) w'.
Proof.
  unfold handleDisconnect.
  unfold mbind at 1 2, M_bind at 1 2, bind at 1 2, getPlayer, setPlayer.
  destruct (players w !! p) as [player|]; [|done].
  intros H. exists player. split; [done|]. revert H.
  apply respects_bind; try frame_extends.
  { apply respects_getGame; frame_extends. }
  intros game. apply respects_bind; try frame_extends.
  - destruct (getOpponent game p); [|apply respects_ret; frame_extends].
    apply respects_bind; try frame_extends.
    + intros w0 a w1 H0. cbv beta in H0.
      destruct (players w0 !! _); [|done]. injection H0 as _ <-.
      apply extends_refl.
    + intros o. apply sendIfConn_extends.
  - intros _. apply respects_emit; frame_extends.
Qed.

Lemma handleDisconnect_goodSeats p g w w' :
  handleDisconnect p g w = Some (tt, w') -> goodSeats w -> goodSeats w'.
Proof.
  intros (player & Hp & Hext)%handleDisconnect_inv H.
  eapply goodSeats_extends; [done|]. unfold goodSeats. simpl.
  by eapply seatsInv_same_color.
Qed.

(** ** What a returning [createGame] did *)

Lemma createGame_inv (gameID : string) (now : Z) (p1 p2 : loc) (isBot : bool)
      (w : World) (g : loc) (w' : World) :
  createGame gameID now p1 p2 isBot w = Some (g, w') -> p1 <> p2 ->
  exists x1 x2,
    players w !! p1 = Some x1 /\ players w !! p2 = Some x2 /\
    g = fresh (dom (gameObjs w)) /\
    gameObjs w' = <[g := mkGameState gameID emptyBoard (Some p1) (Some p2) Red ""
                                     now None isBot]> (gameObjs w) /\
    players w' = <[p2 := set_PlayerColor x2 Yellow]>
                   (<[p1 := set_PlayerColor x1 Red]> (players w)) /\
    waitingPlayers w' = waitingPlayers w.
Proof.
  intros H Hne.
  destruct (players w !! p1) as [x1|] eqn:H1; cycle 1.
  { unfold createGame, mbind, M_bind, bind, getPlayer in H. by rewrite H1 in H. }
  destruct (players w !! p2) as [x2|] eqn:H2; cycle 1.
  { unfold createGame, mbind, M_bind, bind, getPlayer, setPlayer in H.
    rewrite H1 in H. simpl in H. rewrite lookup_insert_ne in H by done.
    by rewrite H2 in H. }
  destruct (createGame_spec gameID now p1 p2 isBot w x1 x2 H1 H2 Hne)
    as (w0 & Hrun & Hobjs & Hplayers & _ & Hqueue & _).
  rewrite Hrun in H. injection H as <- <-.
  exists x1, x2. split_and!; done.
Qed.

Lemma coloredSeats_new (ps : gmap nat Player) gameID now p1 p2 isBot x1 x2 :
  p1 <> p2 ->
  coloredSeats (<[p2 := set_PlayerColor x2 Yellow]>
                  (<[p1 := set_PlayerColor x1 Red]> ps))
               (mkGameState gameID emptyBoard (Some p1) (Some p2) Red "" now
                            None isBot).
Proof.
  intros Hne. exists p1, p2, (set_PlayerColor x1 Red), (set_PlayerColor x2 Yellow).
  rewrite lookup_insert_ne by done. rewrite !lookup_insert_eq. split_and!; done.
Qed.

(** [createGame] between two players without seats, once nobody waits. *)
Lemma createGame_goodSeats gameID now p1 p2 isBot w g w' :
  createGame gameID now p1 p2 isBot w = Some (g, w') -> p1 <> p2 ->
  waitingPlayers w = [] ->
  unseated (gameObjs w) p1 -> unseated (gameObjs w) p2 ->
  goodSeats w -> goodSeats w'.
Proof.
  intros Hrun Hne Hq Hun1 Hun2 H.
  apply createGame_inv in Hrun
    as (x1 & x2 & H1 & H2 & -> & Hobjs & Hplayers & Hqueue); [|done].
  unfold goodSeats in *. rewrite Hobjs, Hplayers, Hqueue, Hq in *.
  apply seatsInv_new_game; [|by apply coloredSeats_new].
  apply seatsInv_unseated; [|done]. by apply seatsInv_unseated.
Qed.

Lemma sendGameState_extends (g : loc) : respects extends (sendGameState g).
Proof. apply respects_sendGameState; frame_extends. Qed.

Lemma reattach_inv (w : World) (g seat p : loc) (s player : Player) (w' : World) :
  reattach g (Some seat) p w = Some (tt, w') ->
  players w !! seat = Some s -> players w !! p = Some player -> p <> seat ->
  extends (set_players w (reattachedPlayers w seat p s player)) w'.
Proof.
  intros H Hs Hp Hne. revert H.
  unfold reattach, mbind, M_bind, bind, getPlayer, setPlayer.
  rewrite Hp, Hs. simpl. rewrite lookup_insert_eq. simpl.
  rewrite insert_insert_eq, lookup_insert_eq. simpl.
  rewrite lookup_insert_ne by done. rewrite Hp.
  apply sendGameState_extends.
Qed.

Lemma goodSeats_seated (w : World) (g : loc) (game : GameState) :
  goodSeats w -> gameObjs w !! g = Some game -> seated w g.
Proof.
  intros (Hseats & _) Hg.
  destruct (Hseats g game Hg) as (l1 & l2 & x1 & x2 & H1 & H2 & _ & Hx1 & Hx2 & _).
  by exists game, l1, l2, x1, x2.
Qed.

Lemma goodSeats_reattached (w : World) (seat p : loc) (s player : Player) :
  goodSeats w -> players w !! seat = Some s -> unseated (gameObjs w) p ->
  goodSeats (set_players w (reattachedPlayers w seat p s player)).
Proof.
  intros H Hs Hun. unfold goodSeats, reattachedPlayers. simpl.
  apply seatsInv_unseated; [|done]. by eapply seatsInv_same_color.
Qed.

(** The rejoin loop of a joiner without a seat: it changes nothing when it
    falls through, and keeps the seats invariant and the queue when it
    reattaches. *)
Lemma rejoinLoop_goodSeats (w : World) (p : loc) (player : Player)
      (gs : list loc) (r : option loc) (w' : World) :
  players w !! p = Some player -> unseated (gameObjs w) p -> goodSeats w ->
  rejoinLoop p gs w = Some (r, w') ->
  (r = None /\ w' = w) \/
  (is_Some r /\ goodSeats w' /\ waitingPlayers w' = waitingPlayers w).
Proof.
  intros Hp Hun Hgood. induction gs as [|g rest IH].
  - intros [= <- <-]. by left.
  - destruct (gameObjs w !! g) as [game|] eqn:Hg; cycle 1.
    { cbn [rejoinLoop]. unfold mbind, M_bind, bind, getGame. by rewrite Hg. }
    destruct (rejoinLoop_cons w p g rest player)
      as [[_ ->]|(seat & Hocc & ->)]; [by eapply goodSeats_seated|done|done|].
    destruct Hocc as (game' & s & Hg' & _ & Hseat & Hs & _).
    assert (p <> seat) as Hne.
    { intros ->. destruct (Hun g game' Hg'). destruct Hseat; congruence. }
    unfold mbind, M_bind, bind.
    destruct (reattach g (Some seat) p w) as [[[] w1]|] eqn:Hre; [|done].
    intros [= <- <-]. right.
    apply (reattach_inv w g seat p s player) in Hre; [|done..].
    split; [done|]. split.
    + eapply goodSeats_extends; [done|]. by apply goodSeats_reattached.
    + by rewrite (extends_sameQueue _ _ Hre).
Qed.

Lemma matchPlayer_goodSeats (order : list (string * loc)) (gameID : string)
      (now : Z) (p : loc) (w : World) (player : Player) (r : option loc)
      (w' : World) :
  players w !! p = Some player -> unseated (gameObjs w) p ->
  p ∉ waitingPlayers w -> goodSeats w ->
  matchPlayer order gameID now p w = Some (r, w') -> goodSeats w'.
Proof.
  intros Hp Hun Hnq Hgood.
  unfold matchPlayer. unfold mbind at 1, M_bind at 1, bind at 1.
  destruct (rejoinLoop p (order.*2) w) as [[r1 w1]|] eqn:Hloop; [|done].
  destruct (rejoinLoop_goodSeats w p player _ _ _ Hp Hun Hgood Hloop)
    as [[-> ->]|([g ->] & Hgood1 & Hq1)]; [|by intros [= _ <-]].
  unfold mbind at 1, M_bind at 1, bind at 1, getWorld.
  destruct (waitingPlayers w) as [|opponent rest] eqn:Hq.
  - unfold mbind, M_bind, bind, getPlayer, lift, emit, ret. simpl.
    rewrite Hp. destruct (Conn player) as [c|]; [|done].
    intros [= _ <-]. unfold goodSeats. simpl. rewrite Hq. simpl.
    apply seatsInv_queue_singleton; [|by rewrite Hp|done].
    eapply seatsInv_queue_nil. exact Hgood.
  - unfold mbind at 1, M_bind at 1, bind at 1.
    unfold mbind at 1, M_bind at 1, bind at 1.
    destruct (createGame _ _ _ _ _ _) as [[g w2]|] eqn:Hcreate; [|done].
    intros [= _ <-].
    pose proof Hgood as (_ & Hqueue & Hlen). rewrite Hq in Hqueue, Hlen.
    destruct (Hqueue opponent) as [Hvalid Hunopp]; [left|].
    assert (rest = []) as -> by (destruct rest; [done|simpl in Hlen; lia]).
    eapply createGame_goodSeats; [exact Hcreate| |done|done|done|].
    + intros ->. apply Hnq. left.
    + unfold goodSeats. simpl. eapply seatsInv_queue_nil. exact Hgood.
Qed.

Lemma handleJoin_goodSeats conn username order gameID now w r w' :
  handleJoin conn username order gameID now w = Some (r, w') ->
  goodSeats w -> goodSeats w'.
Proof.
  unfold handleJoin, mbind, M_bind, bind, allocPlayer.
  destruct (matchPlayer _ _ _ _ _) as [[g w1]|] eqn:Hmatch; [|done].
  intros [= _ <-] Hgood.
  pose proof (fresh_players_None (players w)) as Hfresh.
  assert (unseated (gameObjs w) (fresh (dom (players w)))) as Hun.
  { by eapply unseated_fresh. }
  eapply matchPlayer_goodSeats; [| | | |exact Hmatch].
  - simpl. apply lookup_insert_eq.
  - done.
  - simpl. intros Hin. destruct Hgood as (_ & Hq & _).
    destruct (Hq _ Hin) as [[x Hx] _]. congruence.
  - unfold goodSeats. simpl. by apply seatsInv_unseated.
Qed.

Lemma botTimerFire_goodSeats gameID now p w w' :
  botTimerFire gameID now p w = Some (tt, w') -> goodSeats w -> goodSeats w'.
Proof.
  unfold botTimerFire. unfold mbind at 1, M_bind at 1, bind at 1, getWorld.
  destruct (list_find _ _) as [[i q]|] eqn:Hfind; [|by intros [= <-]].
  apply list_find_Some in Hfind as (Hi & -> & _).
  unfold mbind at 1, M_bind at 1, bind at 1.
  unfold mbind at 1, M_bind at 1, bind at 1, allocPlayer.
  unfold mbind at 1, M_bind at 1, bind at 1.
  destruct (createGame _ _ _ _ _ _) as [[g w2]|] eqn:Hcreate; [|done].
  intros [= <-] Hgood.
  pose proof Hgood as (_ & Hqueue & Hlen).
  destruct (Hqueue p) as [[x Hx] Hunp]; [by eapply list_elem_of_lookup_2|].
  assert (delete i (waitingPlayers w) = []) as Hnil.
  { apply nil_length_inv. rewrite length_delete by eauto. lia. }
  rewrite Hnil in Hcreate. simpl in Hcreate.
  pose proof (fresh_players_None (players w)) as Hfresh.
  eapply createGame_goodSeats; [exact Hcreate| |done| | |].
  - intros E. rewrite E in Hx. congruence.
  - done.
  - simpl. by eapply unseated_fresh.
  - unfold goodSeats. simpl. apply seatsInv_unseated.
    + eapply seatsInv_queue_nil. exact Hgood.
    + by eapply unseated_fresh.
Qed.

Lemma step_goodSeats (w w' : World) : step w w' -> goodSeats w -> goodSeats w'.
Proof.
  intros [conn username order gameID now w0 r w1 Hperm H
         |now g p col w0 w1 H|now g w0 w1 H|gameID now p w0 w1 H
         |p g w0 w1 H|now p g w0 w1 H].
  - by eapply handleJoin_goodSeats.
  - by eapply handleMove_goodSeats.
  - by eapply makeBotMove_goodSeats.
  - by eapply botTimerFire_goodSeats.
  - by eapply handleDisconnect_goodSeats.
  - by eapply forfeitTimerFire_goodSeats.
Qed.

Lemma reachable_goodSeats (w : World) : reachable w -> goodSeats w.
Proof.
  induction 1 as [db kafka|w w' _ IH Hstep].
  - split_and!; simpl; [|by intros l ?%elem_of_nil|lia].
    intros g game H. by rewrite lookup_empty in H.
  - by eapply step_goodSeats.
Qed.


(** * The claims *)

(** C1. On a 6x7 board, for a cell that holds a non-empty color,
    [checkWinner] returns, and it returns true exactly when one of the four
    axes through the cell (horizontal, vertical, the two diagonals) has at
    least four contiguous cells of that color with the cell among them; a
    run never leaves the grid. *)
Theorem checkWinner_iff_four_in_line (game : GameState) (row col : Z) (color : Color) :
  wfGrid (Board game) ->
  cell (Board game) row col = Some color ->
  color <> Empty ->
  exists w, checkWinner game row col = Some w /\
            (w = true <-> fourInLine (Board game) color row col).
Proof.
  intros Hwf Hcell Hne. unfold checkWinner. rewrite Hcell.
  destruct (String.eqb_spec color Empty) as [|_]; [done|].
  apply checkDirections_axes; [done|].
  split; [|done]. by eapply cell_Some_inGrid.
Qed.

Lemma checkWinner_iff_four_in_line_witness :
  exists w, checkWinner (exampleGame lineBoard Yellow "") 5 3 = Some w /\
            (w = true <-> fourInLine lineBoard Red 5 3).
Proof.
  apply (checkWinner_iff_four_in_line (exampleGame lineBoard Yellow "") 5 3 Red).
  - apply wfGrid_check; reflexivity.
  - reflexivity.
  - discriminate.
Defined.

(** C2. In a game in progress, for the player whose turn it is:
    a move into a column of the board that has an empty cell writes the disc
    at the lowest empty cell of the column (empty, with only discs below it)
    and changes no other cell: after the move that cell holds the side of the
    mover, every other cell holds what it held, the board is still 6x7, and
    if it had gravity it has gravity.  A move into a full column returns with
    the world as it was, up to the error message sent: the game object and
    its board are not touched.  A column index off the board changes nothing
    at all.  And along every run of the server every board keeps gravity:
    the discs of a column sit on one another from the bottom row up. *)
Theorem handleMove_places_at_lowest_empty (now : Z) (w : World) (g p : loc)
        (col : Z) (game : GameState) (player : Player) :
  gameObjs w !! g = Some game -> players w !! p = Some player ->
  seated w g -> wfGrid (Board game) ->
  Winner game = ""%string -> PlayerColor player = CurrentPlayer game ->
  (0 <= col < COLS -> (exists r, cell (Board game) r col = Some Empty) ->
   exists row w' game',
     lowestEmpty (Board game) col row /\
     handleMove now g p col w = Some (tt, w') /\
     gameObjs w' !! g = Some game' /\
     setCell (Board game) row col (PlayerColor player) = Some (Board game') /\
     cell (Board game') row col = Some (PlayerColor player) /\
     (forall r c, r <> row \/ c <> col ->
        cell (Board game') r c = cell (Board game) r c) /\
     wfGrid (Board game') /\
     (PlayerColor player <> Empty -> gravity (Board game) ->
      gravity (Board game'))) /\
  (0 <= col < COLS -> (forall r, 0 <= r < ROWS -> filled (Board game) r col) ->
   exists w',
     handleMove now g p col w = Some (tt, w') /\ extends w w' /\
     gameObjs w' !! g = Some game /\
     forall c, Conn player = Some c ->
               trace w' = trace w ++ [WriteJSON c (errorMessage "Column is full")]) /\
  (~ 0 <= col < COLS -> handleMove now g p col w = Some (tt, w)) /\
  (forall w0 g0 game0,
     reachable w0 -> gameObjs w0 !! g0 = Some game0 ->
     wfGrid (Board game0) /\ gravity (Board game0)).
Proof.
  intros Hg Hp Hseat Hwf Hw Hturn. split_and!.
  - intros Hcol [r Hcell].
    destruct (handleMove_accepted_spec now w g p col game player r)
      as (row & b1 & wins & w' & Hlow & Hb1 & _ & Hmove & Hupd); try done.
    exists row, w', (afterMove game (PlayerColor player) now b1 wins).
    rewrite Board_afterMove.
    split_and!; [done|done|by eapply updatesGame_lookup|done| | | |].
    + by eapply cell_setCell_eq.
    + intros r0 c0 Hother. by eapply cell_setCell_ne.
    + by eapply setCell_wfGrid.
    + intros Hside Hgrav. by eapply gravity_setCell.
  - intros Hcol Hfull.
    destruct (lowestEmptyRow_total _ col Hwf Hcol) as [row Hrow].
    pose proof Hrow as [[-> _]|(Hr & Hc & _)]%lowestEmptyRow_spec.
    + rewrite (handleMove_column_full now w g p col game player) by done.
      destruct (Conn player) as [c|]; simpl.
      * eexists. split; [done|]. split; [apply extends_set_trace|].
        split; [done|]. by intros c' [= <-].
      * exists w. split; [done|]. split; [apply extends_refl|done].
    + destruct (Hfull row Hr) as (x & Hx & Hne). congruence.
  - intros Hcol. by apply (handleMove_invalid_column now w g p col game player).
  - intros w0 g0 game0 Hreach Hg0.
    destruct (reachable_goodGames w0 Hreach g0 game0 Hg0) as (? & ? & _). done.
Qed.

(** Red drops a disc into column 3 of [threeRedBoard]: it lands on the
    bottom row, the three discs next to it and every other cell stay. *)
Lemma handleMove_places_at_lowest_empty_witness :
  exists row w' game',
    lowestEmpty threeRedBoard 3 row /\
    handleMove 7 0%nat 0%nat 3 (exampleWorld threeRedBoard Red "") = Some (tt, w') /\
    gameObjs w' !! 0%nat = Some game' /\
    setCell threeRedBoard row 3 Red = Some (Board game') /\
    cell (Board game') row 3 = Some Red /\
    (forall r c, r <> row \/ c <> 3 ->
       cell (Board game') r c = cell threeRedBoard r c) /\
    wfGrid (Board game') /\
    (Red <> Empty -> gravity threeRedBoard -> gravity (Board game')).
Proof.
  refine (proj1 (handleMove_places_at_lowest_empty 7
                   (exampleWorld threeRedBoard Red "") 0%nat 0%nat 3
                   (exampleGame threeRedBoard Red "") alice _ _ _ _ _ _) _ _).
  - reflexivity.
  - reflexivity.
  - apply seated_exampleWorld.
  - apply wfGrid_check; reflexivity.
  - reflexivity.
  - reflexivity.
  - unfold COLS. lia.
  - exists 5. reflexivity.
Defined.

(** C3. On a 6x7 board [getBotMove] returns, leaves the game as it was, and
    its column follows the decision order: the leftmost column where yellow
    (the bot) would complete a line; else the leftmost column where red would;
    else column 3 if its top cell is empty; else the first of 2, 4, 1, 5, 0, 6
    whose top cell is empty; else -1.  When some column wins for yellow, the
    column returned wins for yellow, blocks notwithstanding. *)
Theorem getBotMove_decision_order (game : GameState) :
  wfGrid (Board game) ->
  exists c, getBotMove game = Some (c, game) /\
    botChoice (Board game) Yellow Red c /\
    ((exists col, 0 <= col < COLS /\ wouldWin (Board game) Yellow col) ->
     wouldWin (Board game) Yellow c).
Proof.
  intros Hwf. destruct (getBotMove_spec game Hwf) as (c & Hc & Hchoice).
  exists c. split; [done|]. split; [done|].
  intros (col & Hcol & Hwin). destruct Hchoice as [H|[Hnone _]].
  - by apply firstIn_elem in H as [_ H].
  - exfalso. apply (Hnone col); [by apply elem_of_columns|done].
Qed.

Lemma getBotMove_decision_order_witness :
  exists c, getBotMove (exampleGame winAndBlockBoard Yellow "")
            = Some (c, exampleGame winAndBlockBoard Yellow "") /\
    botChoice winAndBlockBoard Yellow Red c /\
    ((exists col, 0 <= col < COLS /\ wouldWin winAndBlockBoard Yellow col) ->
     wouldWin winAndBlockBoard Yellow c).
Proof.
  apply (getBotMove_decision_order (exampleGame winAndBlockBoard Yellow "")).
  apply wfGrid_check; reflexivity.
Defined.

(** The blocking position of [TestBotMove], and a position where the win is
    to the right of the block. *)
Example getBotMove_blocks :
  getBotMove (exampleGame threeRedBoard Yellow "")
  = Some (3, exampleGame threeRedBoard Yellow "").
Proof. reflexivity. Qed.

Example getBotMove_wins_before_blocking :
  getBotMove (exampleGame winAndBlockBoard Yellow "")
  = Some (4, exampleGame winAndBlockBoard Yellow "").
Proof. reflexivity. Qed.

(** C4. In a game in progress, a move by the player who holds the turn into
    a column of the board that has an empty cell is applied: the disc goes to
    the lowest empty cell, and then the game is won by the mover if the disc
    completes a line of four, else drawn if no empty cell remains, else still
    in progress with the turn passed to the other side.  Once the result is
    set, any move by anyone into any column returns with the world exactly
    as it was. *)
Theorem handleMove_transitions (now : Z) (w : World) (g p : loc) (col : Z)
        (game : GameState) (player : Player) :
  gameObjs w !! g = Some game -> players w !! p = Some player ->
  seated w g -> wfGrid (Board game) ->
  (Winner game = ""%string ->
   PlayerColor player = CurrentPlayer game ->
   CurrentPlayer game = Red \/ CurrentPlayer game = Yellow ->
   0 <= col < COLS -> (exists r, cell (Board game) r col = Some Empty) ->
   exists row b1 w' game',
     lowestEmpty (Board game) col row /\
     setCell (Board game) row col (PlayerColor player) = Some b1 /\
     handleMove now g p col w = Some (tt, w') /\
     gameObjs w' !! g = Some game' /\ Board game' = b1 /\
     (fourInLine b1 (PlayerColor player) row col ->
      Winner game' = PlayerColor player /\
      CurrentPlayer game' = CurrentPlayer game) /\
     (~ fourInLine b1 (PlayerColor player) row col -> boardFull b1 ->
      Winner game' = "draw"%string /\
      CurrentPlayer game' = CurrentPlayer game) /\
     (~ fourInLine b1 (PlayerColor player) row col -> ~ boardFull b1 ->
      Winner game' = ""%string /\
      (CurrentPlayer game = Red -> CurrentPlayer game' = Yellow) /\
      (CurrentPlayer game = Yellow -> CurrentPlayer game' = Red))) /\
  (Winner game <> ""%string ->
   forall now' p' col', is_Some (players w !! p') ->
     handleMove now' g p' col' w = Some (tt, w)).
Proof.
  intros Hg Hp Hseat Hwf. split.
  - intros Hw Hturn Hside Hcol [r Hcell].
    destruct (handleMove_accepted_spec now w g p col game player r)
      as (row & b1 & wins & w' & Hlow & Hb1 & Hwins & Hmove & Hupd); try done.
    assert (PlayerColor player <> Empty) as Hcolor.
    { rewrite Hturn. destruct Hside as [-> | ->]; discriminate. }
    assert (wfGrid b1) as Hwf1 by (by eapply setCell_wfGrid).
    destruct (checkWinner_axes (set_Board game b1) row col (PlayerColor player))
      as (wins' & Hwins' & Hiff); [done|by eapply cell_setCell_eq|done|].
    assert (wins' = wins) as -> by congruence. simpl in Hiff.
    pose proof (isBoardFull_spec (set_Board game b1) Hwf1) as Hfull.
    simpl in Hfull.
    destruct (afterMove_cases game (PlayerColor player) now b1 wins)
      as (Hwon & Hdraw & Hnext).
    exists row, b1, w', (afterMove game (PlayerColor player) now b1 wins).
    split_and!; try done.
    + by eapply updatesGame_lookup.
    + apply Board_afterMove.
    + intros Hfour. apply Hwon. by apply Hiff.
    + intros Hno Hall. apply Hdraw; [|by apply Hfull].
      destruct wins; [|done]. exfalso. by apply Hno, Hiff.
    + intros Hno Hroom.
      assert (wins = false) as Hf.
      { destruct wins; [|done]. exfalso. by apply Hno, Hiff. }
      assert (isBoardFull (set_Board game b1) = false) as Hnf.
      { destruct (isBoardFull (set_Board game b1)); [|done].
        exfalso. by apply Hroom, Hfull. }
      destruct (Hnext Hf Hnf) as [-> ->]. split; [done|].
      split; intros ->; reflexivity.
  - intros Hw now' p' col' [player' Hp'].
    by apply (handleMove_finished now' w g p' col' game player').
Qed.

(** Red drops the fourth disc of the bottom row and wins; the next move is
    not applied. *)
Lemma handleMove_transitions_witness :
  (exists row b1 w' game',
     lowestEmpty threeRedBoard 3 row /\
     setCell threeRedBoard row 3 Red = Some b1 /\
     handleMove 7 0%nat 0%nat 3 (exampleWorld threeRedBoard Red "") = Some (tt, w') /\
     gameObjs w' !! 0%nat = Some game' /\ Board game' = b1 /\
     (fourInLine b1 Red row 3 ->
      Winner game' = Red /\ CurrentPlayer game' = Red) /\
     (~ fourInLine b1 Red row 3 -> boardFull b1 ->
      Winner game' = "draw"%string /\ CurrentPlayer game' = Red) /\
     (~ fourInLine b1 Red row 3 -> ~ boardFull b1 ->
      Winner game' = ""%string /\
      (Red = Red -> CurrentPlayer game' = Yellow) /\
      (Red = Yellow -> CurrentPlayer game' = Red))) /\
  handleMove 8 0%nat 1%nat 4 (exampleWorld lineBoard Red "red")
  = Some (tt, exampleWorld lineBoard Red "red").
Proof.
  split.
  - refine (proj1 (handleMove_transitions 7 (exampleWorld threeRedBoard Red "")
                     0%nat 0%nat 3 (exampleGame threeRedBoard Red "") alice
                     _ _ _ _) _ _ _ _ _).
    + reflexivity.
    + reflexivity.
    + apply seated_exampleWorld.
    + apply wfGrid_check; reflexivity.
    + reflexivity.
    + reflexivity.
    + left. reflexivity.
    + unfold COLS. lia.
    + exists 5. reflexivity.
  - refine (proj2 (handleMove_transitions 0 (exampleWorld lineBoard Red "red")
                     0%nat 0%nat 0 (exampleGame lineBoard Red "red") alice
                     _ _ _ _) _ 8 1%nat 4 _).
    + reflexivity.
    + reflexivity.
    + apply seated_exampleWorld.
    + apply wfGrid_check; reflexivity.
    + discriminate.
    + exists bob. reflexivity.
Defined.

(** The third scenario of the specification, run on the model: red plays
    columns 0, 1, 2, 3 while yellow plays column 6; the fourth red disc ends
    the game. *)
Example scenario_red_wins_bottom_row :
  let play (c : Z) (p : loc) (w : option World) : option World :=
    match w with
    | Some w0 => snd <$> handleMove 0 0%nat p c w0
    | None => None
    end in
  let final :=
    play 3 0%nat (play 6 1%nat (play 2 0%nat (play 6 1%nat
      (play 1 0%nat (play 6 1%nat (play 0 0%nat
        (Some (exampleWorld emptyBoard Red ""))))))))
  in
  (Winner <$> (final ≫= fun w => gameObjs w !! 0%nat)) = Some Red /\
  (final ≫= play 4 1%nat ∘ Some) = final.
Proof. vm_compute. split; reflexivity. Qed.

(** C5, the failing input. It is red's turn, red (alice, connected) moves
    into column 7: the move is turned away and nothing is sent, the trace
    stays empty.  The same move out of turn is answered with an error
    message. *)
Theorem handleMove_invalid_column_sends_nothing :
  handleMove 0 0%nat 0%nat 7 (exampleWorld emptyBoard Red "")
  = Some (tt, exampleWorld emptyBoard Red "") /\
  trace (exampleWorld emptyBoard Red "") = [] /\
  Conn alice = Some 1%nat /\
  (trace <$> (snd <$> handleMove 0 0%nat 0%nat 7 (exampleWorld emptyBoard Yellow "")))
  = Some [WriteJSON 1%nat (errorMessage "Not your turn")].
Proof. split_and!; reflexivity. Qed.



(** C7, as the claim has it, fails when the identity occupies a disconnected
    seat in two sessions.  In [twoAlices], reached by joins, moves and
    disconnects, alice occupies the disconnected seat 0 of game 0 (g1) and
    the disconnected seat 2 of game 1 (g2), and neither game has a result.
    A join of alice is reattached to g1 when the runtime enumerates the
    registry as g1, g2 and to g2 when it enumerates it as g2, g1: for either
    session there is an enumeration under which the join is not reattached
    to it. *)
Lemma rejoin_two_sessions_counterexample :
  reachable twoAlices /\
  occupiesDisconnectedSeat twoAlices "alice" 0%nat 0%nat /\
  occupiesDisconnectedSeat twoAlices "alice" 1%nat 2%nat /\
  games twoAlices !! "g1"%string = Some 0%nat /\
  games twoAlices !! "g2"%string = Some 1%nat /\
  [("g1"%string, 0%nat); ("g2"%string, 1%nat)] ≡ₚ map_to_list (games twoAlices) /\
  [("g2"%string, 1%nat); ("g1"%string, 0%nat)] ≡ₚ map_to_list (games twoAlices) /\
  (fst <$> handleJoin 5 "alice" [("g1"%string, 0%nat); ("g2"%string, 1%nat)]
                      "g3" 9 twoAlices)
  = Some (4%nat, Some 0%nat) /\
  (fst <$> handleJoin 5 "alice" [("g2"%string, 1%nat); ("g1"%string, 0%nat)]
                      "g3" 9 twoAlices)
  = Some (4%nat, Some 1%nat).
Proof.
  split; [apply twoAlices_reachable|].
  split.
  { do 2 eexists. split_and!; try (vm_compute; reflexivity).
    left. vm_compute. reflexivity. }
  split.
  { do 2 eexists. split_and!; try (vm_compute; reflexivity).
    left. vm_compute. reflexivity. }
  split_and!; try (vm_compute; reflexivity).
  vm_compute. apply perm_swap.
Qed.

(** C7, amended. When the identity of the joining participant occupies a
    disconnected seat in some session of the registry that has no result, the
    join is a reattachment, whatever the waiting queue holds: to the first
    session, in the order in which the registry is enumerated, in which the
    identity occupies a disconnected seat, and so to that session when it is
    the only one.  The seat gets the connection of the joiner and is no
    longer marked disconnected, the state of the game is sent to that
    connection, and games (board, turn marker, result), registry, index and
    queue are as they were. *)
Theorem matchPlayer_reattaches (w : World) (order : list (string * loc))
        (gameID : string) (now : Z) (p : loc) (player : Player) :
  order ≡ₚ map_to_list (games w) ->
  players w !! p = Some player -> Disconnected player = false ->
  (forall id g, games w !! id = Some g -> seated w g) ->
  (exists id g, games w !! id = Some g /\ rejoinable w (Username player) g) ->
  exists id g seat game s w',
    games w !! id = Some g /\
    occupiesDisconnectedSeat w (Username player) g seat /\
    gameObjs w !! g = Some game /\ players w !! seat = Some s /\
    matchPlayer order gameID now p w = Some (Some g, w') /\
    players w' !! seat = Some (reattached s player) /\
    Conn (reattached s player) = Conn player /\
    Disconnected (reattached s player) = false /\
    gameObjs w' = gameObjs w /\ games w' = games w /\
    playerGames w' = playerGames w /\ waitingPlayers w' = waitingPlayers w /\
    (forall c, Conn player = Some c ->
       exists evs, trace w' = trace w ++ evs /\
         WriteJSON c (moveMessage (Board game) (CurrentPlayer game)) ∈ evs) /\
    (exists pre post,
       order.*2 = pre ++ g :: post /\
       forall g', g' ∈ pre -> ~ rejoinable w (Username player) g') /\
    (forall g0, (forall id' g', games w !! id' = Some g' ->
                   rejoinable w (Username player) g' -> g' = g0) ->
                g = g0).
Proof.
  intros Hperm Hp Hd Hseated (id0 & g0 & Hid0 & Hjoin0).
  assert (forall g, g ∈ order.*2 <-> exists id, games w !! id = Some g) as Hreg.
  { intros g. rewrite list_elem_of_fmap. split.
    - intros ([id g'] & -> & Hin). exists id.
      apply elem_of_map_to_list. by rewrite <- Hperm.
    - intros [id Hid]. exists (id, g). split; [done|].
      rewrite Hperm. by apply elem_of_map_to_list. }
  destruct (matchPlayer_rejoin w order gameID now p player)
    as (pre & g & post & seat & game & s & evs & Hgs & Hpre & Hocc & Hg & Hs &
        Hmatch & Hsent); try done.
  { intros g [id Hid]%Hreg. by eapply Hseated. }
  { exists g0. split; [|done]. apply Hreg. eauto. }
  assert (g ∈ order.*2) as [id Hid]%Hreg by (rewrite Hgs, elem_of_app; right; left).
  assert (p <> seat) as Hne.
  { intros ->. destruct Hocc as (? & ? & _ & _ & _ & ? & _ & ?). congruence. }
  eexists id, g, seat, game, s, _. split_and!; try done.
  - simpl. unfold reattachedPlayers.
    rewrite lookup_insert_ne by done. apply lookup_insert_eq.
  - intros c Hc. exists evs. split; [done|]. by apply Hsent.
  - by exists pre, post.
  - intros g1 Honly. apply (Honly id g Hid). by exists seat.
Qed.

Lemma matchPlayer_reattaches_witness :
  exists id g seat game s w',
    games aliceReturns !! id = Some g /\
    occupiesDisconnectedSeat aliceReturns "alice" g seat /\
    gameObjs aliceReturns !! g = Some game /\
    players aliceReturns !! seat = Some s /\
    matchPlayer [("g1"%string, 0%nat); ("g2"%string, 1%nat)] "g3" 9 4%nat
                aliceReturns = Some (Some g, w') /\
    players w' !! seat = Some (reattached s (mkPlayer "alice" "" (Some 5%nat) 9 false)) /\
    gameObjs w' = gameObjs aliceReturns /\
    waitingPlayers w' = waitingPlayers aliceReturns.
Proof.
  destruct (matchPlayer_reattaches aliceReturns
              [("g1"%string, 0%nat); ("g2"%string, 1%nat)] "g3"%string 9 4%nat
              (mkPlayer "alice" "" (Some 5%nat) 9 false))
    as (id & g & seat & game & s & w' & H1 & H2 & H3 & H4 & H5 & H6 & _ & _ &
        H7 & _ & _ & H8 & _).
  - vm_compute. reflexivity.
  - reflexivity.
  - reflexivity.
  - apply seated_aliceReturns.
  - exists "g1"%string, 0%nat. split; [reflexivity|].
    exists 0%nat. do 2 eexists. split_and!; try (vm_compute; reflexivity).
    left. vm_compute. reflexivity.
  - exists id, g, seat, game, s, w'. split_and!; done.
Defined.

(** C8. [canWin] hands the game back exactly as it got it, whatever the
    board, the column and the color: the cell it writes was empty and is
    empty again after the win check.  The same holds for the whole win-now
    scan and the whole block scan of [getBotMove].  On a 6x7 board and a
    column of the board [canWin] does return. *)
Theorem canWin_rolls_back (game : GameState) (col : Z) (color : Color) :
  (forall w game', canWin game col color = Some (w, game') -> game' = game) /\
  (forall cols r game',
     firstWinning game color cols = Some (r, game') -> game' = game) /\
  (wfGrid (Board game) -> 0 <= col < COLS ->
   exists w, canWin game col color = Some (w, game)).
Proof.
  split; [intros w game'; apply canWin_same_game|].
  split; [intros cols r game'; apply firstWinning_same_game|].
  intros Hwf Hcol.
  destruct (lowestEmptyRow_total _ col Hwf Hcol) as [row Hrow].
  assert (exists w game', canWin game col color = Some (w, game'))
    as (w & game' & Hcan).
  { unfold canWin. rewrite Hrow.
    destruct (Z.eqb_spec row (-1)); [eauto|].
    apply lowestEmptyRow_spec in Hrow as [[-> _]|(Hr & Hc & _)]; [done|].
    destruct (setCell_total _ _ _ _ color Hc) as [b1 Hb1]. rewrite Hb1.
    destruct (checkWinner_total (set_Board game b1) row col) as [wins ->].
    { by eapply setCell_wfGrid. }
    { by eapply cell_Some_inGrid. }
    simpl. rewrite (setCell_undo _ _ _ _ _ _ Hc Hb1). eauto. }
  exists w. rewrite Hcan. by rewrite (canWin_same_game _ _ _ _ _ Hcan).
Qed.

Lemma canWin_rolls_back_witness :
  exists w, canWin (exampleGame threeRedBoard Yellow "") 3 Red
            = Some (w, exampleGame threeRedBoard Yellow "").
Proof.
  apply (canWin_rolls_back (exampleGame threeRedBoard Yellow "") 3 Red).
  - apply wfGrid_check; reflexivity.
  - unfold COLS. lia.
Defined.

(** C9. Along every run of the server the waiting queue holds one
    participant at most, so no identity is in it twice, however often an
    identity joins.  A join that is not a rejoin and finds the queue
    non-empty opens a game between the head of the queue, who leaves the
    queue and gets the first seat, and the joiner; a join that finds the
    queue empty goes to its tail. *)
Theorem waitingPlayers_at_most_once :
  (forall w, reachable w ->
     (length (waitingPlayers w) <= 1)%nat /\ NoDup (queueNames w)) /\
  (forall order gameID now p opponent rest w player x,
     players w !! p = Some player ->
     (forall g, g ∈ order.*2 -> seated w g) ->
     (forall g, g ∈ order.*2 -> ~ rejoinable w (Username player) g) ->
     waitingPlayers w = opponent :: rest ->
     players w !! opponent = Some x -> opponent <> p ->
     exists g w' game,
       matchPlayer order gameID now p w = Some (Some g, w') /\
       gameObjs w' !! g = Some game /\
       Player1 game = Some opponent /\ Player2 game = Some p /\
       waitingPlayers w' = rest) /\
  (forall order gameID now p w player c,
     players w !! p = Some player -> Conn player = Some c ->
     (forall g, g ∈ order.*2 -> seated w g) ->
     (forall g, g ∈ order.*2 -> ~ rejoinable w (Username player) g) ->
     waitingPlayers w = [] ->
     exists w',
       matchPlayer order gameID now p w = Some (None, w') /\
       waitingPlayers w' = waitingPlayers w ++ [p]).
Proof.
  split_and!.
  - intros w Hreach. pose proof (reachable_queue w Hreach) as Hlen.
    split; [done|]. unfold queueNames.
    destruct (waitingPlayers w) as [|q [|q' rest]]; simpl in *;
      [constructor|apply NoDup_singleton|lia].
  - intros order gameID now p opponent rest w player x Hp Hs Hn Hq Hx Hne.
    destruct (matchPlayer_pairs order gameID now p opponent rest w player x)
      as (w' & Hmatch & Hg & Hrest); try done.
    eexists _, w', _. split_and!; try done.
  - intros order gameID now p w player c Hp Hc Hs Hn Hq.
    eexists. split; [by eapply matchPlayer_waits|]. simpl. by rewrite Hq.
Qed.

Lemma waitingPlayers_at_most_once_witness :
  ((length (waitingPlayers (NewGameServer false false)) <= 1)%nat /\
   NoDup (queueNames (NewGameServer false false))) /\
  exists g w' game,
    matchPlayer [] "g1" 0 1%nat bobArrives = Some (Some g, w') /\
    gameObjs w' !! g = Some game /\
    Player1 game = Some 0%nat /\ Player2 game = Some 1%nat /\
    waitingPlayers w' = [].
Proof.
  destruct waitingPlayers_at_most_once as (Hqueue & Hpair & _). split.
  - apply Hqueue. constructor.
  - apply (Hpair [] "g1"%string 0 1%nat 0%nat [] bobArrives
                 (mkPlayer "bob" "" (Some 2%nat) 0 false)
                 (mkPlayer "alice" "" (Some 1%nat) 0 false)).
    + reflexivity.
    + intros g Hg. by apply elem_of_nil in Hg.
    + intros g Hg. by apply elem_of_nil in Hg.
    + reflexivity.
    + reflexivity.
    + lia.
Defined.

(** Gravity is what ties the top cell to the row search.  On [floatingBoard],
    a 6x7 board without gravity that no play produces, the win-now scan
    returns column 0, whose top cell holds a red disc. *)
Example getBotMove_needs_gravity :
  wfGrid floatingBoard /\
  ~ gravity floatingBoard /\
  getBotMove (exampleGame floatingBoard Yellow "")
  = Some (0, exampleGame floatingBoard Yellow "") /\
  cell floatingBoard 0 0 = Some Red.
Proof.
  split; [apply wfGrid_check; reflexivity|].
  split; [|split; reflexivity].
  intros Hgrav. destruct (Hgrav 0 0) with (r' := 1) as (x & Hx & Hne).
  - exists Red. split; [reflexivity|discriminate].
  - unfold ROWS. lia.
  - injection Hx as <-. done.
Qed.

(** C10. In every state the server reaches, for every game in it:
    [getBotMove] returns; it returns -1 only when the top cell of every
    column is occupied, and then every column is full; and when it returns
    another column, that column is on the board, its top cell is empty, and
    the bottom-up row search on it finds a row, the lowest empty cell of the
    column, so the branch for row -1 is not taken.  And on every 6x7 board,
    reached or not: -1 is returned only when the top cell of every column is
    occupied, the row search finds an empty row in any other column
    returned, and the top cell of that column is empty if the board has
    gravity. *)
Theorem getBotMove_column_has_room (game : GameState) :
  (forall w g, reachable w -> gameObjs w !! g = Some game ->
   exists c, getBotMove game = Some (c, game) /\
     (c = -1 ->
      (forall col, 0 <= col < COLS -> filled (Board game) 0 col) /\
      boardFull (Board game)) /\
     (c <> -1 ->
      0 <= c < COLS /\ hasRoom (Board game) c /\
      exists row, lowestEmptyRow (Board game) c = Some row /\ row <> -1 /\
                  lowestEmpty (Board game) c row)) /\
  (wfGrid (Board game) ->
   exists c, getBotMove game = Some (c, game) /\
     (c = -1 -> forall col, 0 <= col < COLS -> filled (Board game) 0 col) /\
     (c <> -1 ->
      0 <= c < COLS /\
      exists row, lowestEmptyRow (Board game) c = Some row /\ row <> -1 /\
                  lowestEmpty (Board game) c row) /\
     (gravity (Board game) -> c <> -1 -> hasRoom (Board game) c)).
Proof.
  assert (wfGrid (Board game) ->
          exists c, getBotMove game = Some (c, game) /\
            (c = -1 -> forall col, 0 <= col < COLS -> filled (Board game) 0 col) /\
            (c <> -1 ->
             0 <= c < COLS /\
             exists row, lowestEmptyRow (Board game) c = Some row /\ row <> -1 /\
                         lowestEmpty (Board game) c row) /\
            (gravity (Board game) -> c <> -1 -> hasRoom (Board game) c)) as Hany.
  { intros Hwf. destruct (getBotMove_spec game Hwf) as (c & Hc & Hchoice).
    exists c. split; [done|].
    apply botChoice_cases in Hchoice as [[-> Hfull]|[Hcol Hwhy]].
    - split; [|split; [done|intros _ ?; done]].
      intros _ col Hcol. apply not_hasRoom_filled; auto.
    - assert (exists row, lowestEmpty (Board game) c row) as [row Hlow].
      { destruct Hwhy as [(row & b' & Hlow & _)|[(row & b' & Hlow & _)|Hroom]];
          [by exists row..|by apply hasRoom_lowestEmpty]. }
      split; [intros ->; lia|]. split.
      + intros _. split; [done|]. exists row.
        split; [by apply lowestEmpty_lowestEmptyRow|].
        split; [destruct Hlow as [? _]; lia|done].
      + intros Hgrav _. by eapply gravity_hasRoom. }
  split; [|exact Hany].
  intros w g Hreach Hg.
  destruct (reachable_goodGames w Hreach g game Hg) as (Hwf & Hgrav & _).
  destruct (Hany Hwf) as (c & Hc & Hnone & Hsome & Htop).
  exists c. split; [done|]. split.
  - intros Hminus. split; [by apply Hnone|].
    apply gravity_top_filled; [done..|]. by apply Hnone.
  - intros Hne. destruct (Hsome Hne) as (Hcol & row & Hrow).
    split; [done|]. split; [by apply Htop|]. by exists row.
Qed.

(** The game of alice and bob in [twoAlices], after the first disc, and
    the blocking position of [TestBotMove]. *)
Lemma getBotMove_column_has_room_witness :
  (exists c, getBotMove (exampleGame oneRedBoard Yellow "")
             = Some (c, exampleGame oneRedBoard Yellow "") /\
     (c = -1 ->
      (forall col, 0 <= col < COLS -> filled oneRedBoard 0 col) /\
      boardFull oneRedBoard) /\
     (c <> -1 ->
      0 <= c < COLS /\ hasRoom oneRedBoard c /\
      exists row, lowestEmptyRow oneRedBoard c = Some row /\ row <> -1 /\
                  lowestEmpty oneRedBoard c row)) /\
  (exists c, getBotMove (exampleGame threeRedBoard Yellow "")
             = Some (c, exampleGame threeRedBoard Yellow "") /\
     (c = -1 -> forall col, 0 <= col < COLS -> filled threeRedBoard 0 col) /\
     (c <> -1 ->
      0 <= c < COLS /\
      exists row, lowestEmptyRow threeRedBoard c = Some row /\ row <> -1 /\
                  lowestEmpty threeRedBoard c row) /\
     (gravity threeRedBoard -> c <> -1 -> hasRoom threeRedBoard c)).
Proof.
  split.
  - apply (proj1 (getBotMove_column_has_room (exampleGame oneRedBoard Yellow ""))
             twoAlices 0%nat).
    + apply twoAlices_reachable.
    + vm_compute. reflexivity.
  - apply (proj2 (getBotMove_column_has_room (exampleGame threeRedBoard Yellow ""))).
    apply wfGrid_check; reflexivity.
Defined.

(** * Scenarios *)

(** Two participants join in sequence: the second join opens a game at once,
    the first joiner is red and holds the first seat, red moves first. *)
Example scenario_two_joins :
  exists w',
    handleJoin 2 "bob" [] "g1" 0 aliceWaits = Some ((1%nat, Some 0%nat), w') /\
    gameObjs w' !! 0%nat
    = Some (mkGameState "g1" emptyBoard (Some 0%nat) (Some 1%nat) Red "" 0 None false) /\
    (PlayerColor <$> players w' !! 0%nat) = Some Red /\
    (PlayerColor <$> players w' !! 1%nat) = Some Yellow /\
    waitingPlayers w' = [].
Proof. eexists. split_and!; vm_compute; reflexivity. Qed.

(** A lone participant whose fallback timer fires plays the bot, which is
    yellow; a timer that fires after the pairing does nothing. *)
Example scenario_bot_fallback :
  (exists w',
     botTimerFire "g1" 10 0%nat aliceWaits = Some (tt, w') /\
     gameObjs w' !! 0%nat
     = Some (mkGameState "g1" emptyBoard (Some 0%nat) (Some 1%nat) Red "" 10 None true) /\
     players w' !! 1%nat = Some (mkPlayer "Bot" Yellow None 0 false) /\
     waitingPlayers w' = []) /\
  botTimerFire "g2" 10 0%nat (exampleWorld emptyBoard Red "")
  = Some (tt, exampleWorld emptyBoard Red "").
Proof. split; [eexists; split_and!; vm_compute; reflexivity|reflexivity]. Qed.

(** A seat that drops and stays away forfeits to the other seat; a seat that
    is back before the timer fires does not. *)
Example scenario_forfeit_and_return :
  let dropped := handleDisconnect 0%nat 0%nat (exampleWorld threeRedBoard Red "") in
  let forfeited := dropped ≫= fun r => forfeitTimerFire 30 0%nat 0%nat r.2 in
  let back :=
    dropped ≫= fun r =>
      (handleJoin 3 "alice" [("g1"%string, 0%nat)] "g2" 20) r.2 in
  let late := back ≫= fun r => forfeitTimerFire 30 0%nat 0%nat r.2 in
  (forfeited ≫= fun r => Winner <$> gameObjs r.2 !! 0%nat) = Some Yellow /\
  (back ≫= fun r => Winner <$> gameObjs r.2 !! 0%nat) = Some ""%string /\
  (snd <$> late) = (snd <$> back).
Proof. vm_compute. split_and!; reflexivity. Qed.

(** What the claims on disconnects leave open.  After a rejoin the connection
    handler holds a player object of its own (here 2), not the seat (0).  A
    second drop marks that object, so the seat is not marked disconnected and
    a further join under the name is not a rejoin; and since the object holds
    no seat, [getOpponent] answers with the first seat: when the timer fires
    the game goes to red, the side of the participant who left. *)
Example second_drop_forfeits_to_first_seat :
  reachable aliceDropsTwice /\
  (Disconnected <$> players aliceDropsTwice !! 0%nat) = Some false /\
  (Disconnected <$> players aliceDropsTwice !! 2%nat) = Some true /\
  (Username <$> players aliceDropsTwice !! 0%nat) = Some "alice"%string /\
  (PlayerColor <$> players aliceDropsTwice !! 0%nat) = Some Red /\
  (forfeitTimerFire 60 2%nat 0%nat aliceDropsTwice
     ≫= fun r => Winner <$> gameObjs r.2 !! 0%nat) = Some Red.
Proof.
  split; [|vm_compute; split_and!; reflexivity].
  assert (reachable (NewGameServer false false)) as H by constructor.
  advance H (step_join 1%nat "alice"%string [] "g1"%string 0).
  advance H (step_join 2%nat "bob"%string [] "g1"%string 0).
  advance H (step_disconnect 0%nat 0%nat).
  advance H (step_join 3%nat "alice"%string [("g1"%string, 0%nat)] "g2"%string 0).
  advance H (step_disconnect 2%nat 0%nat).
  exact H.
Qed.

(** * The rest of the server *)

(** ** Full boards *)

Lemma forallb_false_elem {A : Type} (f : A -> bool) (l : list A) :
  forallb f l = false -> exists (k : nat) x, l !! k = Some x /\ f x = false.
Proof.
  induction l as [|a l IH]; [done|]. simpl.
  destruct (f a) eqn:Ha; simpl.
  - intros (k & x & Hk & Hx)%IH. by exists (S k), x.
  - intros _. by exists 0%nat, a.
Qed.

Lemma isBoardFull_false (game : GameState) :
  wfGrid (Board game) -> isBoardFull game = false ->
  exists r c, inGrid r c /\ cell (Board game) r c = Some Empty.
Proof.
  intros Hwf (r & row & Hr & (c & x & Hc & Hx)%forallb_false_elem)%forallb_false_elem.
  assert (cell (Board game) (Z.of_nat r) (Z.of_nat c) = Some x) as Hcell.
  { unfold cell.
    assert (index (Board game) (Z.of_nat r) = Some row) as ->.
    { apply index_Some. split; [lia|]. by rewrite Nat2Z.id. }
    apply index_Some. split; [lia|]. by rewrite Nat2Z.id. }
  exists (Z.of_nat r), (Z.of_nat c). split; [by eapply cell_Some_inGrid|].
  destruct (String.eqb_spec x Empty); [congruence|done].
Qed.

Lemma boardFull_no_empty (b : Grid) (r c : Z) :
  boardFull b -> inGrid r c -> cell b r c = Some Empty -> False.
Proof. intros Hfull Hin Hc. destruct (Hfull r c Hin) as (x & Hx & Hne). congruence. Qed.

(** X1. On a 6x7 board [isBoardFull] answers true exactly when every cell of
    the grid holds a disc, and false exactly when some cell of the grid is
    empty. *)
Theorem isBoardFull_no_empty_cell (game : GameState) :
  wfGrid (Board game) ->
  (isBoardFull game = true <->
   forall r c, inGrid r c ->
     exists x, cell (Board game) r c = Some x /\ x <> Empty) /\
  (isBoardFull game = false <->
   exists r c, inGrid r c /\ cell (Board game) r c = Some Empty).
Proof.
  intros Hwf. split; [by apply isBoardFull_spec|]. split.
  - by apply isBoardFull_false.
  - intros (r & c & Hin & Hc).
    destruct (isBoardFull game) eqn:E; [|done]. exfalso.
    apply isBoardFull_spec in E; [|done]. by eapply boardFull_no_empty.
Qed.

Lemma isBoardFull_no_empty_cell_witness :
  (isBoardFull (exampleGame threeRedBoard Red "") = true <->
   forall r c, inGrid r c ->
     exists x, cell threeRedBoard r c = Some x /\ x <> Empty) /\
  (isBoardFull (exampleGame threeRedBoard Red "") = false <->
   exists r c, inGrid r c /\ cell threeRedBoard r c = Some Empty).
Proof.
  apply (isBoardFull_no_empty_cell (exampleGame threeRedBoard Red "")).
  apply wfGrid_check; reflexivity.
Defined.

Lemma boardFull_no_room (b : Grid) (col : Z) :
  boardFull b -> 0 <= col < COLS -> ~ hasRoom b col.
Proof.
  intros Hfull Hcol Hroom. eapply boardFull_no_empty; [done| |exact Hroom].
  split; [unfold ROWS; lia|done].
Qed.

Lemma boardFull_no_win (b : Grid) (side : Color) (col : Z) :
  wfGrid b -> boardFull b -> ~ wouldWin b side col.
Proof.
  intros Hwf Hfull (row & b' & (Hr & Hc & _) & _).
  eapply boardFull_no_empty; [done| |exact Hc]. by eapply cell_Some_inGrid.
Qed.



(** ** [isColumnAvailable] and the row search *)



(** ** [checkWinner] from any disc of a line *)

Lemma axisRun_shift (b : Grid) (color : Color) (row col dr dc lo hi j : Z) :
  4 <= hi - lo + 1 -> lo <= j <= hi ->
  (forall k, lo <= k <= hi -> holds b color (row + dr * k) (col + dc * k)) ->
  axisRun b color (row + dr * j) (col + dc * j) dr dc.
Proof.
  intros Hlen Hj Hrun. exists (lo - j), (hi - j). split_and!; [lia..|].
  intros k Hk.
  replace (row + dr * j + dr * k) with (row + dr * (j + k)) by lia.
  replace (col + dc * j + dc * k) with (col + dc * (j + k)) by lia.
  apply Hrun. lia.
Qed.

(** X4. A line of four is found from each of its discs: when at least four
    contiguous cells along one of the four directions of [checkWinner] hold
    the same color, [checkWinner] answers true at every cell of the run.  At
    an empty cell it answers false, and at a position off the 6x7 board the
    cell access panics. *)
Theorem checkWinner_from_any_disc (game : GameState) (row col : Z) (color : Color)
        (dr dc lo hi : Z) :
  wfGrid (Board game) ->
  (color <> Empty -> (dr, dc) ∈ directions -> 4 <= hi - lo + 1 ->
   (forall k, lo <= k <= hi ->
      holds (Board game) color (row + dr * k) (col + dc * k)) ->
   forall j, lo <= j <= hi ->
     checkWinner game (row + dr * j) (col + dc * j) = Some true) /\
  (cell (Board game) row col = Some Empty -> checkWinner game row col = Some false) /\
  (~ inGrid row col -> checkWinner game row col = None).
Proof.
  intros Hwf. split_and!.
  - intros Hcolor Hdir Hlen Hrun j Hj.
    pose proof (axisRun_shift _ _ _ _ _ _ _ _ j Hlen Hj Hrun) as Haxis.
    destruct (Hrun j Hj) as [_ Hcell].
    destruct (checkWinner_axes game _ _ color Hwf Hcell Hcolor) as (w & -> & Hw).
    f_equal. apply Hw. unfold directions in Hdir.
    rewrite !elem_of_cons in Hdir.
    destruct Hdir as [[= -> ->] | [[= -> ->] | [[= -> ->] | [[= -> ->] | Hnil]]]];
      [by left|by right; left|by right; right; left|by right; right; right|].
    by apply elem_of_nil in Hnil.
  - intros Hcell. unfold checkWinner. by rewrite Hcell.
  - intros Hout. unfold checkWinner.
    destruct (cell (Board game) row col) as [x|] eqn:Hcell; [|done].
    exfalso. apply Hout. by eapply cell_Some_inGrid.
Qed.

Lemma checkWinner_from_any_disc_witness :
  checkWinner (exampleGame lineBoard Yellow "") (5 + 0 * 0) (0 + 1 * 0) = Some true /\
  checkWinner (exampleGame lineBoard Yellow "") (5 + 0 * 3) (0 + 1 * 3) = Some true.
Proof.
  assert (forall j, 0 <= j <= 3 ->
            checkWinner (exampleGame lineBoard Yellow "") (5 + 0 * j) (0 + 1 * j)
            = Some true) as Hline.
  { apply (checkWinner_from_any_disc (exampleGame lineBoard Yellow "") 5 0 Red 0 1 0 3).
    - apply wfGrid_check; reflexivity.
    - discriminate.
    - unfold directions. apply elem_of_cons. by left.
    - lia.
    - intros k Hk. assert (k = 0 \/ k = 1 \/ k = 2 \/ k = 3) as Hk' by lia.
      destruct Hk' as [-> | [-> | [-> | ->]]];
        (split; [unfold inGrid, ROWS, COLS; lia|reflexivity]). }
  split; apply Hline; lia.
Defined.

(** ** The effects of a step, in order *)

Lemma emits_ret (w : World) : emits (ret tt) w [].
Proof. unfold emits, ret. by rewrite set_trace_id. Qed.

Lemma emits_emit (e : Event) (w : World) : emits (emit e) w [e].
Proof. done. Qed.

Lemma emits_sendIfConn (x : Player) (msg : Message) (w : World) :
  emits (sendIfConn (Conn x) msg) w (notify x msg).
Proof.
  unfold sendIfConn, notify. destruct (Conn x); [apply emits_emit|apply emits_ret].
Qed.

Lemma emits_seq (m1 m2 : M unit) (w : World) (e1 e2 : list Event) :
  emits m1 w e1 -> emits m2 (set_trace w (trace w ++ e1)) e2 ->
  emits (m1;; m2) w (e1 ++ e2).
Proof.
  unfold emits, mbind, M_bind, bind. intros -> ->. by rewrite set_trace_twice.
Qed.

Lemma emits_effectOnly (m : M unit) (w : World) (evs : list Event) :
  emits m w evs -> effectOnly m w.
Proof. intros H. by exists evs. Qed.

Lemma winnerUsername_draw (game : GameState) (x1 x2 : Player) :
  (let winner := if String.eqb (Winner game) "draw" then ""%string
                 else Winner game in
   if String.eqb winner "red" then Username x1
   else if String.eqb winner "yellow" then Username x2
   else ""%string) = winnerUsername game x1 x2.
Proof.
  unfold winnerUsername. simpl.
  destruct (String.eqb_spec (Winner game) "draw") as [->|]; done.
Qed.

Section Seated.
Variables (w : World) (g : loc) (game : GameState) (l1 l2 : loc) (x1 x2 : Player).
Hypothesis Hg : gameObjs w !! g = Some game.
Hypothesis H1 : Player1 game = Some l1.
Hypothesis Hx1 : players w !! l1 = Some x1.
Hypothesis H2 : Player2 game = Some l2.
Hypothesis Hx2 : players w !! l2 = Some x2.

Lemma emits_saveGame :
  emits (saveGame g) w
        (if db w then
           [DbInsert (ID game) (Username x1) (Username x2)
                     (winnerUsername game x1 x2)
                     (StartTime game) (EndTime game) (IsBot game)]
         else []).
Proof.
  unfold saveGame, emits, mbind, M_bind, bind, getWorld, getGame, getPlayer.
  destruct (db w); simpl; [|apply emits_ret].
  rewrite Hg, H1, Hx1, H2, Hx2. rewrite winnerUsername_draw. apply emits_emit.
Qed.

Lemma emits_broadcastMove : emits (broadcastMove g) w (moveEvents game x1 x2).
Proof.
  unfold broadcastMove, emits, mbind, M_bind, bind, getGame, getPlayer.
  rewrite Hg, H1, Hx1, emits_sendIfConn, H2. simpl. rewrite Hx2, emits_sendIfConn.
  by rewrite set_trace_twice.
Qed.

Lemma emits_sendKafkaGameEnd :
  emits (sendKafkaGameEnd game) w
        (if kafkaWriter w then [KafkaGameEnd (ID game) (Winner game) (IsBot game)]
         else []).
Proof.
  unfold sendKafkaGameEnd, emits, mbind, M_bind, bind, getWorld.
  destruct (kafkaWriter w); [apply emits_emit|apply emits_ret].
Qed.

Lemma emits_broadcastGameOver :
  emits (broadcastGameOver g) w
        (notify x1 (gameOverMessage (Board game) (Winner game)) ++
         notify x2 (gameOverMessage (Board game) (Winner game)) ++
         (if kafkaWriter w then [KafkaGameEnd (ID game) (Winner game) (IsBot game)]
          else [])).
Proof.
  unfold broadcastGameOver, emits, mbind, M_bind, bind, getGame, getPlayer.
  rewrite Hg, H1, Hx1, emits_sendIfConn, H2. simpl. rewrite Hx2, emits_sendIfConn.
  rewrite set_trace_twice.
  unfold sendKafkaGameEnd, mbind, M_bind, bind, getWorld. simpl.
  destruct (kafkaWriter w); unfold emit, ret; simpl;
    by rewrite <- ?app_assoc, ?app_nil_r.
Qed.
End Seated.

Lemma emits_finish (w : World) (g : loc) (game : GameState) (l1 l2 : loc)
      (x1 x2 : Player) :
  gameObjs w !! g = Some game ->
  Player1 game = Some l1 -> players w !! l1 = Some x1 ->
  Player2 game = Some l2 -> players w !! l2 = Some x2 ->
  emits (saveGame g;; broadcastGameOver g) w (gameOverEvents w game x1 x2).
Proof.
  intros Hg H1 Hx1 H2 Hx2.
  apply emits_seq; [by eapply emits_saveGame|].
  exact (emits_broadcastGameOver (set_trace w _) g game l1 l2 x1 x2
           Hg H1 Hx1 H2 Hx2).
Qed.

(** The events of an accepted move. *)
Lemma handleMove_effects (now : Z) (w : World) (g p : loc) (col : Z)
      (game : GameState) (player : Player) (l1 l2 : loc) (x1 x2 : Player)
      (row : Z) (b1 : Grid) (wins : bool) :
  gameObjs w !! g = Some game -> players w !! p = Some player ->
  Player1 game = Some l1 -> players w !! l1 = Some x1 ->
  Player2 game = Some l2 -> players w !! l2 = Some x2 ->
  Winner game = ""%string -> PlayerColor player = CurrentPlayer game ->
  0 <= col < COLS ->
  lowestEmptyRow (Board game) col = Some row -> row <> -1 ->
  setCell (Board game) row col (PlayerColor player) = Some b1 ->
  checkWinner (set_Board game b1) row col = Some wins ->
  let game' := afterMove game (PlayerColor player) now b1 wins in
  handleMove now g p col w
  = Some (tt, set_trace (set_gameObjs w (<[g := game']> (gameObjs w)))
                (trace w ++
                 if wins || isBoardFull (set_Board game b1)
                 then gameOverEvents w game' x1 x2
                 else moveEvents game' x1 x2 ++
                      if IsBot game' && String.eqb (CurrentPlayer game') Yellow
                      then [Go (BotMoveTask g)] else [])).
Proof.
  intros Hg Hp H1 Hx1 H2 Hx2 Hw Hturn Hcol Hrow Hrow1 Hb1 Hwins game'.
  unfold handleMove, mbind, M_bind, bind, getGame, getPlayer.
  rewrite Hg, Hp, Hw, Hturn, !String.eqb_refl. simpl.
  destruct ((col <? 0) || (col >=? COLS)) eqn:E; [unfold COLS in *; lia|].
  unfold lift. rewrite Hrow.
  destruct (Z.eqb_spec row (-1)); [done|].
  rewrite Hturn in Hb1. rewrite Hb1, Hwins.
  subst game'. unfold afterMove. rewrite Hturn.
  set (game1 := set_Board game b1).
  set (w1 := set_gameObjs w (<[g := game1]> (gameObjs w))).
  assert (forall x, set_gameObjs w1 (<[g := x]> (gameObjs w1))
                    = set_gameObjs w (<[g := x]> (gameObjs w))) as Hins.
  { intros x. unfold w1, set_gameObjs. simpl. by rewrite insert_insert_eq. }
  fold game1. fold w1.
  assert (forall x (w2 := set_gameObjs w (<[g := x]> (gameObjs w))),
            Player1 x = Player1 game -> Player2 x = Player2 game ->
            emits (saveGame g;; broadcastGameOver g) w2 (gameOverEvents w x x1 x2))
    as Hfinish.
  { intros x w2 E1 E2.
    apply (emits_finish w2 g x l1 l2 x1 x2);
      [apply lookup_insert_eq|congruence|done|congruence|done]. }
  destruct wins; [|destruct (isBoardFull game1)]; simpl; rewrite Hins.
  - by rewrite <- (Hfinish (set_EndTime (set_Winner game1 (CurrentPlayer game))
                                        (Some now))).
  - by rewrite <- (Hfinish (set_EndTime (set_Winner game1 "draw") (Some now))).
  - set (game2 := set_CurrentPlayer game1 (nextPlayer (CurrentPlayer game1))).
    set (w2 := set_gameObjs w _).
    rewrite (emits_broadcastMove w2 g game2 l1 l2 x1 x2);
      [|apply lookup_insert_eq|done..].
    destruct (IsBot game && _);
      unfold emit, ret; simpl; by rewrite <- ?app_assoc, ?app_nil_r.
Qed.

(** ** [makeBotMove], run forward *)

Section MakeBotMove.
Variables (now : Z) (w : World) (g : loc) (game : GameState).
Hypothesis Hg : gameObjs w !! g = Some game.

Lemma makeBotMove_finished :
  Winner game <> ""%string -> makeBotMove now g w = Some (tt, w).
Proof.
  intros Hw. unfold makeBotMove, mbind, M_bind, bind, getGame. rewrite Hg.
  by destruct (String.eqb_spec (Winner game) "").
Qed.

Lemma makeBotMove_no_column :
  Winner game = ""%string -> getBotMove game = Some (-1, game) ->
  makeBotMove now g w = Some (tt, w).
Proof.
  intros Hw Hbot. unfold makeBotMove, mbind, M_bind, bind, getGame, lift.
  rewrite Hg, Hw. simpl. rewrite Hbot. unfold setGame. simpl.
  by rewrite (set_gameObjs_id w g game Hg).
Qed.

Lemma makeBotMove_effects (l1 l2 : loc) (x1 x2 : Player) (col row : Z)
      (b1 : Grid) (wins : bool) :
  Player1 game = Some l1 -> players w !! l1 = Some x1 ->
  Player2 game = Some l2 -> players w !! l2 = Some x2 ->
  Winner game = ""%string ->
  getBotMove game = Some (col, game) -> col <> -1 ->
  lowestEmptyRow (Board game) col = Some row -> row <> -1 ->
  setCell (Board game) row col Yellow = Some b1 ->
  checkWinner (set_Board game b1) row col = Some wins ->
  let game' := afterBotMove game now b1 wins in
  makeBotMove now g w
  = Some (tt, set_trace (set_gameObjs w (<[g := game']> (gameObjs w)))
                (trace w ++
                 if wins || isBoardFull (set_Board game b1)
                 then gameOverEvents w game' x1 x2
                 else moveEvents game' x1 x2)).
Proof.
  intros H1 Hx1 H2 Hx2 Hw Hbot Hcol Hrow Hrow1 Hb1 Hwins game'.
  unfold makeBotMove, mbind, M_bind, bind, getGame, lift.
  rewrite Hg, Hw. simpl. rewrite Hbot.
  rewrite (set_gameObjs_id w g game Hg).
  destruct (Z.eqb_spec col (-1)); [done|]. rewrite Hrow.
  destruct (Z.eqb_spec row (-1)); [done|]. rewrite Hb1, Hwins.
  subst game'. unfold afterBotMove.
  set (game1 := set_Board game b1).
  set (w1 := set_gameObjs w (<[g := game1]> (gameObjs w))).
  assert (forall x, set_gameObjs w1 (<[g := x]> (gameObjs w1))
                    = set_gameObjs w (<[g := x]> (gameObjs w))) as Hins.
  { intros x. unfold w1, set_gameObjs. simpl. by rewrite insert_insert_eq. }
  assert (forall x (w2 := set_gameObjs w (<[g := x]> (gameObjs w))),
            Player1 x = Player1 game -> Player2 x = Player2 game ->
            emits (saveGame g;; broadcastGameOver g) w2 (gameOverEvents w x x1 x2))
    as Hfinish.
  { intros x w2 E1 E2.
    apply (emits_finish w2 g x l1 l2 x1 x2);
      [apply lookup_insert_eq|congruence|done|congruence|done]. }
  destruct wins; [|destruct (isBoardFull game1)]; unfold setGame; simpl;
    rewrite Hins.
  - by rewrite <- (Hfinish (set_EndTime (set_Winner game1 "yellow") (Some now))).
  - by rewrite <- (Hfinish (set_EndTime (set_Winner game1 "draw") (Some now))).
  - set (w2 := set_gameObjs w _).
    rewrite (emits_broadcastMove w2 g (set_CurrentPlayer game1 Red) l1 l2 x1 x2);
      [done|apply lookup_insert_eq|done..].
Qed.
End MakeBotMove.

(** ** Moves: who may move, and what is sent *)

(** X5. [handleMove] never looks at the seats of the game: of the mover it
    reads the side and the connection only.  Two player objects with the same
    side and the same connection, seated in the game or not, get the same
    answer and leave the same world. *)
Theorem handleMove_ignores_seat (now : Z) (g p p' : loc) (col : Z) (w : World)
        (x x' : Player) :
  players w !! p = Some x -> players w !! p' = Some x' ->
  PlayerColor x = PlayerColor x' -> Conn x = Conn x' ->
  handleMove now g p col w = handleMove now g p' col w.
Proof.
  intros Hp Hp' Hcolor Hconn.
  unfold handleMove, mbind, M_bind, bind, getGame, getPlayer.
  destruct (gameObjs w !! g) as [game|]; [|done].
  rewrite Hp, Hp', Hcolor, Hconn. done.
Qed.

Lemma handleMove_ignores_seat_witness :
  handleMove 0 0%nat 0%nat 3 aliceDropsTwice
  = handleMove 0 0%nat 2%nat 3 aliceDropsTwice.
Proof.
  apply (handleMove_ignores_seat 0 0%nat 0%nat 2%nat 3 aliceDropsTwice
           (mkPlayer "alice" Red (Some 3%nat) 0 false)
           (mkPlayer "alice" Red (Some 3%nat) 0 true));
    reflexivity.
Defined.

Lemma nextPlayer_other (c : Color) :
  c = Red \/ c = Yellow -> nextPlayer c <> c.
Proof. by intros [-> | ->]. Qed.

Lemma seated_of_seats (w : World) (g : loc) (game : GameState) (l1 l2 : loc)
      (x1 x2 : Player) :
  gameObjs w !! g = Some game ->
  Player1 game = Some l1 -> players w !! l1 = Some x1 ->
  Player2 game = Some l2 -> players w !! l2 = Some x2 ->
  seated w g.
Proof. intros. by exists game, l1, l2, x1, x2. Qed.

(** X6. Turns alternate.  After a move by the side that holds the turn has
    been applied and the game goes on, a further move of the same player,
    into any column and at any time, is turned away: it is answered with
    "Not your turn" if the player has a connection, and the game object stays
    as the first move left it. *)
Theorem handleMove_turn_alternates (now : Z) (w : World) (g p : loc) (col : Z)
        (game : GameState) (player : Player) (r : Z) :
  gameObjs w !! g = Some game -> players w !! p = Some player ->
  seated w g -> wfGrid (Board game) ->
  Winner game = ""%string -> PlayerColor player = CurrentPlayer game ->
  CurrentPlayer game = Red \/ CurrentPlayer game = Yellow ->
  0 <= col < COLS -> cell (Board game) r col = Some Empty ->
  exists w' game',
    handleMove now g p col w = Some (tt, w') /\
    gameObjs w' !! g = Some game' /\
    (Winner game' = ""%string ->
     forall now' col', exists w'',
       handleMove now' g p col' w' = Some (tt, w'') /\
       gameObjs w'' = gameObjs w' /\ players w'' = players w' /\
       trace w'' = trace w' ++
                   match Conn player with
                   | Some c => [WriteJSON c (errorMessage "Not your turn")]
                   | None => []
                   end).
Proof.
  intros Hg Hp Hseat Hwf Hw Hturn Hcolor Hcol Hcell.
  destruct (handleMove_accepted_spec now w g p col game player r)
    as (row & b1 & wins & w' & Hlow & Hb1 & Hwins & Hmove & Hupd); try done.
  set (game' := afterMove game (PlayerColor player) now b1 wins) in *.
  exists w', game'. split; [done|].
  pose proof (updatesGame_lookup _ _ _ _ Hupd) as Hg'.
  split; [done|]. intros Hw' now' col'.
  assert (CurrentPlayer game' = nextPlayer (CurrentPlayer game)) as Hnext.
  { destruct (afterMove_cases game (PlayerColor player) now b1 wins)
      as (Hwin & Hdraw & Hgo). fold game' in Hwin, Hdraw, Hgo.
    destruct wins.
    - destruct Hwin as [Hwin _]; [done|]. rewrite Hw', Hturn in Hwin.
      by destruct Hcolor as [E | E]; rewrite E in Hwin.
    - destruct (isBoardFull (set_Board game b1)) eqn:Hfull.
      + destruct Hdraw as [Hdraw _]; [done..|]. congruence.
      + by destruct Hgo as [_ Hgo]. }
  assert (players w' !! p = Some player) as Hp'.
  { by rewrite (updatesGame_players _ _ _ _ Hupd). }
  rewrite (handleMove_not_your_turn now' w' g p col' game' player Hg' Hp' Hw').
  - unfold sendIfConn. destruct (Conn player) as [c|].
    + by eexists.
    + exists w'. by rewrite app_nil_r.
  - rewrite Hnext, Hturn. intros E. by eapply nextPlayer_other.
Qed.

Lemma handleMove_turn_alternates_witness :
  exists w' game',
    handleMove 7 0%nat 0%nat 4 (exampleWorld threeRedBoard Red "") = Some (tt, w') /\
    gameObjs w' !! 0%nat = Some game' /\
    (Winner game' = ""%string ->
     forall now' col', exists w'',
       handleMove now' 0%nat 0%nat col' w' = Some (tt, w'') /\
       gameObjs w'' = gameObjs w' /\ players w'' = players w' /\
       trace w'' = trace w' ++
                   match Conn alice with
                   | Some c => [WriteJSON c (errorMessage "Not your turn")]
                   | None => []
                   end).
Proof.
  apply (handleMove_turn_alternates 7 (exampleWorld threeRedBoard Red "")
           0%nat 0%nat 4 (exampleGame threeRedBoard Red "") alice 5).
  - reflexivity.
  - reflexivity.
  - apply seated_exampleWorld.
  - apply wfGrid_check; reflexivity.
  - reflexivity.
  - reflexivity.
  - by left.
  - unfold COLS. lia.
  - reflexivity.
Defined.

Lemma Go_not_in_notify (t : Task) (x : Player) (msg : Message) :
  Go t ∉ notify x msg.
Proof.
  unfold notify. destruct (Conn x); [|apply not_elem_of_nil].
  by intros [=]%list_elem_of_singleton.
Qed.

Lemma Go_not_in_moveEvents (t : Task) (game : GameState) (x1 x2 : Player) :
  Go t ∉ moveEvents game x1 x2.
Proof.
  unfold moveEvents. rewrite elem_of_app.
  intros [H|H]; by apply Go_not_in_notify in H.
Qed.

Lemma Go_not_in_gameOverEvents (t : Task) (w : World) (game : GameState)
      (x1 x2 : Player) :
  Go t ∉ gameOverEvents w game x1 x2.
Proof.
  unfold gameOverEvents. rewrite !elem_of_app.
  intros [H|[H|[H|H]]].
  - destruct (db w); [by apply list_elem_of_singleton in H|by apply elem_of_nil in H].
  - by apply Go_not_in_notify in H.
  - by apply Go_not_in_notify in H.
  - destruct (kafkaWriter w);
      [by apply list_elem_of_singleton in H|by apply elem_of_nil in H].
Qed.

(** X7. What an applied move sends, and in which order.  When the move ends
    the game: the row for the database if there is a database, with the
    username of the first seat as the winner for red and of the second seat
    for yellow; then the game_over message with the final board and the
    result to either seat that has a connection; then the game_end event if
    there is a Kafka writer.  When the game goes on: the move message with
    the board and the new turn marker to either seat that has a connection,
    and then, exactly when the game is a game against the bot and the mover
    was red, the start of the bot's move.  Nothing else is appended to the
    trace, and nothing but the game object and the trace changes. *)
Theorem handleMove_sends (now : Z) (w : World) (g p : loc) (col : Z)
        (game : GameState) (player : Player) (l1 l2 : loc) (x1 x2 : Player)
        (r : Z) :
  gameObjs w !! g = Some game -> players w !! p = Some player ->
  Player1 game = Some l1 -> players w !! l1 = Some x1 ->
  Player2 game = Some l2 -> players w !! l2 = Some x2 ->
  wfGrid (Board game) ->
  Winner game = ""%string -> PlayerColor player = CurrentPlayer game ->
  CurrentPlayer game = Red \/ CurrentPlayer game = Yellow ->
  0 <= col < COLS -> cell (Board game) r col = Some Empty ->
  exists game' evs,
    handleMove now g p col w
    = Some (tt, set_trace (set_gameObjs w (<[g := game']> (gameObjs w)))
                  (trace w ++ evs)) /\
    (Winner game' <> ""%string -> evs = gameOverEvents w game' x1 x2) /\
    (Winner game' = ""%string ->
     evs = moveEvents game' x1 x2 ++
           if IsBot game && String.eqb (CurrentPlayer game) Red
           then [Go (BotMoveTask g)] else []) /\
    (forall t, Go t ∈ evs <->
       t = BotMoveTask g /\ Winner game' = ""%string /\
       IsBot game = true /\ CurrentPlayer game = Red).
Proof.
  intros Hg Hp H1 Hx1 H2 Hx2 Hwf Hw Hturn Hcolor Hcol Hcell.
  pose proof (seated_of_seats _ _ _ _ _ _ _ Hg H1 Hx1 H2 Hx2) as Hseat.
  destruct (handleMove_accepted_spec now w g p col game player r)
    as (row & b1 & wins & w' & Hlow & Hb1 & Hwins & _ & _); try done.
  pose proof (lowestEmpty_lowestEmptyRow _ _ _ Hwf Hlow) as Hrow.
  assert (row <> -1) as Hne by (destruct Hlow as [? _]; lia).
  pose proof (handleMove_effects now w g p col game player l1 l2 x1 x2 row b1
                wins Hg Hp H1 Hx1 H2 Hx2 Hw Hturn Hcol Hrow Hne Hb1 Hwins) as Heq.
  cbv zeta in Heq.
  set (game' := afterMove game (PlayerColor player) now b1 wins) in *.
  assert (IsBot game' = IsBot game) as Hbot.
  { unfold game', afterMove. destruct wins; [done|].
    by destruct (isBoardFull (set_Board game b1)). }
  assert (PlayerColor player <> ""%string) as Hside.
  { rewrite Hturn. by destruct Hcolor as [-> | ->]. }
  assert (if wins || isBoardFull (set_Board game b1)
          then Winner game' <> ""%string
          else Winner game' = ""%string /\
               String.eqb (CurrentPlayer game') Yellow
               = String.eqb (CurrentPlayer game) Red) as Hcase.
  { unfold game', afterMove. destruct wins; [done|]. simpl.
    destruct (isBoardFull (set_Board game b1)); [done|]. simpl. split; [done|].
    by destruct Hcolor as [-> | ->]. }
  eexists game', _. split; [exact Heq|].
  destruct (wins || isBoardFull (set_Board game b1)).
  - split_and!; [done|done|]. intros t. split.
    + by intros H%Go_not_in_gameOverEvents.
    + by intros (_ & ? & _).
  - destruct Hcase as [Hw' Hyellow]. rewrite Hbot, Hyellow.
    split_and!; [done|done|]. intros t.
    rewrite elem_of_app. split.
    + intros [H%Go_not_in_moveEvents|H]; [done|].
      destruct (IsBot game) eqn:Eb; [|by apply elem_of_nil in H]. simpl in H.
      destruct (String.eqb_spec (CurrentPlayer game) Red) as [Er|];
        [|by apply elem_of_nil in H].
      apply list_elem_of_singleton in H as [= ->]. done.
    + intros (-> & _ & -> & ->). right. simpl. apply list_elem_of_singleton. done.
Qed.

Lemma handleMove_sends_witness :
  exists game' evs,
    handleMove 7 0%nat 0%nat 3 (exampleWorld threeRedBoard Red "")
    = Some (tt, set_trace
                  (set_gameObjs (exampleWorld threeRedBoard Red "")
                     (<[0%nat := game']>
                        (gameObjs (exampleWorld threeRedBoard Red ""))))
                  (trace (exampleWorld threeRedBoard Red "") ++ evs)) /\
    (Winner game' <> ""%string ->
     evs = gameOverEvents (exampleWorld threeRedBoard Red "") game' alice bob) /\
    (Winner game' = ""%string ->
     evs = moveEvents game' alice bob ++
           if IsBot (exampleGame threeRedBoard Red "") &&
              String.eqb (CurrentPlayer (exampleGame threeRedBoard Red "")) Red
           then [Go (BotMoveTask 0%nat)] else []) /\
    (forall t, Go t ∈ evs <->
       t = BotMoveTask 0%nat /\ Winner game' = ""%string /\
       IsBot (exampleGame threeRedBoard Red "") = true /\
       CurrentPlayer (exampleGame threeRedBoard Red "") = Red).
Proof.
  apply (handleMove_sends 7 (exampleWorld threeRedBoard Red "") 0%nat 0%nat 3
           (exampleGame threeRedBoard Red "") alice 0%nat 1%nat alice bob 5).
  - reflexivity.
  - reflexivity.
  - reflexivity.
  - reflexivity.
  - reflexivity.
  - reflexivity.
  - apply wfGrid_check; reflexivity.
  - reflexivity.
  - reflexivity.
  - by left.
  - unfold COLS. lia.
  - reflexivity.
Defined.

(** ** The bot's move *)

Lemma wouldWin_lowestEmpty (b : Grid) (side : Color) (col : Z) :
  wouldWin b side col -> exists row, lowestEmpty b col row.
Proof. intros (row & _ & Hlow & _). eauto. Qed.

Lemma botChoice_lowestEmpty (b : Grid) (own opponent : Color) (c col0 : Z) :
  wfGrid b -> botChoice b own opponent c -> hasRoom b col0 ->
  0 <= c < COLS /\ exists row, lowestEmpty b c row.
Proof.
  intros Hwf Hc Hroom.
  pose proof (cell_Some_inGrid _ _ _ _ Hwf Hroom) as [_ Hcol0].
  apply botChoice_cases in Hc as [[_ Hno]|[Hcol [Hw|[Hw|Hr]]]].
  - by destruct (Hno col0 Hcol0).
  - split; [done|]. by eapply wouldWin_lowestEmpty.
  - split; [done|]. by eapply wouldWin_lowestEmpty.
  - split; [done|]. by apply hasRoom_lowestEmpty.
Qed.

(** X8. [makeBotMove] in a game without result, on a 6x7 board some column of
    which has an empty top cell: it returns, and it drops a yellow disc into
    the column that the decision order of [getBotMove] names, at the lowest
    empty cell of that column.  The game is then won by yellow if the disc
    completes a line of four, else drawn if no empty cell remains, else it
    goes on with red to move.  Both seats are told as after a move of a
    participant, and no further task is started.  [makeBotMove] reads neither
    the turn marker nor the bot flag of the game. *)
Theorem makeBotMove_plays_yellow (now : Z) (w : World) (g : loc)
        (game : GameState) (l1 l2 : loc) (x1 x2 : Player) (col0 : Z) :
  gameObjs w !! g = Some game ->
  Player1 game = Some l1 -> players w !! l1 = Some x1 ->
  Player2 game = Some l2 -> players w !! l2 = Some x2 ->
  wfGrid (Board game) -> Winner game = ""%string ->
  hasRoom (Board game) col0 ->
  exists c row b1 game' evs,
    botChoice (Board game) Yellow Red c /\
    lowestEmpty (Board game) c row /\
    setCell (Board game) row c Yellow = Some b1 /\
    cell b1 row c = Some Yellow /\
    (forall r c', r <> row \/ c' <> c -> cell b1 r c' = cell (Board game) r c') /\
    makeBotMove now g w
    = Some (tt, set_trace (set_gameObjs w (<[g := game']> (gameObjs w)))
                  (trace w ++ evs)) /\
    Board game' = b1 /\
    (fourInLine b1 Yellow row c ->
     Winner game' = "yellow"%string /\ EndTime game' = Some now /\
     evs = gameOverEvents w game' x1 x2) /\
    (~ fourInLine b1 Yellow row c -> boardFull b1 ->
     Winner game' = "draw"%string /\ EndTime game' = Some now /\
     evs = gameOverEvents w game' x1 x2) /\
    (~ fourInLine b1 Yellow row c -> ~ boardFull b1 ->
     Winner game' = ""%string /\ CurrentPlayer game' = Red /\
     evs = moveEvents game' x1 x2) /\
    (forall t, Go t ∉ evs).
Proof.
  intros Hg H1 Hx1 H2 Hx2 Hwf Hw Hroom.
  destruct (getBotMove_spec game Hwf) as (c & Hbot & Hchoice).
  destruct (botChoice_lowestEmpty _ _ _ _ _ Hwf Hchoice Hroom)
    as (Hcol & row & Hlow).
  pose proof Hlow as (Hrange & Hcell & _).
  destruct (setCell_total _ _ _ _ Yellow Hcell) as [b1 Hb1].
  assert (wfGrid b1) as Hwf1 by (by eapply setCell_wfGrid).
  destruct (checkWinner_axes (set_Board game b1) row c Yellow)
    as (wins & Hwins & Hiff); [done|by eapply cell_setCell_eq|done|].
  simpl in Hiff.
  pose proof (isBoardFull_spec (set_Board game b1) Hwf1) as Hfull. simpl in Hfull.
  pose proof (makeBotMove_effects now w g game Hg l1 l2 x1 x2 c row b1 wins
                H1 Hx1 H2 Hx2 Hw Hbot) as Heq.
  cbv zeta in Heq. rewrite Heq;
    [|lia|by apply lowestEmpty_lowestEmptyRow|lia|done|done].
  exists c, row, b1, (afterBotMove game now b1 wins). eexists.
  split_and!; [done|done|done| | |reflexivity|..].
  - by eapply cell_setCell_eq.
  - intros r c' Hother. by eapply cell_setCell_ne.
  - unfold afterBotMove. destruct wins; [done|].
    by destruct (isBoardFull (set_Board game b1)).
  - intros Hline%Hiff. subst wins. done.
  - intros Hline Hfull'%Hfull. destruct wins; [by destruct Hline; apply Hiff|].
    unfold afterBotMove. rewrite Hfull'. done.
  - intros Hline Hnot. destruct wins; [by destruct Hline; apply Hiff|].
    unfold afterBotMove.
    destruct (isBoardFull (set_Board game b1)); [by destruct Hnot; apply Hfull|].
    done.
  - intros t. destruct (wins || isBoardFull (set_Board game b1)).
    + apply Go_not_in_gameOverEvents.
    + apply Go_not_in_moveEvents.
Qed.

Lemma makeBotMove_plays_yellow_witness :
  exists c row b1 game' evs,
    botChoice threeRedBoard Yellow Red c /\
    lowestEmpty threeRedBoard c row /\
    setCell threeRedBoard row c Yellow = Some b1 /\
    cell b1 row c = Some Yellow /\
    (forall r c', r <> row \/ c' <> c -> cell b1 r c' = cell threeRedBoard r c') /\
    makeBotMove 9 0%nat (exampleWorld threeRedBoard Yellow "")
    = Some (tt, set_trace
                  (set_gameObjs (exampleWorld threeRedBoard Yellow "")
                     (<[0%nat := game']>
                        (gameObjs (exampleWorld threeRedBoard Yellow ""))))
                  (trace (exampleWorld threeRedBoard Yellow "") ++ evs)) /\
    Board game' = b1 /\
    (fourInLine b1 Yellow row c ->
     Winner game' = "yellow"%string /\ EndTime game' = Some 9 /\
     evs = gameOverEvents (exampleWorld threeRedBoard Yellow "") game' alice bob) /\
    (~ fourInLine b1 Yellow row c -> boardFull b1 ->
     Winner game' = "draw"%string /\ EndTime game' = Some 9 /\
     evs = gameOverEvents (exampleWorld threeRedBoard Yellow "") game' alice bob) /\
    (~ fourInLine b1 Yellow row c -> ~ boardFull b1 ->
     Winner game' = ""%string /\ CurrentPlayer game' = Red /\
     evs = moveEvents game' alice bob) /\
    (forall t, Go t ∉ evs).
Proof.
  apply (makeBotMove_plays_yellow 9 (exampleWorld threeRedBoard Yellow "") 0%nat
           (exampleGame threeRedBoard Yellow "") 0%nat 1%nat alice bob 0).
  - reflexivity.
  - reflexivity.
  - reflexivity.
  - reflexivity.
  - reflexivity.
  - apply wfGrid_check; reflexivity.
  - reflexivity.
  - reflexivity.
Defined.

(** X9. [makeBotMove] leaves the world exactly as it was when the game has a
    result, and also when the 6x7 board of a game without result has no empty
    cell: [getBotMove] then answers -1 and [makeBotMove] returns at once,
    without declaring the draw and without a message. *)
Theorem makeBotMove_leaves_alone (now : Z) (w : World) (g : loc)
        (game : GameState) :
  gameObjs w !! g = Some game ->
  (Winner game <> ""%string -> makeBotMove now g w = Some (tt, w)) /\
  (Winner game = ""%string -> wfGrid (Board game) -> isBoardFull game = true ->
   makeBotMove now g w = Some (tt, w)).
Proof.
  intros Hg. split.
  - by apply makeBotMove_finished.
  - intros Hw Hwf Hfull%isBoardFull_spec; [|done].
    apply (makeBotMove_no_column now w g game Hg Hw).
    destruct (getBotMove_spec game Hwf) as (c & -> & Hc).
    apply botChoice_cases in Hc as [[-> _]|[Hcol [Hwin|[Hwin|Hroom]]]]; [done|..].
    + by apply boardFull_no_win in Hwin.
    + by apply boardFull_no_win in Hwin.
    + by apply boardFull_no_room in Hroom.
Qed.

Lemma makeBotMove_leaves_alone_witness :
  makeBotMove 9 0%nat (exampleWorld lineBoard Yellow "red")
  = Some (tt, exampleWorld lineBoard Yellow "red") /\
  makeBotMove 9 0%nat (exampleWorld fullBoard Yellow "")
  = Some (tt, exampleWorld fullBoard Yellow "").
Proof.
  split.
  - refine (proj1 (makeBotMove_leaves_alone 9 (exampleWorld lineBoard Yellow "red")
                     0%nat (exampleGame lineBoard Yellow "red") _) _).
    + reflexivity.
    + discriminate.
  - refine (proj2 (makeBotMove_leaves_alone 9 (exampleWorld fullBoard Yellow "")
                     0%nat (exampleGame fullBoard Yellow "") _) _ _ _).
    + reflexivity.
    + reflexivity.
    + apply wfGrid_check; reflexivity.
    + reflexivity.
Defined.

(** ** [createGame], run forward *)

Lemma createGame_exact (gameID : string) (now : Z) (p1 p2 : loc) (isBot : bool)
      (w : World) (x1 x2 : Player) :
  players w !! p1 = Some x1 -> players w !! p2 = Some x2 -> p1 <> p2 ->
  let g := fresh (dom (gameObjs w)) in
  createGame gameID now p1 p2 isBot w
  = Some (g, mkWorld
               (<[p2 := set_PlayerColor x2 Yellow]>
                  (<[p1 := set_PlayerColor x1 Red]> (players w)))
               (<[g := openedGame gameID now p1 p2 isBot]> (gameObjs w))
               (<[gameID := g]> (games w))
               (if isBot then <[Username x1 := g]> (playerGames w)
                else <[Username x2 := g]> (<[Username x1 := g]> (playerGames w)))
               (waitingPlayers w) (db w) (kafkaWriter w)
               (trace w ++ gameStartEvents w gameID x1 x2 isBot)).
Proof.
  intros H1 H2 Hne g. subst g.
  destruct w as [ps gs gm pg q d k t]. simpl in *.
  unfold createGame, mbind, M_bind, bind, getPlayer, setPlayer, allocGame.
  simpl. rewrite H1. simpl. rewrite lookup_insert_ne by done. rewrite H2. simpl.
  rewrite lookup_insert_ne by done. rewrite lookup_insert_eq. simpl.
  rewrite lookup_insert_eq. simpl.
  unfold sendKafkaGameStart, mbind, M_bind, bind, getWorld, sendIfConn.
  unfold gameStartEvents, notify, openedGame.
  destruct isBot, (Conn x1) as [c1|], (Conn x2) as [c2|], k;
    simpl; unfold set_trace; simpl;
    rewrite <- ?app_assoc, ?app_nil_r; reflexivity.
Qed.

(** X10. [createGame] for two distinct player objects.  It returns a game
    object that did not exist, with the id and the start time it was given,
    an empty board, red to move, no result and no end time; the first
    argument holds the first seat and is made red, the second holds the
    second seat and is made yellow.  The registry maps the id to the game and
    the index maps the username of the first seat to it, and that of the
    second seat unless the game is against the bot.  game_start goes to the
    first seat and, unless the game is against the bot, to the second; then
    the game_start event.  The queue and every game object that existed are
    as they were. *)
Theorem createGame_opens_game (gameID : string) (now : Z) (p1 p2 : loc)
        (isBot : bool) (w : World) (x1 x2 : Player) :
  players w !! p1 = Some x1 -> players w !! p2 = Some x2 -> p1 <> p2 ->
  exists g w',
    createGame gameID now p1 p2 isBot w = Some (g, w') /\
    gameObjs w !! g = None /\
    gameObjs w' !! g = Some (openedGame gameID now p1 p2 isBot) /\
    (forall g' game, gameObjs w !! g' = Some game -> gameObjs w' !! g' = Some game) /\
    players w' !! p1 = Some (set_PlayerColor x1 Red) /\
    players w' !! p2 = Some (set_PlayerColor x2 Yellow) /\
    (forall l, l <> p1 -> l <> p2 -> players w' !! l = players w !! l) /\
    games w' = <[gameID := g]> (games w) /\
    playerGames w' !! Username x1 = Some g /\
    (isBot = false -> playerGames w' !! Username x2 = Some g) /\
    (isBot = true -> playerGames w' = <[Username x1 := g]> (playerGames w)) /\
    (forall name, name <> Username x1 -> name <> Username x2 ->
       playerGames w' !! name = playerGames w !! name) /\
    waitingPlayers w' = waitingPlayers w /\
    trace w' = trace w ++ gameStartEvents w gameID x1 x2 isBot.
Proof.
  intros H1 H2 Hne.
  pose proof (createGame_exact gameID now p1 p2 isBot w x1 x2 H1 H2 Hne) as Heq.
  cbv zeta in Heq. set (g := fresh (dom (gameObjs w))) in *.
  pose proof (fresh_games_None (gameObjs w)) as Hfresh. fold g in Hfresh.
  eexists g, _. split; [exact Heq|]. simpl.
  split_and!; try done.
  - apply lookup_insert_eq.
  - intros g' game Hg'. rewrite lookup_insert_ne; [done|congruence].
  - rewrite lookup_insert_ne by done. apply lookup_insert_eq.
  - apply lookup_insert_eq.
  - intros l Hl1 Hl2. by rewrite !lookup_insert_ne.
  - destruct isBot; rewrite ?lookup_insert; repeat case_decide; done.
  - intros ->. apply lookup_insert_eq.
  - by intros ->.
  - intros name Hn1 Hn2. destruct isBot; by rewrite !lookup_insert_ne.
Qed.

Lemma createGame_opens_game_witness :
  exists g w',
    createGame "g1" 5 0%nat 1%nat false bobArrives = Some (g, w') /\
    gameObjs bobArrives !! g = None /\
    gameObjs w' !! g = Some (openedGame "g1" 5 0%nat 1%nat false) /\
    playerGames w' !! "alice"%string = Some g /\
    playerGames w' !! "bob"%string = Some g.
Proof.
  destruct (createGame_opens_game "g1" 5 0%nat 1%nat false bobArrives
              (mkPlayer "alice" "" (Some 1%nat) 0 false)
              (mkPlayer "bob" "" (Some 2%nat) 0 false))
    as (g & w' & Hrun & Hnew & Hg & _ & _ & _ & _ & _ & Hp1 & Hp2 & _);
    [reflexivity|reflexivity|done|].
  exists g, w'. split_and!; [done..|]. by apply Hp2.
Defined.

(** ** The fallback timer *)

Lemma list_find_first (p : loc) (q : list loc) :
  p ∈ q ->
  exists i pre post,
    list_find (fun x => x = p) q = Some (i, p) /\
    q = pre ++ p :: post /\ (p ∉ pre) /\ delete i q = pre ++ post.
Proof.
  intros Hin.
  destruct (list_find_elem_of (fun x => x = p) q p Hin eq_refl) as [[i y] Hfind].
  pose proof Hfind as (Hi & -> & Hfirst)%list_find_Some.
  exists i, (take i q), (drop (S i) q). split_and!.
  - done.
  - by rewrite take_drop_middle.
  - intros (j & Hj)%list_elem_of_lookup.
    pose proof (lookup_lt_Some _ _ _ Hj) as Hlt.
    rewrite length_take in Hlt.
    rewrite lookup_take_lt in Hj by lia.
    apply (Hfirst j p Hj); [lia|done].
  - apply delete_take_drop.
Qed.

Lemma botTimerFire_absent (gameID : string) (now : Z) (p : loc) (w : World) :
  p ∉ waitingPlayers w -> botTimerFire gameID now p w = Some (tt, w).
Proof.
  intros Hnot. unfold botTimerFire, mbind, M_bind, bind, getWorld.
  assert (list_find (fun x => x = p) (waitingPlayers w) = None) as ->; [|done].
  apply list_find_None, Forall_forall. intros y Hy ->. done.
Qed.

Lemma botTimerFire_exact (gameID : string) (now : Z) (p : loc) (w : World)
      (x : Player) :
  players w !! p = Some x -> p ∈ waitingPlayers w ->
  let bot := fresh (dom (players w)) in
  let g := fresh (dom (gameObjs w)) in
  exists pre post,
    waitingPlayers w = pre ++ p :: post /\ (p ∉ pre) /\
    botTimerFire gameID now p w
    = Some (tt, mkWorld
                  (<[bot := mkPlayer "Bot" Yellow None 0 false]>
                     (<[p := set_PlayerColor x Red]>
                        (<[bot := mkPlayer "Bot" Yellow None 0 false]> (players w))))
                  (<[g := openedGame gameID now p bot true]> (gameObjs w))
                  (<[gameID := g]> (games w))
                  (<[Username x := g]> (playerGames w))
                  (pre ++ post) (db w) (kafkaWriter w)
                  (trace w ++
                   gameStartEvents w gameID x (mkPlayer "Bot" Yellow None 0 false)
                                   true)).
Proof.
  intros Hp (i & pre & post & Hfind & Hq & Hpre & Hdel)%list_find_first bot g.
  exists pre, post. split; [done|]. split; [done|].
  unfold botTimerFire, mbind, M_bind, bind, getWorld, allocPlayer.
  rewrite Hfind. simpl. fold bot.
  pose proof (fresh_players_None (players w)) as Hbot. fold bot in Hbot.
  assert (p <> bot) as Hne by congruence.
  set (w1 := set_players _ _).
  pose proof (createGame_exact gameID now p bot true w1 x
                (mkPlayer "Bot" Yellow None 0 false)) as Heq.
  cbv zeta in Heq. rewrite Heq; cycle 1.
  { unfold w1. simpl. by rewrite lookup_insert_ne. }
  { unfold w1. simpl. apply lookup_insert_eq. }
  { done. }
  unfold w1. simpl. by rewrite Hdel.
Qed.

(** X11. The fallback timer that a waiting join starts.  When it fires and
    its participant is not in the queue, the world stays exactly as it was.
    When the participant is in the queue, the first entry of the participant
    leaves the queue, and a game against the bot is created: the participant
    holds the first seat and is red; the second seat is a new player object
    named Bot, yellow, without connection; the index gets the username of
    the participant only; game_start with the opponent Bot goes to the
    participant and nothing to the bot; no move of the bot is started, red
    moves first. *)
Theorem botTimerFire_opens_bot_game (gameID : string) (now : Z) (p : loc)
        (w : World) (x : Player) :
  players w !! p = Some x ->
  (p ∉ waitingPlayers w -> botTimerFire gameID now p w = Some (tt, w)) /\
  (p ∈ waitingPlayers w ->
   exists w' g bot pre post,
     botTimerFire gameID now p w = Some (tt, w') /\
     waitingPlayers w = pre ++ p :: post /\ (p ∉ pre) /\
     waitingPlayers w' = pre ++ post /\
     players w !! bot = None /\ gameObjs w !! g = None /\
     gameObjs w' = <[g := openedGame gameID now p bot true]> (gameObjs w) /\
     players w' !! p = Some (set_PlayerColor x Red) /\
     players w' !! bot = Some (mkPlayer "Bot" Yellow None 0 false) /\
     games w' = <[gameID := g]> (games w) /\
     playerGames w' = <[Username x := g]> (playerGames w) /\
     trace w' = trace w ++
                notify x (gameStartMessage Red "Bot" Red gameID) ++
                (if kafkaWriter w
                 then [KafkaGameStart gameID (Username x) "Bot" true] else [])).
Proof.
  intros Hp. split; [apply botTimerFire_absent|].
  intros Hin.
  destruct (botTimerFire_exact gameID now p w x Hp Hin)
    as (pre & post & Hq & Hpre & Heq).
  pose proof (fresh_players_None (players w)) as Hbot.
  assert (p <> fresh (dom (players w))) as Hne by congruence.
  eexists _, (fresh (dom (gameObjs w))), (fresh (dom (players w))), pre, post.
  split; [exact Heq|]. simpl.
  split_and!; try done.
  - apply fresh_games_None.
  - rewrite lookup_insert_ne by done. apply lookup_insert_eq.
  - apply lookup_insert_eq.
Qed.

Lemma botTimerFire_opens_bot_game_witness :
  exists w' g bot pre post,
    botTimerFire "g1" 10 0%nat aliceWaits = Some (tt, w') /\
    waitingPlayers aliceWaits = pre ++ 0%nat :: post /\ (0%nat ∉ pre) /\
    waitingPlayers w' = pre ++ post /\
    players aliceWaits !! bot = None /\ gameObjs aliceWaits !! g = None /\
    gameObjs w' = <[g := openedGame "g1" 10 0%nat bot true]> (gameObjs aliceWaits) /\
    players w' !! bot = Some (mkPlayer "Bot" Yellow None 0 false).
Proof.
  destruct (botTimerFire_opens_bot_game "g1" 10 0%nat aliceWaits
              (mkPlayer "alice" "" (Some 1%nat) 0 false)) as [_ H];
    [reflexivity|].
  destruct H as (w' & g & bot & pre & post & H1 & H2 & H3 & H4 & H5 & H6 & H7 &
                 _ & H9 & _).
  { change (waitingPlayers aliceWaits) with [0%nat]. apply list_elem_of_singleton.
    done. }
  by exists w', g, bot, pre, post.
Defined.

(** ** Games that exist are left alone by joins and timers *)

Lemma opensGames_refl (w : World) : opensGames w w.
Proof. split; [done|]. intros g game' H. by left. Qed.

Lemma opensGames_trans (w1 w2 w3 : World) :
  opensGames w1 w2 -> opensGames w2 w3 -> opensGames w1 w3.
Proof.
  intros [K12 N12] [K23 N23]. split.
  - intros g game H. by apply K23, K12.
  - intros g game' H. destruct (N23 g game' H) as [H2|[H2 Hf]].
    + by apply N12.
    + right. split; [|done].
      destruct (gameObjs w1 !! g) as [x|] eqn:E; [|done].
      apply K12 in E. congruence.
Qed.

Lemma opensGames_same (w w' : World) : gameObjs w' = gameObjs w -> opensGames w w'.
Proof. intros E. split; intros g x; rewrite E; [done|by left]. Qed.

Lemma opensGames_allocGame (w : World) (x : GameState) :
  freshGame x ->
  opensGames w (set_gameObjs w (<[fresh (dom (gameObjs w)) := x]> (gameObjs w))).
Proof.
  intros Hx. pose proof (fresh_games_None (gameObjs w)) as Hfresh.
  split; intros g game; simpl; rewrite lookup_insert; case_decide; subst.
  - congruence.
  - done.
  - intros [= <-]. by right.
  - by left.
Qed.

Ltac frame_opensGames :=
  first [ exact opensGames_refl | exact opensGames_trans
        | by (intros; apply opensGames_allocGame)
        | by (intros; apply opensGames_same) ].

Lemma handleJoin_opensGames conn username order gameID now :
  respects opensGames (handleJoin conn username order gameID now).
Proof. apply respects_handleJoin; frame_opensGames. Qed.

Lemma botTimerFire_opensGames gameID now p :
  respects opensGames (botTimerFire gameID now p).
Proof. apply respects_botTimerFire; frame_opensGames. Qed.

(** X12. A join, whatever it turns out to be (rejoin, pairing, waiting), and
    a fallback timer leave every game object that exists exactly as it is:
    board, turn marker, result, seats.  A game object that is new after the
    step is a fresh game: empty board, red to move, no result, no end time.
    A disconnect changes no game object at all. *)
Theorem joins_leave_games_alone (w w' : World) :
  ((exists conn username order gameID now r,
      handleJoin conn username order gameID now w = Some (r, w')) \/
   (exists gameID now p, botTimerFire gameID now p w = Some (tt, w')) ->
   (forall g game, gameObjs w !! g = Some game -> gameObjs w' !! g = Some game) /\
   (forall g game', gameObjs w' !! g = Some game' ->
      gameObjs w !! g = Some game' \/
      (gameObjs w !! g = None /\ Board game' = emptyBoard /\
       CurrentPlayer game' = Red /\ Winner game' = ""%string /\
       EndTime game' = None))) /\
  ((exists p g, handleDisconnect p g w = Some (tt, w')) ->
   gameObjs w' = gameObjs w).
Proof.
  split.
  - intros [(conn & username & order & gameID & now & r & H)|
            (gameID & now & p & H)].
    + by apply handleJoin_opensGames in H.
    + by apply botTimerFire_opensGames in H.
  - intros (p & g & H). by apply handleDisconnect_playersOnly in H as [? _].
Qed.

Lemma joins_leave_games_alone_witness :
  gameObjs (default twoAlices
              (snd <$> handleJoin 5 "alice" [("g1"%string, 0%nat); ("g2"%string, 1%nat)]
                                 "g3" 9 twoAlices)) !! 0%nat
  = Some (exampleGame oneRedBoard Yellow "").
Proof.
  refine (proj1 (proj1 (joins_leave_games_alone twoAlices _) _) 0%nat _ _).
  - left. exists 5%nat, "alice"%string, [("g1"%string, 0%nat); ("g2"%string, 1%nat)],
            "g3"%string, 9.
    eexists. vm_compute. reflexivity.
  - vm_compute. reflexivity.
Defined.

(** ** What no run undoes *)

Lemma sameSession_refl (game : GameState) : sameSession game game.
Proof. by repeat split. Qed.

Lemma sameSession_trans (x y z : GameState) :
  sameSession x y -> sameSession y z -> sameSession x z.
Proof.
  intros (?&?&?&?&?) (?&?&?&?&?). unfold sameSession. split_and!; congruence.
Qed.

Lemma keepsDiscs_refl (b : Grid) : keepsDiscs b b.
Proof. by intros r c x. Qed.

Lemma keepsDiscs_setCell (b : Grid) (row col : Z) (v : string) (b1 : Grid) :
  cell b row col = Some Empty -> setCell b row col v = Some b1 -> keepsDiscs b b1.
Proof.
  intros Hempty Hset r c x Hx Hne.
  destruct (decide (r = row /\ c = col)) as [[-> ->]|Hother]; [congruence|].
  rewrite (cell_setCell_ne _ _ _ _ _ r c Hset) by lia. done.
Qed.

Lemma advances_refl (w : World) : advances w w.
Proof.
  intros g game Hg. exists game.
  split_and!; [done|apply sameSession_refl|apply keepsDiscs_refl|done].
Qed.

Lemma advances_trans (w1 w2 w3 : World) :
  advances w1 w2 -> advances w2 w3 -> advances w1 w3.
Proof.
  intros H12 H23 g x Hx.
  destruct (H12 g x Hx) as (y & Hy & Hs1 & Hk1 & Hf1).
  destruct (H23 g y Hy) as (z & Hz & Hs2 & Hk2 & Hf2).
  exists z. split_and!; [done|by eapply sameSession_trans| |].
  - intros r c v Hv Hne. apply Hk2; [|done]. by apply Hk1.
  - intros Hw. specialize (Hf1 Hw). subst y. by apply Hf2.
Qed.

Lemma advances_same (w w' : World) : gameObjs w' = gameObjs w -> advances w w'.
Proof. intros E g game Hg. rewrite E. by apply advances_refl. Qed.

Lemma advances_opensGames (w w' : World) : opensGames w w' -> advances w w'.
Proof.
  intros [Hkeep _] g game Hg. exists game.
  split_and!; [by apply Hkeep|apply sameSession_refl|apply keepsDiscs_refl|done].
Qed.

Lemma advances_updatesGame (w : World) (g : loc) (game x : GameState) (w' : World) :
  updatesGame w g x w' -> gameObjs w !! g = Some game ->
  Winner game = ""%string -> sameSession game x ->
  keepsDiscs (Board game) (Board x) -> advances w w'.
Proof.
  intros [evs ->] Hg Hw Hs Hk g' game' Hg'. simpl.
  destruct (decide (g' = g)) as [->|Hne].
  - rewrite lookup_insert_eq. assert (game' = game) as -> by congruence.
    exists x. split_and!; done.
  - rewrite lookup_insert_ne by done. exists game'.
    split_and!; [done|apply sameSession_refl|apply keepsDiscs_refl|done].
Qed.

Lemma sameSession_afterMove game color now b1 wins :
  sameSession game (afterMove game color now b1 wins).
Proof.
  unfold afterMove. destruct wins; [by repeat split|].
  destruct (isBoardFull _); by repeat split.
Qed.

Lemma sameSession_afterBotMove game now b1 wins :
  sameSession game (afterBotMove game now b1 wins).
Proof.
  unfold afterBotMove. destruct wins; [by repeat split|].
  destruct (isBoardFull _); by repeat split.
Qed.

Lemma Board_afterBotMove game now b1 wins :
  Board (afterBotMove game now b1 wins) = b1.
Proof.
  unfold afterBotMove. destruct wins; [done|]. by destruct (isBoardFull _).
Qed.

Lemma lowestEmptyRow_empty (b : Grid) (col row : Z) :
  lowestEmptyRow b col = Some row -> row <> -1 -> cell b row col = Some Empty.
Proof. by intros [[-> _]|(_ & Hc & _)]%lowestEmptyRow_spec Hne. Qed.

Lemma step_advances (w w' : World) : step w w' -> advances w w'.
Proof.
  intros [conn username order gameID now w0 r w1 _ H
         |now g p col w0 w1 H
         |now g w0 w1 H
         |gameID now p w0 w1 H
         |p g w0 w1 H
         |now p g w0 w1 H].
  - by apply advances_opensGames, (handleJoin_opensGames _ _ _ _ _ _ _ _ H).
  - apply handleMove_inv in H
      as [[evs ->]|(game & player & row & b1 & wins & Hg & _ & Hw & _ & _ &
                    Hrow & Hne & Hset & _ & Hupd)].
    + by apply advances_same.
    + eapply advances_updatesGame; [done..|apply sameSession_afterMove|].
      rewrite Board_afterMove.
      eapply keepsDiscs_setCell; [by eapply lowestEmptyRow_empty|done].
  - apply makeBotMove_inv in H
      as [[evs ->]|(game & col & row & b1 & wins & Hg & Hw & _ & _ &
                    Hrow & Hne & Hset & _ & Hupd)].
    + by apply advances_same.
    + eapply advances_updatesGame; [done..|apply sameSession_afterBotMove|].
      rewrite Board_afterBotMove.
      eapply keepsDiscs_setCell; [by eapply lowestEmptyRow_empty|done].
  - by apply advances_opensGames, (botTimerFire_opensGames _ _ _ _ _ _ H).
  - apply advances_same. by apply handleDisconnect_playersOnly in H as [? _].
  - apply forfeitTimerFire_inv in H
      as [->|(player & game & o & opponent & _ & Hg & _ & Hw & _ & _ & Hupd)].
    + apply advances_refl.
    + eapply advances_updatesGame; [done..|by repeat split|apply keepsDiscs_refl].
Qed.

Lemma steps_advances (w w' : World) : steps w w' -> advances w w'.
Proof.
  induction 1 as [w|w1 w2 w3 H12 _ IH]; [apply advances_refl|].
  eapply advances_trans; [by apply step_advances|done].
Qed.

Lemma steps_reachable (w w' : World) : reachable w -> steps w w' -> reachable w'.
Proof.
  intros Hw. induction 1 as [w|w1 w2 w3 H12 _ IH]; [done|].
  apply IH. by eapply reachable_step.
Qed.

(** X13. A game that has a result is never changed again: whatever the
    server does afterwards (moves of anyone, bot moves, joins and rejoins,
    timers, disconnects) the game object stays exactly as it was, with its
    board, its result and its end time. *)
Theorem finished_game_never_changes (w w' : World) (g : loc) (game : GameState) :
  steps w w' -> gameObjs w !! g = Some game -> Winner game <> ""%string ->
  gameObjs w' !! g = Some game.
Proof.
  intros Hrun Hg Hw.
  destruct (steps_advances w w' Hrun g game Hg) as (game' & Hg' & _ & _ & Hsame).
  by rewrite (Hsame Hw) in Hg'.
Qed.

Lemma finished_game_never_changes_witness :
  gameObjs (default (exampleWorld lineBoard Yellow "red")
              (snd <$> handleJoin 9 "carol" [("g1"%string, 0%nat)] "g2" 3
                                  (exampleWorld lineBoard Yellow "red")))
    !! 0%nat
  = Some (exampleGame lineBoard Yellow "red").
Proof.
  apply (finished_game_never_changes (exampleWorld lineBoard Yellow "red")).
  - apply rtc_once.
    eapply (step_join 9%nat "carol"%string [("g1"%string, 0%nat)] "g2"%string 3);
      vm_compute; reflexivity.
  - reflexivity.
  - discriminate.
Defined.

(** X14. Along every run a game stays the same session (id, seats, start
    time and bot flag never change) and its board only grows: a disc, once
    on the board, stays in its cell with its color. *)
Theorem board_only_grows (w w' : World) (g : loc) (game : GameState) :
  steps w w' -> gameObjs w !! g = Some game ->
  exists game',
    gameObjs w' !! g = Some game' /\
    ID game' = ID game /\ Player1 game' = Player1 game /\
    Player2 game' = Player2 game /\ StartTime game' = StartTime game /\
    IsBot game' = IsBot game /\
    forall r c x, cell (Board game) r c = Some x -> x <> Empty ->
                  cell (Board game') r c = Some x.
Proof.
  intros Hrun Hg.
  destruct (steps_advances w w' Hrun g game Hg)
    as (game' & Hg' & (?&?&?&?&?) & Hkeep & _).
  exists game'. split_and!; done.
Qed.

Lemma board_only_grows_witness :
  exists game',
    gameObjs (default (exampleWorld threeRedBoard Red "")
                (snd <$> handleMove 3 0%nat 0%nat 3 (exampleWorld threeRedBoard Red "")))
      !! 0%nat = Some game' /\
    ID game' = "g1"%string /\ Player1 game' = Some 0%nat /\
    Player2 game' = Some 1%nat /\ StartTime game' = 0 /\
    IsBot game' = false /\
    forall r c x, cell threeRedBoard r c = Some x -> x <> Empty ->
                  cell (Board game') r c = Some x.
Proof.
  apply (board_only_grows (exampleWorld threeRedBoard Red "") _ 0%nat
           (exampleGame threeRedBoard Red "")).
  - apply rtc_once. eapply (step_move 3 0%nat 0%nat 3). vm_compute. reflexivity.
  - reflexivity.
Defined.

(** ** The registry and the health endpoint *)

Lemma registryGrows_refl (w : World) : registryGrows w w.
Proof. unfold registryGrows. reflexivity. Qed.

Lemma registryGrows_trans (w1 w2 w3 : World) :
  registryGrows w1 w2 -> registryGrows w2 w3 -> registryGrows w1 w3.
Proof. unfold registryGrows. intros H12 H23. by etrans. Qed.

Lemma registryGrows_same (w w' : World) :
  games w' = games w -> registryGrows w w'.
Proof. unfold registryGrows. by intros ->. Qed.

Lemma registryGrows_playersOnly (w w' : World) :
  playersOnly w w' -> registryGrows w w'.
Proof. intros (_ & E & _). by apply registryGrows_same. Qed.

Lemma registryGrows_updatesGame (w : World) (g : loc) (x : GameState) (w' : World) :
  updatesGame w g x w' -> registryGrows w w'.
Proof. intros [evs ->]. by apply registryGrows_same. Qed.

(** The framing of [createGame] and its callers once more, for relations
    that allow the registry to get entries but not to lose any. *)
Section Registering.
Variable R : World -> World -> Prop.
Hypothesis R_refl : forall w, R w w.
Hypothesis R_trans : forall w1 w2 w3, R w1 w2 -> R w2 w3 -> R w1 w3.
Hypothesis R_same : forall w w', games w' = games w -> R w w'.
Hypothesis R_register : forall w id g, R w (set_games w (<[id := g]> (games w))).

Let R_trace : forall w evs, R w (set_trace w (trace w ++ evs)).
Proof. intros. by apply R_same. Qed.

Let R_players : forall w x, R w (set_players w x).
Proof. intros. by apply R_same. Qed.

Let same (m : M unit) : (forall w w', m w = Some (tt, w') -> games w' = games w) ->
                        respects R m.
Proof. intros H w [] w' Hm. by apply R_same, H. Qed.

Lemma registering_createGame (gameID : string) (now : Z) (p1 p2 : loc)
      (isBot : bool) :
  respects R (createGame gameID now p1 p2 isBot).
Proof.
  unfold createGame.
  apply respects_bind; [done|by apply respects_getPlayer|]. intros x1.
  apply respects_bind; [done|by apply respects_setPlayer|]. intros _.
  apply respects_bind; [done|by apply respects_getPlayer|]. intros x2.
  apply respects_bind; [done|by apply respects_setPlayer|]. intros _.
  apply respects_bind; [done|intros w a w' [= _ <-]; by apply R_same|]. intros g.
  apply respects_bind; [done|intros w a w' [= _ <-]; apply R_register|]. intros _.
  apply respects_bind; [done|by apply respects_getPlayer|]. intros y1.
  apply respects_bind; [done|by apply respects_getPlayer|]. intros y2.
  apply respects_bind; [done|intros w a w' [= _ <-]; by apply R_same|]. intros _.
  apply respects_bind; [done| |].
  { apply respects_if; [|by apply respects_ret].
    intros w a w' [= _ <-]. by apply R_same. }
  intros _.
  apply respects_bind; [done|by apply respects_sendIfConn|]. intros _.
  apply respects_bind; [done| |].
  { apply respects_if; [by apply respects_sendIfConn|by apply respects_ret]. }
  intros _.
  apply respects_bind; [done|by apply respects_sendKafkaGameStart|]. intros _.
  by apply respects_ret.
Qed.

Lemma registering_matchPlayer (order : list (string * loc)) (gameID : string)
      (now : Z) (p : loc) :
  respects R (matchPlayer order gameID now p).
Proof.
  unfold matchPlayer.
  apply respects_bind; [done|by apply respects_rejoinLoop|]. intros [g|].
  { by apply respects_ret. }
  apply respects_bind; [done|by apply respects_getWorld|]. intros w0.
  destruct (waitingPlayers w0) as [|opponent rest].
  - apply respects_bind; [done|intros w a w' [= _ <-]; by apply R_same|]. intros _.
    apply respects_bind; [done|by apply respects_getPlayer|]. intros player.
    apply respects_bind; [done|by apply respects_lift|]. intros c.
    apply respects_bind; [done|by apply respects_emit|]. intros _.
    apply respects_bind; [done|by apply respects_emit|]. intros _.
    by apply respects_ret.
  - apply respects_bind; [done|intros w a w' [= _ <-]; by apply R_same|]. intros _.
    apply respects_bind; [done|apply registering_createGame|]. intros g.
    by apply respects_ret.
Qed.

Lemma registering_handleJoin (conn : nat) (username : string)
      (order : list (string * loc)) (gameID : string) (now : Z) :
  respects R (handleJoin conn username order gameID now).
Proof.
  unfold handleJoin.
  apply respects_bind; [done|by apply respects_allocPlayer|]. intros p.
  apply respects_bind; [done|apply registering_matchPlayer|]. intros g.
  by apply respects_ret.
Qed.

Lemma registering_botTimerFire (gameID : string) (now : Z) (p : loc) :
  respects R (botTimerFire gameID now p).
Proof.
  unfold botTimerFire.
  apply respects_bind; [done|by apply respects_getWorld|]. intros w0.
  destruct (list_find _ _) as [[i q]|]; [|by apply respects_ret].
  apply respects_bind; [done|intros w a w' [= _ <-]; by apply R_same|]. intros _.
  apply respects_bind; [done|by apply respects_allocPlayer|]. intros bot.
  apply respects_bind; [done|apply registering_createGame|]. intros g.
  by apply respects_ret.
Qed.
End Registering.

Lemma registryGrows_register (w : World) (id : string) (g : loc) :
  registryGrows w (set_games w (<[id := g]> (games w))).
Proof. unfold registryGrows. simpl. rewrite dom_insert. apply union_subseteq_r. Qed.

Lemma step_registryGrows (w w' : World) : step w w' -> registryGrows w w'.
Proof.
  intros [conn username order gameID now w0 r w1 _ H
         |now g p col w0 w1 H
         |now g w0 w1 H
         |gameID now p w0 w1 H
         |p g w0 w1 H
         |now p g w0 w1 H].
  - eapply (registering_handleJoin registryGrows); [..|exact H];
      first [exact registryGrows_refl | exact registryGrows_trans
            | exact registryGrows_same | exact registryGrows_register].
  - apply handleMove_inv in H
      as [[evs ->]|(game & player & row & b1 & wins & _ & _ & _ & _ & _ &
                    _ & _ & _ & _ & Hupd)].
    + by apply registryGrows_same.
    + by eapply registryGrows_updatesGame.
  - apply makeBotMove_inv in H
      as [[evs ->]|(game & col & row & b1 & wins & _ & _ & _ & _ &
                    _ & _ & _ & _ & Hupd)].
    + by apply registryGrows_same.
    + by eapply registryGrows_updatesGame.
  - eapply (registering_botTimerFire registryGrows); [..|exact H];
      first [exact registryGrows_refl | exact registryGrows_trans
            | exact registryGrows_same | exact registryGrows_register].
  - by apply registryGrows_playersOnly, (handleDisconnect_playersOnly _ _ _ _ _ H).
  - apply forfeitTimerFire_inv in H
      as [->|(player & game & o & opponent & _ & _ & _ & _ & _ & _ & Hupd)].
    + apply registryGrows_refl.
    + by eapply registryGrows_updatesGame.
Qed.

Lemma steps_registryGrows (w w' : World) : steps w w' -> registryGrows w w'.
Proof.
  induction 1 as [w|w1 w2 w3 H12 _ IH]; [apply registryGrows_refl|].
  eapply registryGrows_trans; [by apply step_registryGrows|done].
Qed.

(** X15. The health endpoint.  Its count of active games is the size of the
    registry, and no step takes an entry out of the registry: along every
    run the count never goes down, and a game that was registered under an
    id, finished or not, leaves an entry under that id.  Its count of waiting
    participants is the length of the queue, which is 0 or 1 in every state
    the server reaches. *)
Theorem healthCheck_counts :
  (forall w w', steps w w' ->
     ((healthCheck w).1 <= (healthCheck w').1)%nat /\
     forall id g, games w !! id = Some g -> is_Some (games w' !! id)) /\
  (forall w, reachable w -> ((healthCheck w).2 <= 1)%nat).
Proof.
  split.
  - intros w w' Hgrow%steps_registryGrows. unfold registryGrows in Hgrow. split.
    + unfold healthCheck. simpl. rewrite <- !size_dom. by apply subseteq_size.
    + intros id g Hid. apply elem_of_dom, Hgrow, elem_of_dom. by exists g.
  - intros w Hw. by apply reachable_queue.
Qed.

Lemma healthCheck_counts_witness :
  ((healthCheck aliceWaits).1 <= (healthCheck
       (default aliceWaits (snd <$> handleJoin 2 "bob" [] "g1" 0 aliceWaits))).1)%nat /\
  ((healthCheck twoAlices).2 <= 1)%nat.
Proof.
  split.
  - refine (proj1 (proj1 healthCheck_counts aliceWaits _ _)).
    apply rtc_once. eapply (step_join 2%nat "bob"%string [] "g1"%string 0);
      vm_compute; reflexivity.
  - apply (proj2 healthCheck_counts). apply twoAlices_reachable.
Defined.

(** ** The values games hold along runs *)

Lemma soundGame_fresh (game : GameState) : freshGame game -> soundGame game.
Proof.
  intros (Hb & _ & Hw & He). unfold soundGame, isBoardFull. rewrite Hb, Hw, He.
  split_and!; [|by left|done|done].
  intros r c x Hx%cell_emptyBoard. by left.
Qed.

Lemma soundGame_cells (game : GameState) (row col : Z) (v : string) (b1 : Grid) :
  soundGame game -> v = Red \/ v = Yellow ->
  setCell (Board game) row col v = Some b1 ->
  forall r c x, cell b1 r c = Some x -> x = Empty \/ x = Red \/ x = Yellow.
Proof.
  intros (Hcells & _) Hv Hset r c x Hx.
  destruct (decide (r = row /\ c = col)) as [[-> ->]|Hother].
  - rewrite (cell_setCell_eq _ _ _ _ _ Hset) in Hx. injection Hx as <-. by right.
  - rewrite (cell_setCell_ne _ _ _ _ _ r c Hset) in Hx by lia. by eapply Hcells.
Qed.

Lemma soundGame_afterMove (game : GameState) (color : Color) (now : Z)
      (row col : Z) (b1 : Grid) (wins : bool) :
  soundGame game -> Winner game = ""%string -> color = Red \/ color = Yellow ->
  setCell (Board game) row col color = Some b1 ->
  soundGame (afterMove game color now b1 wins).
Proof.
  intros Hsound Hw Hcolor Hset.
  pose proof (soundGame_cells _ _ _ _ _ Hsound Hcolor Hset) as Hcells.
  destruct Hsound as (_ & _ & Hend & _).
  unfold afterMove. destruct wins; [|destruct (isBoardFull _) eqn:Hfull].
  - split_and!; simpl; [done| |by destruct Hcolor as [-> | ->]
                       |by destruct Hcolor as [-> | ->]].
    destruct Hcolor as [-> | ->]; auto.
  - split_and!; simpl; [done|auto|done|done].
  - split_and!; simpl; [done|auto|done|done].
Qed.

Lemma soundGame_afterBotMove (game : GameState) (now : Z)
      (row col : Z) (b1 : Grid) (wins : bool) :
  soundGame game -> Winner game = ""%string ->
  setCell (Board game) row col Yellow = Some b1 ->
  soundGame (afterBotMove game now b1 wins).
Proof.
  intros Hsound Hw Hset.
  assert (Yellow = Red \/ Yellow = Yellow) as Hcolor by (by right).
  pose proof (soundGame_cells _ _ _ _ _ Hsound Hcolor Hset) as Hcells.
  destruct Hsound as (_ & _ & Hend & _).
  unfold afterBotMove. destruct wins; [|destruct (isBoardFull _) eqn:Hfull].
  - split_and!; simpl; [done|auto|done|done].
  - split_and!; simpl; [done|auto|done|done].
  - split_and!; simpl; [done|auto|done|done].
Qed.

Lemma soundGame_afterForfeit (game : GameState) (winner : Color) (now : Z) :
  soundGame game -> winner = Red \/ winner = Yellow ->
  soundGame (afterForfeit game winner now).
Proof.
  intros (Hcells & _) Hcolor. unfold afterForfeit.
  split_and!; simpl; [done| |by destruct Hcolor as [-> | ->]
                     |by destruct Hcolor as [-> | ->]].
  destruct Hcolor as [-> | ->]; auto.
Qed.

Lemma soundGames_same (w w' : World) :
  gameObjs w' = gameObjs w -> soundGames w -> soundGames w'.
Proof. intros E H g game. rewrite E. apply H. Qed.

Lemma soundGames_updatesGame (w : World) (g : loc) (x : GameState) (w' : World) :
  updatesGame w g x w' -> soundGame x -> soundGames w -> soundGames w'.
Proof.
  intros [evs ->] Hx Hsound g' game'. simpl. rewrite lookup_insert.
  case_decide; [by intros [= <-]|by apply Hsound].
Qed.

Lemma soundGames_opensGames (w w' : World) :
  opensGames w w' -> soundGames w -> soundGames w'.
Proof.
  intros [_ Hnew] Hsound g game' Hg'.
  destruct (Hnew g game' Hg') as [Hold|[_ Hfresh]]; [by eapply Hsound|].
  by apply soundGame_fresh.
Qed.

Lemma getOpponent_seat (game : GameState) (p o : loc) :
  getOpponent game p = Some o -> Player1 game = Some o \/ Player2 game = Some o.
Proof. unfold getOpponent. case_decide; auto. Qed.

Lemma step_soundGames (w w' : World) :
  goodGames w -> goodSeats w -> step w w' -> soundGames w -> soundGames w'.
Proof.
  intros Hgood Hseats Hstep. revert Hgood Hseats.
  destruct Hstep as [conn username order gameID now w0 r w1 _ H
                    |now g p col w0 w1 H
                    |now g w0 w1 H
                    |gameID now p w0 w1 H
                    |p g w0 w1 H
                    |now p g w0 w1 H]; intros Hgood Hseats Hsound.
  - by eapply soundGames_opensGames, Hsound; eapply handleJoin_opensGames.
  - apply handleMove_inv in H
      as [[evs ->]|(game & player & row & b1 & wins & Hg & _ & Hw & Hturn & _ &
                    _ & _ & Hset & _ & Hupd)]; [done|].
    eapply soundGames_updatesGame; [done| |done].
    eapply soundGame_afterMove; [by eapply Hsound|done| |done].
    rewrite Hturn. by destruct (Hgood g game Hg) as (_ & _ & ?).
  - apply makeBotMove_inv in H
      as [[evs ->]|(game & col & row & b1 & wins & Hg & Hw & _ & _ &
                    _ & _ & Hset & _ & Hupd)]; [done|].
    eapply soundGames_updatesGame; [done| |done].
    eapply soundGame_afterBotMove; [by eapply Hsound|done..].
  - by eapply soundGames_opensGames, Hsound; eapply botTimerFire_opensGames.
  - eapply soundGames_same; [|done].
    by apply handleDisconnect_playersOnly in H as [? _].
  - apply forfeitTimerFire_inv in H
      as [->|(player & game & o & opponent & _ & Hg & _ & Hw & Hopp & Ho & Hupd)];
      [done|].
    eapply soundGames_updatesGame; [done| |done].
    eapply soundGame_afterForfeit; [by eapply Hsound|].
    destruct Hseats as (Hcolored & _).
    destruct (coloredSeats_valid _ _ o (Hcolored g game Hg)) as (x & Hx & Hc).
    { by eapply getOpponent_seat. }
    congruence.
Qed.

Lemma reachable_soundGames (w : World) : reachable w -> soundGames w.
Proof.
  induction 1 as [db kafka|w w' Hw IH Hstep].
  - intros g game H. simpl in H. by rewrite lookup_empty in H.
  - eapply step_soundGames; [by apply reachable_goodGames
                            |by apply reachable_goodSeats|done..].
Qed.

(** X16. In every state the server reaches, every game holds sound values:
    each cell of the board is empty, red or yellow; the result is absent,
    red, yellow or draw; the end time is set exactly when the result is; and
    a game without result has an empty cell left on its board. *)
Theorem reachable_game_values (w : World) (g : loc) (game : GameState) :
  reachable w -> gameObjs w !! g = Some game ->
  (forall r c x, cell (Board game) r c = Some x ->
     x = Empty \/ x = Red \/ x = Yellow) /\
  (Winner game = ""%string \/ Winner game = "red"%string \/
   Winner game = "yellow"%string \/ Winner game = "draw"%string) /\
  (EndTime game = None <-> Winner game = ""%string) /\
  (Winner game = ""%string ->
   exists r c, inGrid r c /\ cell (Board game) r c = Some Empty).
Proof.
  intros Hw Hg.
  destruct (reachable_soundGames w Hw g game Hg) as (Hcells & Hres & Hend & Hroom).
  split_and!; [done..|]. intros Hgo.
  apply isBoardFull_false; [|by apply Hroom].
  by destruct (reachable_goodGames w Hw g game Hg) as [? _].
Qed.

Lemma reachable_game_values_witness :
  exists game,
    gameObjs twoAlices !! 0%nat = Some game /\
    (forall r c x, cell (Board game) r c = Some x ->
       x = Empty \/ x = Red \/ x = Yellow) /\
    (Winner game = ""%string \/ Winner game = "red"%string \/
     Winner game = "yellow"%string \/ Winner game = "draw"%string) /\
    (EndTime game = None <-> Winner game = ""%string) /\
    (Winner game = ""%string ->
     exists r c, inGrid r c /\ cell (Board game) r c = Some Empty).
Proof.
  eexists. split; [vm_compute; reflexivity|].
  apply (reachable_game_values twoAlices 0%nat).
  - apply twoAlices_reachable.
  - vm_compute. reflexivity.
Defined.

(** In a reachable state the bot's column has room and its move is applied. *)
Lemma makeBotMove_reachable (now : Z) (w : World) (g : loc) (game : GameState) :
  reachable w -> gameObjs w !! g = Some game -> Winner game = ""%string ->
  exists c row b1 wins evs,
    getBotMove game = Some (c, game) /\ 0 <= c < COLS /\
    hasRoom (Board game) c /\ lowestEmpty (Board game) c row /\
    setCell (Board game) row c Yellow = Some b1 /\
    makeBotMove now g w
    = Some (tt, set_trace
                  (set_gameObjs w (<[g := afterBotMove game now b1 wins]> (gameObjs w)))
                  (trace w ++ evs)).
Proof.
  intros Hreach Hg Hw.
  destruct (reachable_goodGames w Hreach g game Hg) as (Hwf & Hgrav & _).
  destruct (goodSeats_seated w g game (reachable_goodSeats w Hreach) Hg)
    as (game0 & l1 & l2 & x1 & x2 & Hg0 & H1 & Hx1 & H2 & Hx2).
  assert (game0 = game) as -> by congruence.
  destruct (reachable_soundGames w Hreach g game Hg) as (_ & _ & _ & Hroom).
  destruct (isBoardFull_false game Hwf (Hroom Hw)) as (r & c0 & [Hr Hc0] & Hcell).
  destruct (lowestEmptyRow_found _ c0 r Hwf Hc0 Hr Hcell) as (row0 & _ & Hlow0).
  pose proof (gravity_hasRoom _ _ _ Hwf Hgrav Hlow0) as Hroom0.
  destruct (getBotMove_spec game Hwf) as (c & Hbot & Hchoice).
  destruct (botChoice_lowestEmpty _ _ _ _ _ Hwf Hchoice Hroom0)
    as (Hcol & row & Hlow).
  pose proof Hlow as (Hrange & Hc & _).
  destruct (setCell_total _ _ _ _ Yellow Hc) as [b1 Hb1].
  destruct (checkWinner_total (set_Board game b1) row c) as [wins Hwins].
  { by eapply setCell_wfGrid. }
  { by eapply cell_Some_inGrid. }
  pose proof (makeBotMove_effects now w g game Hg l1 l2 x1 x2 c row b1 wins
                H1 Hx1 H2 Hx2 Hw Hbot) as Heq.
  cbv zeta in Heq.
  exists c, row, b1, wins. eexists.
  split; [done|]. split; [done|]. split; [by eapply gravity_hasRoom|].
  split; [done|]. split; [done|].
  apply Heq; [lia|by apply lowestEmpty_lowestEmptyRow|lia|done|done].
Qed.

(** X17. In every state the server reaches, the bot can move in every game
    without result: [getBotMove] names a column of the board whose top cell
    is empty, and [makeBotMove] returns with a yellow disc in the lowest
    empty cell of that column and every other cell as it was.  The early
    returns of [makeBotMove] for "no column" and "no row" are never taken in
    a game without result. *)
Theorem bot_always_finds_a_move (now : Z) (w : World) (g : loc) (game : GameState) :
  reachable w -> gameObjs w !! g = Some game -> Winner game = ""%string ->
  exists c row w' game',
    getBotMove game = Some (c, game) /\ 0 <= c < COLS /\
    hasRoom (Board game) c /\ lowestEmpty (Board game) c row /\
    makeBotMove now g w = Some (tt, w') /\
    gameObjs w' !! g = Some game' /\
    cell (Board game') row c = Some Yellow /\
    (forall r c', r <> row \/ c' <> c ->
       cell (Board game') r c' = cell (Board game) r c').
Proof.
  intros Hreach Hg Hw.
  destruct (makeBotMove_reachable now w g game Hreach Hg Hw)
    as (c & row & b1 & wins & evs & Hbot & Hcol & Hroom & Hlow & Hb1 & Hrun).
  exists c, row. eexists _, (afterBotMove game now b1 wins).
  split; [done|]. split; [done|]. split; [done|]. split; [done|].
  split; [exact Hrun|]. split; [simpl; apply lookup_insert_eq|].
  rewrite Board_afterBotMove. split.
  - by eapply cell_setCell_eq.
  - intros r c' Hother. by eapply cell_setCell_ne.
Qed.

Lemma bot_always_finds_a_move_witness :
  exists c row w' game',
    getBotMove (exampleGame oneRedBoard Yellow "")
    = Some (c, exampleGame oneRedBoard Yellow "") /\
    0 <= c < COLS /\
    hasRoom oneRedBoard c /\ lowestEmpty oneRedBoard c row /\
    makeBotMove 4 0%nat twoAlices = Some (tt, w') /\
    gameObjs w' !! 0%nat = Some game' /\
    cell (Board game') row c = Some Yellow /\
    (forall r c', r <> row \/ c' <> c ->
       cell (Board game') r c' = cell oneRedBoard r c').
Proof.
  apply (bot_always_finds_a_move 4 twoAlices 0%nat
           (exampleGame oneRedBoard Yellow "")).
  - apply twoAlices_reachable.
  - vm_compute. reflexivity.
  - reflexivity.
Defined.

(** ** Disconnects, run forward *)

Lemma handleDisconnect_exact (p g : loc) (w : World) (player : Player)
      (game : GameState) (o : loc) (opponent : Player) :
  players w !! p = Some player -> gameObjs w !! g = Some game ->
  getOpponent game p = Some o -> o <> p -> players w !! o = Some opponent ->
  handleDisconnect p g w
  = Some (tt, set_trace
                (set_players w (<[p := set_Disconnected player true]> (players w)))
                (trace w ++ notify opponent opponentDisconnectedMessage ++
                 [Go (ForfeitTask p g)])).
Proof.
  intros Hp Hg Hopp Hne Ho.
  unfold handleDisconnect, mbind, M_bind, bind, getPlayer, setPlayer, getGame.
  rewrite Hp. simpl. rewrite Hg, Hopp. simpl.
  rewrite lookup_insert_ne by done. rewrite Ho.
  rewrite emits_sendIfConn. unfold emit. simpl. by rewrite <- app_assoc.
Qed.

Lemma forfeitTimerFire_exact (now : Z) (w : World) (p g : loc)
      (game : GameState) (player : Player) (o : loc) (opponent : Player)
      (l1 l2 : loc) (x1 x2 : Player) :
  players w !! p = Some player -> gameObjs w !! g = Some game ->
  Disconnected player = true -> Winner game = ""%string ->
  getOpponent game p = Some o -> players w !! o = Some opponent ->
  Player1 game = Some l1 -> players w !! l1 = Some x1 ->
  Player2 game = Some l2 -> players w !! l2 = Some x2 ->
  let game' := afterForfeit game (PlayerColor opponent) now in
  forfeitTimerFire now p g w
  = Some (tt, set_trace (set_gameObjs w (<[g := game']> (gameObjs w)))
                (trace w ++
                 (if db w then
                    [DbInsert (ID game') (Username x1) (Username x2)
                              (winnerUsername game' x1 x2)
                              (StartTime game') (EndTime game') (IsBot game')]
                  else []) ++
                 notify opponent (gameForfeitedMessage (PlayerColor opponent)))).
Proof.
  intros Hp Hg Hd Hw Hopp Ho H1 Hx1 H2 Hx2 game'.
  unfold forfeitTimerFire, mbind, M_bind, bind, getGame, getPlayer.
  rewrite Hp. cbv beta iota. rewrite Hg. cbv beta iota.
  rewrite Hd, Hw. simpl. rewrite Hopp, Ho. unfold setGame. cbv beta iota.
  set (w2 := set_gameObjs _ _).
  assert (w2 = set_gameObjs w (<[g := game']> (gameObjs w))) as Hw2.
  { unfold w2, set_gameObjs. simpl. by rewrite insert_insert_eq. }
  rewrite (emits_saveGame w2 g game' l1 l2 x1 x2);
    [|rewrite Hw2; apply lookup_insert_eq|done|by rewrite Hw2|done|by rewrite Hw2].
  change (getOpponent (set_Winner game (PlayerColor opponent)) p)
    with (getOpponent game p).
  rewrite Hopp. simpl.
  rewrite Ho, emits_sendIfConn, Hw2. unfold set_trace. simpl.
  by rewrite <- app_assoc.
Qed.

(** X18. [handleDisconnect] for a participant [p] who holds a seat of the
    game, the other seat being [o].  It returns; [p] is marked disconnected
    and keeps its connection and its side; [o] is sent
    opponent_disconnected if it has a connection; the forfeit timer for [p]
    and the game is started; the game (board, turn marker, result), the
    registry, the index and the queue stay as they were.  From then on the
    username of [p] can rejoin the game for as long as it has no result. *)
Theorem handleDisconnect_marks_and_notifies (p o g : loc) (w : World)
        (player opponent : Player) (game : GameState) :
  players w !! p = Some player -> players w !! o = Some opponent ->
  gameObjs w !! g = Some game -> seats game p o ->
  exists w',
    handleDisconnect p g w = Some (tt, w') /\
    players w' !! p = Some (set_Disconnected player true) /\
    players w' !! o = Some opponent /\
    gameObjs w' = gameObjs w /\ games w' = games w /\
    playerGames w' = playerGames w /\ waitingPlayers w' = waitingPlayers w /\
    trace w' = trace w ++ notify opponent opponentDisconnectedMessage ++
               [Go (ForfeitTask p g)] /\
    (Winner game = ""%string -> rejoinable w' (Username player) g).
Proof.
  intros Hp Ho Hg Hseats.
  pose proof (getOpponent_seats _ _ _ Hseats) as Hopp.
  pose proof Hseats as [Hne Hwhich].
  rewrite (handleDisconnect_exact p g w player game o opponent) by done.
  eexists. split; [reflexivity|]. simpl.
  split_and!; try done.
  - apply lookup_insert_eq.
  - by rewrite lookup_insert_ne.
  - intros Hw. exists p, game, (set_Disconnected player true). simpl.
    split_and!; try done.
    + destruct Hwhich as [[? _]|[_ ?]]; auto.
    + apply lookup_insert_eq.
Qed.

Lemma handleDisconnect_marks_and_notifies_witness :
  exists w',
    handleDisconnect 0%nat 0%nat (exampleWorld threeRedBoard Red "") = Some (tt, w') /\
    players w' !! 0%nat = Some (set_Disconnected alice true) /\
    players w' !! 1%nat = Some bob /\
    gameObjs w' = gameObjs (exampleWorld threeRedBoard Red "") /\
    games w' = games (exampleWorld threeRedBoard Red "") /\
    playerGames w' = playerGames (exampleWorld threeRedBoard Red "") /\
    waitingPlayers w' = waitingPlayers (exampleWorld threeRedBoard Red "") /\
    trace w' = trace (exampleWorld threeRedBoard Red "") ++
               notify bob opponentDisconnectedMessage ++
               [Go (ForfeitTask 0%nat 0%nat)] /\
    (Winner (exampleGame threeRedBoard Red "") = ""%string ->
     rejoinable w' (Username alice) 0%nat).
Proof.
  apply (handleDisconnect_marks_and_notifies 0%nat 1%nat 0%nat
           (exampleWorld threeRedBoard Red "") alice bob
           (exampleGame threeRedBoard Red "")).
  - reflexivity.
  - reflexivity.
  - reflexivity.
  - split; [done|]. left. split; reflexivity.
Defined.

Lemma rejoinable_insert_unseated (w : World) (p : loc) (x : Player)
      (name : string) (g : loc) (game : GameState) :
  gameObjs w !! g = Some game ->
  Player1 game <> Some p -> Player2 game <> Some p ->
  rejoinable (set_players w (<[p := x]> (players w))) name g <->
  rejoinable w name g.
Proof.
  intros Hg Hn1 Hn2. split.
  - intros (seat & game' & s & Hg' & Hw & Hseat & Hs & Hname & Hd).
    simpl in Hg', Hs. assert (game' = game) as -> by congruence.
    rewrite lookup_insert_ne in Hs by (intros ->; destruct Hseat; congruence).
    by exists seat, game, s.
  - intros (seat & game' & s & Hg' & Hw & Hseat & Hs & Hname & Hd).
    assert (game' = game) as -> by congruence.
    exists seat, game, s. simpl. split_and!; try done.
    rewrite lookup_insert_ne; [done|]. intros ->. destruct Hseat; congruence.
Qed.

(** X19. A disconnect reported for a player object that holds no seat of the
    game, as the connection handler holds one after a rejoin.  The object is
    marked, the seats are not: who could rejoin the game before can do so
    after and nobody else, so the participant who drops a second time cannot
    come back.  opponent_disconnected goes to the first seat, whoever
    dropped.  And when the timer fires on a game without result, the game is
    forfeited to the side of the first seat, whoever dropped, and the first
    seat is told so. *)
Theorem stale_handle_forfeits_to_first_seat (now : Z) (p g : loc) (w : World)
        (player : Player) (game : GameState) (l1 l2 : loc) (x1 x2 : Player) :
  players w !! p = Some player -> gameObjs w !! g = Some game ->
  Player1 game = Some l1 -> players w !! l1 = Some x1 ->
  Player2 game = Some l2 -> players w !! l2 = Some x2 ->
  p <> l1 -> p <> l2 ->
  exists w1,
    handleDisconnect p g w = Some (tt, w1) /\
    players w1 !! l1 = Some x1 /\ players w1 !! l2 = Some x2 /\
    gameObjs w1 = gameObjs w /\
    (forall name, rejoinable w1 name g <-> rejoinable w name g) /\
    trace w1 = trace w ++ notify x1 opponentDisconnectedMessage ++
               [Go (ForfeitTask p g)] /\
    (Winner game = ""%string ->
     exists w2 game',
       forfeitTimerFire now p g w1 = Some (tt, w2) /\
       gameObjs w2 !! g = Some game' /\
       Winner game' = PlayerColor x1 /\ EndTime game' = Some now /\
       Board game' = Board game /\
       forall c, Conn x1 = Some c ->
         last (trace w2) = Some (WriteJSON c (gameForfeitedMessage (PlayerColor x1)))).
Proof.
  intros Hp Hg H1 Hx1 H2 Hx2 Hn1 Hn2.
  assert (getOpponent game p = Some l1) as Hopp.
  { unfold getOpponent. rewrite decide_False; [done|]. rewrite H1. congruence. }
  rewrite (handleDisconnect_exact p g w player game l1 x1) by done.
  eexists. split; [reflexivity|].
  set (w1 := set_trace _ _).
  assert (players w1 !! l1 = Some x1) as Hx1'.
  { unfold w1. simpl. by rewrite lookup_insert_ne. }
  assert (players w1 !! l2 = Some x2) as Hx2'.
  { unfold w1. simpl. by rewrite lookup_insert_ne. }
  split_and!; try done.
  - intros name.
    apply (rejoinable_insert_unseated w p (set_Disconnected player true) name g game);
      [done|rewrite H1; congruence|rewrite H2; congruence].
  - intros Hw.
    pose proof (forfeitTimerFire_exact now w1 p g game
                  (set_Disconnected player true) l1 x1 l1 l2 x1 x2) as Heq.
    cbv zeta in Heq. rewrite Heq; try done; [|unfold w1; simpl; apply lookup_insert_eq].
    eexists _, _. split; [reflexivity|]. simpl.
    split; [apply lookup_insert_eq|]. split_and!; try done.
    intros c Hc. unfold notify. rewrite Hc.
    by rewrite !app_assoc, last_snoc.
Qed.

Lemma stale_handle_forfeits_to_first_seat_witness :
  exists w1,
    handleDisconnect 2%nat 0%nat
      (default (NewGameServer false false)
         (run [ join 1 "alice" [] "g1"; join 2 "bob" [] "g1";
                handleDisconnect 0%nat 0%nat;
                join 3 "alice" [("g1"%string, 0%nat)] "g2" ]
              (NewGameServer false false))) = Some (tt, w1) /\
    (Disconnected <$> players w1 !! 0%nat) = Some false /\
    (""%string = ""%string ->
     exists w2 game',
       forfeitTimerFire 60 2%nat 0%nat w1 = Some (tt, w2) /\
       gameObjs w2 !! 0%nat = Some game' /\
       Winner game' = Red).
Proof.
  destruct (stale_handle_forfeits_to_first_seat 60 2%nat 0%nat
              (default (NewGameServer false false)
                 (run [ join 1 "alice" [] "g1"; join 2 "bob" [] "g1";
                        handleDisconnect 0%nat 0%nat;
                        join 3 "alice" [("g1"%string, 0%nat)] "g2" ]
                      (NewGameServer false false)))
              (mkPlayer "alice" Red (Some 3%nat) 0 false)
              (mkGameState "g1" emptyBoard (Some 0%nat) (Some 1%nat) Red "" 0 None false)
              0%nat 1%nat
              (mkPlayer "alice" Red (Some 3%nat) 0 false)
              (mkPlayer "bob" Yellow (Some 2%nat) 0 false))
    as (w1 & Hrun & Hx1 & _ & _ & _ & _ & Hfire);
    [reflexivity|reflexivity|reflexivity|reflexivity|reflexivity|reflexivity
    |done|done|].
  exists w1. split; [exact Hrun|]. split; [by rewrite Hx1|].
  intros Hw. destruct (Hfire Hw) as (w2 & game' & Hf & Hg' & Hwin & _).
  exists w2, game'. exact (conj Hf (conj Hg' Hwin)).
Defined.

(** ** What a returning join did *)

Lemma handleJoin_inv conn username order gameID now w r w' :
  goodSeats w ->
  handleJoin conn username order gameID now w = Some (r, w') ->
  let p := fresh (dom (players w)) in
  let w0 := set_players w (<[p := joiner conn username now]> (players w)) in
  r.1 = p /\ players w !! p = None /\
  ((exists g, r.2 = Some g /\ rejoinLoop p (order.*2) w0 = Some (Some g, w')) \/
   (r.2 = None /\ waitingPlayers w = [] /\
    w' = set_trace (set_waitingPlayers w0 [p])
           (trace w ++ [WriteJSON conn waitingMessage; Go (BotTimerTask p)])) \/
   (exists opponent g x,
      waitingPlayers w = [opponent] /\ players w !! opponent = Some x /\
      opponent <> p /\ r.2 = Some g /\
      createGame gameID now opponent p false (set_waitingPlayers w0 [])
      = Some (g, w'))).
Proof.
  intros Hgood H p w0.
  pose proof (fresh_players_None (players w)) as Hfresh. fold p in Hfresh.
  unfold handleJoin, mbind, M_bind, bind, allocPlayer in H.
  fold p in H. change (mkPlayer username "" (Some conn) now false)
    with (joiner conn username now) in H. fold w0 in H.
  destruct (matchPlayer order gameID now p w0) as [[g w1]|] eqn:Hmatch; [|done].
  injection H as <- <-. simpl. split; [done|]. split; [done|].
  assert (goodSeats w0) as Hgood0.
  { unfold goodSeats, w0. simpl. apply seatsInv_unseated; [done|].
    by eapply unseated_fresh. }
  assert (unseated (gameObjs w0) p) as Hun.
  { eapply (unseated_fresh (players w)); [exact Hgood|done]. }
  assert (players w0 !! p = Some (joiner conn username now)) as Hp
      by apply lookup_insert_eq.
  unfold matchPlayer in Hmatch.
  unfold mbind at 1, M_bind at 1, bind at 1 in Hmatch.
  destruct (rejoinLoop p (order.*2) w0) as [[r1 w2]|] eqn:Hloop; [|done].
  destruct (rejoinLoop_goodSeats w0 p _ _ _ _ Hp Hun Hgood0 Hloop)
    as [[-> ->]|([g' ->] & _ & _)].
  - right. unfold mbind at 1, M_bind at 1, bind at 1, getWorld in Hmatch.
    change (waitingPlayers w0) with (waitingPlayers w) in Hmatch.
    destruct (waitingPlayers w) as [|opponent rest] eqn:Hq.
    + left. unfold mbind, M_bind, bind, getPlayer, lift, emit, ret in Hmatch.
      simpl in Hmatch. rewrite lookup_insert_eq in Hmatch. simpl in Hmatch.
      injection Hmatch as <- <-. rewrite Hq. split_and!; [done..|].
      unfold set_trace. simpl. by rewrite <- app_assoc.
    + right.
      unfold mbind at 1, M_bind at 1, bind at 1 in Hmatch.
      unfold mbind at 1, M_bind at 1, bind at 1 in Hmatch.
      destruct (createGame _ _ _ _ _ _) as [[g2 w3]|] eqn:Hcreate; [|done].
      injection Hmatch as <- <-.
      pose proof Hgood as (_ & Hqueue & Hlen). rewrite Hq in Hqueue, Hlen.
      destruct (Hqueue opponent) as [[x Hx] _]; [left|].
      assert (rest = []) as -> by (destruct rest; [done|simpl in Hlen; lia]).
      exists opponent, g2, x. split_and!; try done.
      intros ->. congruence.
  - left. injection Hmatch as <- <-. by exists g'.
Qed.

(** ** The registry and the index point at games *)

Lemma registered_same (w w' : World) :
  games w' = games w -> playerGames w' = playerGames w ->
  (forall g, is_Some (gameObjs w !! g) -> is_Some (gameObjs w' !! g)) ->
  registered w -> registered w'.
Proof.
  intros Eg Ep Hobjs [Hreg Hidx]. split.
  - intros id g. rewrite Eg. intros H. eapply Hobjs, Hreg, H.
  - intros name g. rewrite Ep. intros H. eapply Hobjs, Hidx, H.
Qed.

Lemma registered_extends (w w' : World) :
  extends w w' -> registered w -> registered w'.
Proof. intros [evs ->]. by apply registered_same. Qed.

Lemma registered_playersOnly (w w' : World) :
  playersOnly w w' -> registered w -> registered w'.
Proof.
  intros (Eo & Eg & Ep & _). apply registered_same; [done..|].
  intros g. by rewrite Eo.
Qed.

Lemma registered_updatesGame (w : World) (g : loc) (x : GameState) (w' : World) :
  updatesGame w g x w' -> registered w -> registered w'.
Proof.
  intros [evs ->]. apply registered_same; [done..|]. intros g'. simpl.
  rewrite lookup_insert. by case_decide.
Qed.

Lemma registered_opened (w : World) (ps : gmap nat Player) (g : loc)
      (game : GameState) (id : string) (idx : gmap string nat) (q : list nat)
      (t : list Event) :
  registered w ->
  (forall name g', idx !! name = Some g' ->
     g' = g \/ playerGames w !! name = Some g') ->
  registered (mkWorld ps (<[g := game]> (gameObjs w)) (<[id := g]> (games w))
                      idx q (db w) (kafkaWriter w) t).
Proof.
  intros [Hreg Hidx] Hnew.
  assert (forall g', is_Some (gameObjs w !! g') ->
                     is_Some (<[g := game]> (gameObjs w) !! g')) as Hobjs.
  { intros g'. rewrite lookup_insert. by case_decide. }
  split; simpl.
  - intros id' g'. rewrite lookup_insert. case_decide.
    + intros [= <-]. by rewrite lookup_insert_eq.
    + intros H'. eapply Hobjs, Hreg, H'.
  - intros name g' [-> | H']%Hnew.
    + by rewrite lookup_insert_eq.
    + eapply Hobjs, Hidx, H'.
Qed.

Lemma rejoinLoop_playersOnly (p : loc) (gs : list loc) :
  respects playersOnly (rejoinLoop p gs).
Proof.
  apply respects_rejoinLoop;
    first [exact playersOnly_refl | exact playersOnly_trans | done].
Qed.

Lemma step_registered (w w' : World) :
  goodSeats w -> step w w' -> registered w -> registered w'.
Proof.
  intros Hseats Hstep. revert Hseats.
  destruct Hstep as [conn username order gameID now w0 r w1 _ H
                    |now g p col w0 w1 H
                    |now g w0 w1 H
                    |gameID now p w0 w1 H
                    |p g w0 w1 H
                    |now p g w0 w1 H]; intros Hseats Hreg.
  - apply (handleJoin_inv _ _ _ _ _ _ _ _ Hseats) in H. cbv zeta in H.
    destruct H as (_ & Hfresh & [(g & _ & Hloop)|[(_ & _ & ->)|
                  (opponent & g & x & Hq & Hx & Hne & _ & Hcreate)]]).
    + apply rejoinLoop_playersOnly in Hloop.
      by eapply registered_playersOnly in Hloop.
    + by apply (registered_same w0).
    + rewrite (createGame_exact gameID now opponent _ false _ x
                 (joiner conn username now)) in Hcreate; [| |apply lookup_insert_eq|done].
      2: { simpl. by rewrite lookup_insert_ne. }
      injection Hcreate as _ <-.
      apply (registered_opened w0); [done|]. simpl.
      intros name g'. rewrite !lookup_insert. repeat case_decide; auto.
      all: intros [= <-]; by left.
  - apply handleMove_inv in H
      as [Hext|(game & player & row & b1 & wins & _ & _ & _ & _ & _ &
                _ & _ & _ & _ & Hupd)].
    + by eapply registered_extends.
    + by eapply registered_updatesGame.
  - apply makeBotMove_inv in H
      as [Hext|(game & col & row & b1 & wins & _ & _ & _ & _ &
                _ & _ & _ & _ & Hupd)].
    + by eapply registered_extends.
    + by eapply registered_updatesGame.
  - destruct (decide (p ∈ waitingPlayers w0)) as [Hin|Hnot].
    + pose proof Hseats as (_ & Hqueue & _).
      destruct (Hqueue p Hin) as [[x Hx] _].
      destruct (botTimerFire_exact gameID now p w0 x Hx Hin)
        as (pre & post & _ & _ & Heq).
      rewrite Heq in H. injection H as <-.
      apply (registered_opened w0); [done|].
      intros name g'. rewrite lookup_insert. case_decide; auto.
      intros [= <-]. by left.
    + rewrite botTimerFire_absent in H by done. by injection H as <-.
  - by eapply registered_playersOnly, Hreg; eapply handleDisconnect_playersOnly.
  - apply forfeitTimerFire_inv in H
      as [->|(player & game & o & opponent & _ & _ & _ & _ & _ & _ & Hupd)];
      [done|].
    by eapply registered_updatesGame.
Qed.

Lemma reachable_registered (w : World) : reachable w -> registered w.
Proof.
  induction 1 as [db kafka|w w' Hw IH Hstep].
  - split; intros k g H; simpl in H; by rewrite lookup_empty in H.
  - eapply step_registered; [by apply reachable_goodSeats|done..].
Qed.

Lemma reachable_registry_seated (w : World) (id : string) (g : loc) :
  reachable w -> games w !! id = Some g -> seated w g.
Proof.
  intros Hw Hid.
  destruct (reachable_registered w Hw) as [Hreg _].
  destruct (Hreg id g Hid) as [game Hg].
  by eapply goodSeats_seated; [apply reachable_goodSeats|].
Qed.

(** X20. In every state the server reaches, every id of the registry and
    every username of the index leads to a game object, and every game
    object has two seats held by two distinct player objects, the first red
    and the second yellow.  So the dereferences of [game.Player1] and
    [game.Player2] in the rejoin loop, in the broadcasts and in [saveGame]
    never meet a nil pointer. *)
Theorem registry_points_at_seated_games (w : World) (g : loc) :
  reachable w ->
  (exists id, games w !! id = Some g) \/
  (exists name, playerGames w !! name = Some g) \/
  is_Some (gameObjs w !! g) ->
  exists game l1 l2 x1 x2,
    gameObjs w !! g = Some game /\
    Player1 game = Some l1 /\ Player2 game = Some l2 /\ l1 <> l2 /\
    players w !! l1 = Some x1 /\ players w !! l2 = Some x2 /\
    PlayerColor x1 = Red /\ PlayerColor x2 = Yellow.
Proof.
  intros Hw Hwhere.
  destruct (reachable_registered w Hw) as [Hreg Hidx].
  assert (is_Some (gameObjs w !! g)) as [game Hg].
  { destruct Hwhere as [[id Hid]|[[name Hname]|Hobj]]; [|by eapply Hidx|done].
    by eapply Hreg. }
  destruct (reachable_goodSeats w Hw) as (Hcolored & _).
  destruct (Hcolored g game Hg) as (l1 & l2 & x1 & x2 & ? & ? & ? & ? & ? & ? & ?).
  by exists game, l1, l2, x1, x2.
Qed.

Lemma registry_points_at_seated_games_witness :
  exists game l1 l2 x1 x2,
    gameObjs twoAlices !! 1%nat = Some game /\
    Player1 game = Some l1 /\ Player2 game = Some l2 /\ l1 <> l2 /\
    players twoAlices !! l1 = Some x1 /\ players twoAlices !! l2 = Some x2 /\
    PlayerColor x1 = Red /\ PlayerColor x2 = Yellow.
Proof.
  apply (registry_points_at_seated_games twoAlices 1%nat).
  - apply twoAlices_reachable.
  - left. exists "g2"%string. vm_compute. reflexivity.
Defined.

(** ** A rejoin in time *)

Lemma seated_new_player (w : World) (g p : loc) (x : Player) :
  players w !! p = None -> seated w g ->
  seated (set_players w (<[p := x]> (players w))) g.
Proof.
  intros Hfresh (game & l1 & l2 & x1 & x2 & Hg & H1 & Hx1 & H2 & Hx2).
  exists game, l1, l2, x1, x2. simpl.
  split_and!; [done|done| |done|]; rewrite lookup_insert_ne; congruence.
Qed.

Lemma order_registry (w : World) (order : list (string * loc)) (g : loc) :
  order ≡ₚ map_to_list (games w) ->
  g ∈ order.*2 <-> exists id, games w !! id = Some g.
Proof.
  intros Hperm. rewrite list_elem_of_fmap. split.
  - intros ([id g'] & -> & Hin). exists id.
    apply elem_of_map_to_list. by rewrite <- Hperm.
  - intros [id Hid]. exists (id, g). split; [done|].
    rewrite Hperm. by apply elem_of_map_to_list.
Qed.



(** ** The row for the database *)



(** ** No step panics *)

Lemma sendIfConn_returns (conn : option nat) (msg : Message) (w : World) :
  exists w', sendIfConn conn msg w = Some (tt, w').
Proof. destruct conn; by eexists. Qed.

Lemma handleMove_returns (now : Z) (w : World) (g p : loc) (col : Z)
      (game : GameState) (player : Player) :
  gameObjs w !! g = Some game -> players w !! p = Some player ->
  seated w g -> wfGrid (Board game) ->
  exists w', handleMove now g p col w = Some (tt, w').
Proof.
  intros Hg Hp Hseat Hwf.
  destruct (decide (Winner game = ""%string)) as [Hw|Hw]; cycle 1.
  { exists w. by apply (handleMove_finished now w g p col game player). }
  destruct (decide (PlayerColor player = CurrentPlayer game)) as [Hturn|Hturn];
    cycle 1.
  { rewrite (handleMove_not_your_turn now w g p col game player) by done.
    apply sendIfConn_returns. }
  destruct (decide (0 <= col < COLS)) as [Hcol|Hcol]; cycle 1.
  { exists w. by apply (handleMove_invalid_column now w g p col game player). }
  destruct (lowestEmptyRow_total _ col Hwf Hcol) as [row Hrow].
  pose proof Hrow as [[-> _]|(Hr & Hc & _)]%lowestEmptyRow_spec.
  - rewrite (handleMove_column_full now w g p col game player) by done.
    apply sendIfConn_returns.
  - destruct (handleMove_accepted_spec now w g p col game player row)
      as (_ & _ & _ & w' & _ & _ & _ & Hmove & _); try done.
    by exists w'.
Qed.

Lemma handleDisconnect_returns (p g : loc) (w : World) (player : Player)
      (game : GameState) :
  goodSeats w -> players w !! p = Some player -> gameObjs w !! g = Some game ->
  exists w', handleDisconnect p g w = Some (tt, w').
Proof.
  intros (Hcolored & _) Hp Hg.
  destruct (Hcolored g game Hg)
    as (l1 & l2 & x1 & x2 & H1 & H2 & Hne & Hx1 & Hx2 & _).
  destruct (decide (p = l1)) as [->|Hn1].
  - rewrite (handleDisconnect_exact l1 g w player game l2 x2); [by eexists|done..| |done|done].
    unfold getOpponent. by rewrite decide_True.
  - rewrite (handleDisconnect_exact p g w player game l1 x1); [by eexists|done..| |done|done].
    unfold getOpponent. rewrite decide_False; [done|]. rewrite H1. congruence.
Qed.

Lemma forfeitTimerFire_returns (now : Z) (p g : loc) (w : World)
      (player : Player) (game : GameState) :
  goodSeats w -> players w !! p = Some player -> gameObjs w !! g = Some game ->
  exists w', forfeitTimerFire now p g w = Some (tt, w').
Proof.
  intros (Hcolored & _) Hp Hg.
  destruct (Disconnected player) eqn:Hd; cycle 1.
  { exists w. apply (forfeitTimerFire_noop now w p g game player); auto. }
  destruct (decide (Winner game = ""%string)) as [Hw|Hw]; cycle 1.
  { exists w. apply (forfeitTimerFire_noop now w p g game player); auto. }
  destruct (Hcolored g game Hg)
    as (l1 & l2 & x1 & x2 & H1 & H2 & Hne & Hx1 & Hx2 & _).
  destruct (decide (p = l1)) as [->|Hn1].
  - pose proof (forfeitTimerFire_exact now w l1 g game player l2 x2 l1 l2 x1 x2)
      as Heq.
    cbv zeta in Heq. rewrite Heq; [by eexists|done..| |done|done|done|done|done].
    unfold getOpponent. by rewrite decide_True.
  - pose proof (forfeitTimerFire_exact now w p g game player l1 x1 l1 l2 x1 x2)
      as Heq.
    cbv zeta in Heq. rewrite Heq; [by eexists|done..| |done|done|done|done|done].
    unfold getOpponent. rewrite decide_False; [done|]. rewrite H1. congruence.
Qed.

Lemma handleJoin_returns conn username order gameID now w :
  reachable w -> order ≡ₚ map_to_list (games w) ->
  exists r w', handleJoin conn username order gameID now w = Some (r, w').
Proof.
  intros Hw Hperm.
  pose proof (reachable_goodSeats w Hw) as Hseats.
  set (p := fresh (dom (players w))).
  pose proof (fresh_players_None (players w)) as Hfresh. fold p in Hfresh.
  set (w0 := set_players w (<[p := joiner conn username now]> (players w))).
  assert (players w0 !! p = Some (joiner conn username now)) as Hp
      by apply lookup_insert_eq.
  assert (forall g, g ∈ order.*2 -> seated w0 g) as Hseated.
  { intros g [id Hid]%(order_registry w); [|done].
    apply seated_new_player; [done|]. by eapply reachable_registry_seated. }
  assert (exists r w', matchPlayer order gameID now p w0 = Some (r, w'))
    as (r & w' & Hmatch).
  { destruct (rejoinLoop_spec w0 p (joiner conn username now) (order.*2) Hp Hseated)
      as [[Hnone _]|(pre & g & post & seat & Hgs & _ & Hocc & _)].
    - destruct (waitingPlayers w) as [|opponent rest] eqn:Hq.
      + rewrite (matchPlayer_waits order gameID now p w0
                   (joiner conn username now) conn); by eauto.
      + destruct Hseats as (_ & Hqueue & _).
        destruct (Hqueue opponent) as [[x Hx] _]; [rewrite Hq; left|].
        assert (opponent <> p) as Hne by congruence.
        destruct (matchPlayer_pairs order gameID now p opponent rest w0
                    (joiner conn username now) x)
          as (w' & Hmatch & Hrest); try done.
        { simpl. by rewrite lookup_insert_ne. }
        by eauto.
    - destruct (matchPlayer_rejoin w0 order gameID now p (joiner conn username now))
        as (pre' & g' & post' & seat' & game' & s' & evs & _ & _ & _ & _ & _ &
            Hmatch & _);
        try done.
      { exists g. split; [|by exists seat].
        rewrite Hgs, elem_of_app. right. left. }
      by eauto. }
  exists (p, r), w'.
  unfold handleJoin, mbind, M_bind, bind, allocPlayer. fold p.
  change (mkPlayer username "" (Some conn) now false)
    with (joiner conn username now). fold w0. by rewrite Hmatch.
Qed.

Lemma botTimerFire_returns gameID now p w :
  goodSeats w -> exists w', botTimerFire gameID now p w = Some (tt, w').
Proof.
  intros (_ & Hqueue & _).
  destruct (decide (p ∈ waitingPlayers w)) as [Hin|Hnot].
  - destruct (Hqueue p Hin) as [[x Hx] _].
    destruct (botTimerFire_exact gameID now p w x Hx Hin)
      as (pre & post & _ & _ & Heq).
    by eexists.
  - exists w. by apply botTimerFire_absent.
Qed.

(** X23. No step panics.  In every state the server reaches, each of the six
    steps returns when it is given pointers to objects that exist, whatever
    the column, the username, the clock and the state of the game: no nil
    pointer is dereferenced and no slice is indexed out of range, in
    [handleMove], [makeBotMove], the join with its rejoin loop, the fallback
    timer, [handleDisconnect] and the forfeit timer, nor in the broadcasts
    and in [saveGame] that they call. *)
Theorem reachable_steps_do_not_panic (w : World) :
  reachable w ->
  (forall now g p col,
     is_Some (gameObjs w !! g) -> is_Some (players w !! p) ->
     exists w', handleMove now g p col w = Some (tt, w')) /\
  (forall now g,
     is_Some (gameObjs w !! g) -> exists w', makeBotMove now g w = Some (tt, w')) /\
  (forall conn username order gameID now,
     order ≡ₚ map_to_list (games w) ->
     exists r w', handleJoin conn username order gameID now w = Some (r, w')) /\
  (forall gameID now p, exists w', botTimerFire gameID now p w = Some (tt, w')) /\
  (forall p g,
     is_Some (players w !! p) -> is_Some (gameObjs w !! g) ->
     exists w', handleDisconnect p g w = Some (tt, w')) /\
  (forall now p g,
     is_Some (players w !! p) -> is_Some (gameObjs w !! g) ->
     exists w', forfeitTimerFire now p g w = Some (tt, w')).
Proof.
  intros Hw.
  pose proof (reachable_goodSeats w Hw) as Hseats.
  pose proof (reachable_goodGames w Hw) as Hgames.
  split_and!.
  - intros now g p col [game Hg] [player Hp].
    apply (handleMove_returns now w g p col game player); [done..| |].
    + by eapply goodSeats_seated.
    + by destruct (Hgames g game Hg) as [? _].
  - intros now g [game Hg].
    destruct (decide (Winner game = ""%string)) as [Hres|Hres].
    + destruct (makeBotMove_reachable now w g game Hw Hg Hres)
        as (c & row & b1 & wins & evs & _ & _ & _ & _ & _ & Hrun).
      by eexists.
    + exists w. by apply (makeBotMove_finished now w g game).
  - intros conn username order gameID now Hperm. by apply handleJoin_returns.
  - intros gameID now p. by apply botTimerFire_returns.
  - intros p g [player Hp] [game Hg]. by eapply handleDisconnect_returns.
  - intros now p g [player Hp] [game Hg]. by eapply forfeitTimerFire_returns.
Qed.

Lemma reachable_steps_do_not_panic_witness :
  (forall now g p col,
     is_Some (gameObjs twoAlices !! g) -> is_Some (players twoAlices !! p) ->
     exists w', handleMove now g p col twoAlices = Some (tt, w')) /\
  (forall now p g,
     is_Some (players twoAlices !! p) -> is_Some (gameObjs twoAlices !! g) ->
     exists w', forfeitTimerFire now p g twoAlices = Some (tt, w')).
Proof.
  destruct (reachable_steps_do_not_panic twoAlices twoAlices_reachable)
    as (Hmove & _ & _ & _ & _ & Hforfeit).
  exact (conj Hmove Hforfeit).
Defined.

(** ** The connection handler *)

(** X24. The move case of [HandleWebSocket].  The username of the handler's
    player is read before the test for a nil player: a move message on a
    connection that has not joined panics, and the answer "Player not found"
    is never reached.  With a player, the game is the one the index holds
    for the username of the player, not the one the handler held: without
    an entry the client gets "Game not found", nothing else changes and the
    handler forgets its game; with an entry the round is [handleMove] on
    that game, which becomes the handler's game. *)
Theorem HandleWebSocket_move (conn : nat) (order : list (string * loc))
        (gameID : string) (now : Z) (h : Handler) (msg : Message) (w : World) :
  mType msg = "move"%string ->
  (handlerPlayer h = None ->
   HandleWebSocket conn order gameID now h (Received msg) w = None) /\
  (forall p player,
     handlerPlayer h = Some p -> players w !! p = Some player ->
     (playerGames w !! Username player = None ->
      HandleWebSocket conn order gameID now h (Received msg) w
      = Some (Some (mkHandler (Some p) None),
              set_trace w (trace w ++
                           [WriteJSON conn (errorMessage "Game not found")]))) /\
     (forall g, playerGames w !! Username player = Some g ->
        HandleWebSocket conn order gameID now h (Received msg) w
        = (handleMove now g p (mColumn msg);;
           ret (Some (mkHandler (Some p) (Some g)))) w)).
Proof.
  intros Hmove. unfold HandleWebSocket. rewrite Hmove. simpl. split.
  - intros ->. done.
  - intros p player -> Hp.
    unfold mbind, M_bind, bind, getPlayer, getWorld. rewrite Hp. split.
    + intros ->. done.
    + intros g ->. done.
Qed.

Lemma HandleWebSocket_move_witness :
  HandleWebSocket 1 [] "g1" 0 (mkHandler None None) (Received (clientMove 3))
                  (NewGameServer false false) = None.
Proof.
  refine (proj1 (HandleWebSocket_move 1%nat [] "g1"%string 0 (mkHandler None None)
                   (clientMove 3) (NewGameServer false false) _) _);
    reflexivity.
Defined.

(** X25. Moves follow the index, and the index follows the last game.  Once
    [createGame] has opened a game for two participants, a move message on
    any connection whose player carries the username of either of them is a
    move in the new game, whatever game that connection was seated in and
    whether or not its player holds a seat of the new game. *)
Theorem moves_follow_the_index (gameID : string) (now0 : Z) (p1 p2 : loc)
        (w : World) (x1 x2 : Player) (g : loc) (w' : World) :
  players w !! p1 = Some x1 -> players w !! p2 = Some x2 -> p1 <> p2 ->
  createGame gameID now0 p1 p2 false w = Some (g, w') ->
  forall conn order gameID' now h p player col,
    handlerPlayer h = Some p -> players w' !! p = Some player ->
    Username player = Username x1 \/ Username player = Username x2 ->
    HandleWebSocket conn order gameID' now h (Received (clientMove col)) w'
    = (handleMove now g p col;; ret (Some (mkHandler (Some p) (Some g)))) w'.
Proof.
  intros H1 H2 Hne Hcreate conn order gameID' now h p player col Hh Hp Hname.
  rewrite (createGame_exact gameID now0 p1 p2 false w x1 x2 H1 H2 Hne) in Hcreate.
  injection Hcreate as <- <-.
  unfold HandleWebSocket. simpl.
  unfold mbind, M_bind, bind, getPlayer, getWorld. rewrite Hh.
  simpl in Hp. simpl. rewrite Hp. simpl.
  assert ((<[Username x2 := fresh (dom (gameObjs w))]>
             (<[Username x1 := fresh (dom (gameObjs w))]> (playerGames w)))
            !! Username player = Some (fresh (dom (gameObjs w)))) as ->; [|done].
  rewrite !lookup_insert. repeat case_decide; try done.
  destruct Hname; congruence.
Qed.

Lemma moves_follow_the_index_witness :
  HandleWebSocket 9 [] "g4" 6 (mkHandler (Some 0%nat) None)
                  (Received (clientMove 0))
                  (default bobArrives
                     (snd <$> createGame "g1" 5 0%nat 1%nat false bobArrives))
  = (handleMove 6 0%nat 0%nat 0;;
     ret (Some (mkHandler (Some 0%nat) (Some 0%nat))))
      (default bobArrives
         (snd <$> createGame "g1" 5 0%nat 1%nat false bobArrives)).
Proof.
  apply (moves_follow_the_index "g1" 5 0%nat 1%nat bobArrives
           (mkPlayer "alice" "" (Some 1%nat) 0 false)
           (mkPlayer "bob" "" (Some 2%nat) 0 false) 0%nat
           (default bobArrives
              (snd <$> createGame "g1" 5 0%nat 1%nat false bobArrives)))
    with (player := mkPlayer "alice" Red (Some 1%nat) 0 false).
  - vm_compute. reflexivity.
  - vm_compute. reflexivity.
  - discriminate.
  - vm_compute. reflexivity.
  - reflexivity.
  - vm_compute. reflexivity.
  - left. reflexivity.
Defined.

(** X26. A participant who waits and whose connection fails.  In a state the
    server reaches, a join that is no rejoin and finds the queue empty puts
    its player in the queue and leaves the handler without a game; the
    handler's game is set by the handler's own rounds only, so it is still
    nil when the connection fails, also if another join has paired the
    participant in between.  The round for the read error then leaves the
    world, whatever it has become, exactly as it is: the participant is not
    marked disconnected, no forfeit timer is started, and the participant
    stays where the matchmaker put it. *)
Theorem waiting_participant_drop_is_ignored (conn : nat) (username : string)
        (order : list (string * loc)) (gameID : string) (now : Z) (h : Handler)
        (w : World) :
  reachable w -> order ≡ₚ map_to_list (games w) -> waitingPlayers w = [] ->
  (forall id g, games w !! id = Some g -> ~ rejoinable w username g) ->
  exists p w1,
    HandleWebSocket conn order gameID now h (Received (joinMessage username)) w
    = Some (Some (mkHandler (Some p) None), w1) /\
    players w !! p = None /\
    players w1 !! p = Some (joiner conn username now) /\
    waitingPlayers w1 = [p] /\
    trace w1 = trace w ++ [WriteJSON conn waitingMessage; Go (BotTimerTask p)] /\
    forall order' gameID' now' w2,
      HandleWebSocket conn order' gameID' now' (mkHandler (Some p) None)
                      ReadError w2 = Some (None, w2).
Proof.
  intros Hw Hperm Hq Hnone.
  set (p := fresh (dom (players w))).
  pose proof (fresh_players_None (players w)) as Hfresh. fold p in Hfresh.
  assert (unseated (gameObjs w) p) as Hun.
  { eapply unseated_fresh; [exact (reachable_goodSeats w Hw)|done]. }
  set (w0 := set_players w (<[p := joiner conn username now]> (players w))).
  pose proof (matchPlayer_waits order gameID now p w0
                (joiner conn username now) conn) as Hmatch.
  exists p. eexists. split.
  { unfold HandleWebSocket. simpl.
    unfold handleJoin, mbind, M_bind, bind, allocPlayer. fold p.
    change (mkPlayer username "" (Some conn) now false)
      with (joiner conn username now). fold w0.
    rewrite Hmatch; [reflexivity|apply lookup_insert_eq|done| | |done].
    - intros g [id Hid]%(order_registry w); [|done].
      apply seated_new_player; [done|]. by eapply reachable_registry_seated.
    - intros g [id Hid]%(order_registry w); [|done]. simpl.
      destruct (reachable_registry_seated w id g Hw Hid)
        as (game & _ & _ & _ & _ & Hg & _).
      destruct (Hun g game Hg). intros Hre.
      apply (rejoinable_insert_unseated w p (joiner conn username now)
               username g game) in Hre; [|done..].
      by eapply Hnone. }
  simpl. split_and!; [done|apply lookup_insert_eq|done|done|done].
Qed.

Lemma waiting_participant_drop_is_ignored_witness :
  exists p w1,
    HandleWebSocket 1 [] "g1" 0 (mkHandler None None)
                    (Received (joinMessage "alice")) (NewGameServer false false)
    = Some (Some (mkHandler (Some p) None), w1) /\
    waitingPlayers w1 = [p] /\
    forall order' gameID' now' w2,
      HandleWebSocket 1 order' gameID' now' (mkHandler (Some p) None)
                      ReadError w2 = Some (None, w2).
Proof.
  destruct (waiting_participant_drop_is_ignored 1 "alice" [] "g1" 0
              (mkHandler None None) (NewGameServer false false))
    as (p & w1 & H1 & _ & _ & H2 & _ & H3).
  - constructor.
  - vm_compute. reflexivity.
  - reflexivity.
  - intros id g Hid. simpl in Hid. by rewrite lookup_empty in Hid.
  - exists p, w1. exact (conj H1 (conj H2 H3)).
Defined.

(** X27. Every round of [HandleWebSocket] that returns is a step of the
    server, or leaves the world as it is, or only sends "Game not found":
    a join is the join step, a move with an entry in the index is the move
    step, a read error with a player and a game is the disconnect step.  So
    what holds along the runs of the server holds for the server as its
    connections drive it: the rounds keep the 6x7 boards with gravity, the
    seats invariant and the bound on the queue. *)
Theorem HandleWebSocket_rounds_are_steps (conn : nat) (order : list (string * loc))
        (gameID : string) (now : Z) (h : Handler) (i : Incoming) (w : World)
        (r : option Handler) (w' : World) :
  order ≡ₚ map_to_list (games w) ->
  HandleWebSocket conn order gameID now h i w = Some (r, w') ->
  (w' = w \/ step w w' \/
   w' = set_trace w (trace w ++ [WriteJSON conn (errorMessage "Game not found")])) /\
  (goodGames w -> goodGames w') /\
  (goodSeats w -> goodSeats w') /\
  ((length (waitingPlayers w) <= 1)%nat -> (length (waitingPlayers w') <= 1)%nat).
Proof.
  intros Hperm Hround.
  assert (w' = w \/ step w w' \/
          w' = set_trace w (trace w ++
                            [WriteJSON conn (errorMessage "Game not found")]))
    as Hwhat.
  { unfold HandleWebSocket in Hround. destruct i as [|msg].
    - destruct (handlerPlayer h) as [p|]; [|by injection Hround as _ <-; left].
      destruct (handlerGame h) as [g|]; [|by injection Hround as _ <-; left].
      unfold mbind, M_bind, bind in Hround.
      destruct (handleDisconnect p g w) as [[[] w1]|] eqn:Hd; [|done].
      injection Hround as _ <-. right; left. by eapply step_disconnect.
    - destruct (String.eqb (mType msg) "join").
      + unfold mbind, M_bind, bind in Hround.
        destruct (handleJoin conn (mUsername msg) order gameID now w)
          as [[r1 w1]|] eqn:Hj; [|done].
        injection Hround as _ <-. right; left. by eapply step_join.
      + destruct (String.eqb (mType msg) "move");
          [|by injection Hround as _ <-; left].
        unfold mbind, M_bind, bind, getPlayer, getWorld in Hround.
        destruct (handlerPlayer h) as [p|]; [|done].
        destruct (players w !! p) as [player|]; [|done].
        destruct (playerGames w !! Username player) as [g|].
        * destruct (handleMove now g p (mColumn msg) w) as [[[] w1]|] eqn:Hm;
            [|done].
          injection Hround as _ <-. right; left. by eapply step_move.
        * injection Hround as _ <-. by right; right. }
  split; [done|].
  destruct Hwhat as [-> | [Hstep | ->]].
  - done.
  - split_and!; [by apply step_goodGames|by apply step_goodSeats
                |by apply step_queue].
  - split_and!; [apply goodGames_extends|apply goodSeats_extends|done];
      apply extends_set_trace.
Qed.

Lemma HandleWebSocket_rounds_are_steps_witness :
  (aliceWaits = NewGameServer false false \/
   step (NewGameServer false false) aliceWaits \/
   aliceWaits = set_trace (NewGameServer false false)
                  (trace (NewGameServer false false) ++
                   [WriteJSON 1 (errorMessage "Game not found")])) /\
  (goodGames (NewGameServer false false) -> goodGames aliceWaits) /\
  (goodSeats (NewGameServer false false) -> goodSeats aliceWaits) /\
  ((length (waitingPlayers (NewGameServer false false)) <= 1)%nat ->
   (length (waitingPlayers aliceWaits) <= 1)%nat).
Proof.
  apply (HandleWebSocket_rounds_are_steps 1 [] "g1" 0 (mkHandler None None)
           (Received (joinMessage "alice")) (NewGameServer false false)
           (Some (mkHandler (Some 0%nat) None)) aliceWaits).
  - vm_compute. reflexivity.
  - vm_compute. reflexivity.
Defined.
